(** * Transaction coordinator catalog and asynchronous work scheduler

    A shallow embedding of
      - src/mongo/db/s/transaction_coordinator_catalog.cpp
      - src/mongo/db/s/transaction_coordinator_futures_util.cpp
      - src/mongo/executor/thread_pool_task_executor.cpp
    Each member function that runs under the object's mutex is one atomic
    step: a function from the object's state (and the answers of its external
    collaborators) to an outcome and a new state. *)

From stdpp Require Import gmap strings list sorting.

Set Warnings "-register-all".

(** ** Status and error codes (mongo/base/status.h, error_codes) *)

Module ErrorCodes.
(** Only the codes the two sources name get a constructor of their own. *)
Inductive Error : Type :=
| OK
| CallbackCanceled
| OtherError (n : N).

#[global] Instance Error_eq_dec : EqDecision Error.
Proof. solve_decision. Defined.
End ErrorCodes.

Record Status : Type := mkStatus {
  code : ErrorCodes.Error;
  reason : string;
}.

#[global] Instance Status_eq_dec : EqDecision Status.
Proof. solve_decision. Defined.

Definition Status_OK : Status := mkStatus ErrorCodes.OK "".

Definition isOK (s : Status) : bool := bool_decide (code s = ErrorCodes.OK).

(** [status == ErrorCodes::X] compares the code only. *)
Definition status_is (s : Status) (c : ErrorCodes.Error) : bool :=
  bool_decide (code s = c).

(** [TxnNumber] is a [long long]; the sources only compare transaction
    numbers, so no wrap-around arises. *)
Abbreviation TxnNumber := Z.

(** ** Key order of an ordered map

    [std::map<Key, T, Compare>] iterates its entries in the order of its
    [Compare] argument, and [begin()] is the first entry in that order. The
    inner map of the catalog is declared in transaction_coordinator_catalog.h;
    its [Compare] argument is taken as a parameter [comp] here. *)

Class KeyCompare (comp : TxnNumber → TxnNumber → bool) : Prop := {
  comp_irrefl : ∀ a, comp a a = false;
  comp_trans : ∀ a b c, comp a b = true → comp b c = true → comp a c = true;
  comp_total : ∀ a b, comp a b = false → comp b a = false → a = b;
}.

(** [std::less<TxnNumber>] and [std::greater<TxnNumber>]. *)
Definition std_less : TxnNumber → TxnNumber → bool := Z.ltb.
Definition std_greater : TxnNumber → TxnNumber → bool := λ a b, Z.ltb b a.

Section ordered_map.
Context {T : Type} (comp : TxnNumber → TxnNumber → bool).

(** "[a] is not after [b]" on entries; decidable by evaluation. *)
Definition entry_le (a b : TxnNumber * T) : Prop := comp b.1 a.1 = false.

#[global] Instance entry_le_dec a b : Decision (entry_le a b).
Proof. unfold entry_le. solve_decision. Defined.

(** The entries in iteration order. *)
Definition in_order (m : gmap TxnNumber T) : list (TxnNumber * T) :=
  merge_sort entry_le (map_to_list m).

(** [m.begin()], when [m] is not empty. *)
Definition map_begin (m : gmap TxnNumber T) : option (TxnNumber * T) :=
  head (in_order m).

(** [m.empty()] *)
Definition map_empty (m : gmap TxnNumber T) : bool := bool_decide (m = ∅).
End ordered_map.

(** ** The coordinator catalog (transaction_coordinator_catalog.cpp) *)

Module TransactionCoordinatorCatalog.
Section catalog.
(** [LogicalSessionId] is the hashed key of the outer map;
    [Coordinator] stands for a non-null
    [std::shared_ptr<TransactionCoordinator>]. *)
Context {LogicalSessionId : Type} `{Countable LogicalSessionId}.
Context {Coordinator : Type}.
(** The [Compare] argument of the inner map. *)
Context (comp : TxnNumber → TxnNumber → bool).

Record State : Type := mkState {
  _stepUpCompletionStatus : option Status;
  _coordinatorsBySession : gmap LogicalSessionId (gmap TxnNumber Coordinator);
}.

(** How a member function ends.
    - [Returned a st]: normal return of [a], the catalog being [st];
    - [Threw s st]: a [uassert] or an interrupted wait threw [s] to the
      caller;
    - [Blocked]: the caller waits on a condition variable, the predicate
      being false in this state;
    - [Fatal]: an [invariant] failed and the process is aborted. *)
Inductive Outcome (A : Type) : Type :=
| Returned (a : A) (st : State)
| Threw (s : Status) (st : State)
| Blocked
| Fatal.
#[global] Arguments Returned {A} a st.
#[global] Arguments Threw {A} s st.
#[global] Arguments Blocked {A}.
#[global] Arguments Fatal {A}.

(** The freshly constructed catalog. *)
Definition empty_catalog : State := mkState None ∅.

(** Modelled from the spec: [OperationContext] is declared in a header that
    is not among the sources. "Killing an operation context interrupts any
    interruptible wait happening inside it": of a caller's context the
    catalog sees what its interruption check answers, [Status::OK()] as long
    as the context has not been killed and is not past its deadline, and the
    status an interrupted wait throws otherwise. *)
Record OperationContext : Type := mkOperationContext {
  checkForInterruptNoAssert : Status;
}.

(** How a wait on a condition variable with a predicate ends in one state:
    the predicate holds and the wait returns, the wait throws [s], or the
    caller keeps waiting. *)
Inductive WaitOutcome : Type :=
| WaitReturned
| WaitInterrupted (s : Status)
| WaitWaiting.

(** Modelled from the spec: [opCtx->waitForConditionOrInterrupt(cv, lk,
    pred)], a member of the same absent header. Like the wait of a condition
    variable with a predicate it returns once [pred] holds; while [pred] does
    not hold, "killing an operation context interrupts any interruptible
    wait happening inside it": the wait throws the interruption of an
    interrupted context, and keeps the caller waiting otherwise. *)
Definition waitForConditionOrInterrupt (opCtx : OperationContext)
    (pred : bool) : WaitOutcome :=
  if pred then WaitReturned
  else if isOK (checkForInterruptNoAssert opCtx) then WaitWaiting
  else WaitInterrupted (checkForInterruptNoAssert opCtx).

(** The result of the wait on [_stepUpCompleteCV] followed by
    [uassertStatusOK] on the stored status. *)
Inductive WaitResult : Type :=
| WaitPassed
| WaitThrew (s : Status)
| WaitBlocked.

Definition _waitForStepUpToComplete (opCtx : OperationContext) (st : State)
    : WaitResult :=
  match waitForConditionOrInterrupt opCtx
          (bool_decide (is_Some (_stepUpCompletionStatus st))) with
  | WaitWaiting => WaitBlocked
  | WaitInterrupted s => WaitThrew s
  | WaitReturned =>
      match _stepUpCompletionStatus st with
      | Some s => if isOK s then WaitPassed else WaitThrew s
      | None => WaitBlocked (* not reached: the predicate holds *)
      end
  end.

Definition exitStepUp (status : Status) (st : State) : Outcome unit :=
  match _stepUpCompletionStatus st with
  | Some _ => Fatal
  | None => Returned () (mkState (Some status) (_coordinatorsBySession st))
  end.

(** [onStepDown] returns the snapshot [coordinatorsToCancel], on each of
    which [cancelIfCommitNotYetStarted] is then called with the mutex
    released. The outer map is a hash map: its iteration order is that of
    [map_to_list]. *)
Definition onStepDown (st : State) : Outcome (list Coordinator) :=
  Returned
    (mbind (λ entry : LogicalSessionId * gmap TxnNumber Coordinator,
              snd <$> in_order comp entry.2)
           (map_to_list (_coordinatorsBySession st)))
    st.

(** [insert] returns the key captured by the continuation it attaches to
    [coordinator->onCompletion()], which calls [_remove] with it. *)
Definition insert (opCtx : OperationContext) (lsid : LogicalSessionId)
    (txnNumber : TxnNumber) (coordinator : Coordinator) (forStepUp : bool)
    (st : State) : Outcome (LogicalSessionId * TxnNumber) :=
  match (if forStepUp then WaitPassed
         else _waitForStepUpToComplete opCtx st) with
  | WaitBlocked => Blocked
  | WaitThrew s => Threw s st
  | WaitPassed =>
      (* [_coordinatorsBySession[lsid]] default-constructs a missing entry *)
      let bySession :=
        match _coordinatorsBySession st !! lsid with
        | Some _ => _coordinatorsBySession st
        | None => <[lsid := ∅]> (_coordinatorsBySession st)
        end in
      let coordinatorsBySession := default ∅ (bySession !! lsid) in
      match coordinatorsBySession !! txnNumber with
      | Some _ => Fatal
      | None =>
          Returned (lsid, txnNumber)
            (mkState (_stepUpCompletionStatus st)
               (<[lsid := <[txnNumber := coordinator]> coordinatorsBySession]>
                  bySession))
      end
  end.

(** [None] is the null pointer [get] returns for a missing key. *)
Definition get (opCtx : OperationContext) (lsid : LogicalSessionId)
    (txnNumber : TxnNumber) (st : State) : Outcome (option Coordinator) :=
  match _waitForStepUpToComplete opCtx st with
  | WaitBlocked => Blocked
  | WaitThrew s => Threw s st
  | WaitPassed =>
      Returned
        (match _coordinatorsBySession st !! lsid with
         | Some coordinatorsForSession => coordinatorsForSession !! txnNumber
         | None => None
         end) st
  end.

Definition getLatestOnSession (opCtx : OperationContext)
    (lsid : LogicalSessionId) (st : State)
    : Outcome (option (TxnNumber * Coordinator)) :=
  match _waitForStepUpToComplete opCtx st with
  | WaitBlocked => Blocked
  | WaitThrew s => Threw s st
  | WaitPassed =>
      match _coordinatorsBySession st !! lsid with
      | None => Returned None st
      | Some coordinatorsForSession =>
          if map_empty coordinatorsForSession then Fatal
          else
            match map_begin comp coordinatorsForSession with
            | Some lastCoordinatorOnSession =>
                Returned (Some lastCoordinatorOnSession) st
            | None => Fatal (* [begin()] of a non-empty map exists *)
            end
      end
  end.

(** [_remove] returns whether it notified [_noActiveCoordinatorsCV]. *)
Definition _remove (lsid : LogicalSessionId) (txnNumber : TxnNumber)
    (st : State) : Outcome bool :=
  let bySession :=
    match _coordinatorsBySession st !! lsid with
    | Some coordinatorsForSession =>
        match coordinatorsForSession !! txnNumber with
        | Some _ =>
            let erased := delete txnNumber coordinatorsForSession in
            if map_empty erased
            then delete lsid (_coordinatorsBySession st)
            else <[lsid := erased]> (_coordinatorsBySession st)
        | None => _coordinatorsBySession st
        end
    | None => _coordinatorsBySession st
    end in
  Returned (bool_decide (bySession = ∅))
    (mkState (_stepUpCompletionStatus st) bySession).

(** [join] returns once [_coordinatorsBySession.empty()] holds; until then
    it stays in its loop, logging every five seconds. *)
Definition join (st : State) : Outcome unit :=
  if bool_decide (_coordinatorsBySession st = ∅) then Returned () st
  else Blocked.

(** [~TransactionCoordinatorCatalog] *)
Definition destructor (st : State) : Outcome unit := join st.

(** The calls a client (or a completion continuation) can make, and the
    catalog they leave behind: a call that throws or blocks leaves it as it
    was; [None] when the process is aborted. *)
Inductive Call : Type :=
| CallExitStepUp (status : Status)
| CallOnStepDown
| CallInsert (opCtx : OperationContext) (lsid : LogicalSessionId)
    (txnNumber : TxnNumber) (coordinator : Coordinator) (forStepUp : bool)
| CallGet (opCtx : OperationContext) (lsid : LogicalSessionId)
    (txnNumber : TxnNumber)
| CallGetLatestOnSession (opCtx : OperationContext) (lsid : LogicalSessionId)
| CallRemove (lsid : LogicalSessionId) (txnNumber : TxnNumber)
| CallJoin.

Definition state_after {A} (o : Outcome A) (st : State) : option State :=
  match o with
  | Returned _ st' => Some st'
  | Threw _ st' => Some st'
  | Blocked => Some st
  | Fatal => None
  end.

Definition call_step (c : Call) (st : State) : option State :=
  match c with
  | CallExitStepUp status => state_after (exitStepUp status st) st
  | CallOnStepDown => state_after (onStepDown st) st
  | CallInsert opCtx lsid txnNumber coordinator forStepUp =>
      state_after (insert opCtx lsid txnNumber coordinator forStepUp st) st
  | CallGet opCtx lsid txnNumber =>
      state_after (get opCtx lsid txnNumber st) st
  | CallGetLatestOnSession opCtx lsid =>
      state_after (getLatestOnSession opCtx lsid st) st
  | CallRemove lsid txnNumber => state_after (_remove lsid txnNumber st) st
  | CallJoin => state_after (join st) st
  end.

Fixpoint run (calls : list Call) (st : State) : option State :=
  match calls with
  | [] => Some st
  | c :: calls' =>
      match call_step c st with
      | None => None
      | Some st' => run calls' st'
      end
  end.

(** The coordinator registered under [(lsid, txnNumber)], if any. *)
Definition registered (lsid : LogicalSessionId) (txnNumber : TxnNumber)
    (st : State) : option Coordinator :=
  _coordinatorsBySession st !! lsid ≫= (.!! txnNumber).

(** No session is present with an empty inner map. *)
Definition no_empty_session (st : State) : Prop :=
  ∀ lsid coordinatorsForSession,
    _coordinatorsBySession st !! lsid = Some coordinatorsForSession →
    coordinatorsForSession ≠ ∅.

(** The gate of [insert] is open: the call is made for step-up, or step-up
    has completed ok. *)
Definition gate_open (forStepUp : bool) (st : State) : Prop :=
  forStepUp = true ∨
  ∃ s, _stepUpCompletionStatus st = Some s ∧ isOK s = true.

End catalog.
End TransactionCoordinatorCatalog.

(** ** The hierarchical scheduler (transaction_coordinator_futures_util.cpp) *)

Module AsyncWorkScheduler.

(** [ShardId] wraps a [std::string]; [HostAndPort] is printed as one. *)
Abbreviation ShardId := string.
Abbreviation HostAndPort := string.
(** Operation contexts and executor callback handles are identities. *)
Abbreviation OperationContext := nat.
Abbreviation CallbackHandle := nat.

Inductive ClusterRole : Type := NoRole | ShardServer | ConfigServer.

#[global] Instance ClusterRole_eq_dec : EqDecision ClusterRole.
Proof. solve_decision. Defined.

Inductive StatusWith (T : Type) : Type :=
| SWError (s : Status)
| SWValue (t : T).
Arguments SWError {T} s.
Arguments SWValue {T} t.

(** A scheduler node with the nodes registered in its [_childSchedulers]:
    the parent holds its children by pointer and [shutdown] follows those
    pointers, so a node is modelled together with its subtree. *)
Inductive Scheduler : Type := mkScheduler {
  _shutdownStatus : Status;
  _activeOpContexts : list OperationContext;
  _activeHandles : list CallbackHandle;
  _childSchedulers : list Scheduler;
}.

(** The node a constructor leaves: [_shutdownStatus] is [Status::OK()]. *)
Definition new_scheduler : Scheduler := mkScheduler Status_OK [] [] [].

Section scheduler.
Context {BSONObj ReadPreferenceSetting Shard : Type}.

(** [executor::RemoteCommandResponse] *)
Record ResponseStatus : Type := mkResponse {
  data : BSONObj;
  elapsed : Z;
  status : Status;
}.

Record OpMsg : Type := mkOpMsg {
  body : BSONObj;
  sequences : list BSONObj;
}.

Record HostAndShard : Type := mkHostAndShard {
  hostTargeted : HostAndPort;
  shard : Shard;
}.

(** Calls made on the external collaborators, in program order. *)
Inductive Event : Type :=
| KillOperation (opCtx : OperationContext) (c : ErrorCodes.Error)
| Cancel (h : CallbackHandle)
| OperationContextFn
| GrantInternalAuthorization
| HandleRequest (commandObj : BSONObj)
| GetShard (shardId : ShardId)
| FindHostWithMaxWait (shardId : ShardId) (readPref : ReadPreferenceSetting)
| ExecutorScheduleRemoteCommand (host : HostAndPort) (commandObj : BSONObj)
    (readPref : ReadPreferenceSetting)
| UpdateReplSetMonitor (host : HostAndPort) (s : Status)
| NotifyAllTasksComplete.

(** What the collaborators answer during one call. *)
Record Collaborators : Type := mkCollaborators {
  (* serverGlobalParams.clusterRole *)
  clusterRole : ClusterRole;
  (* ShardRegistry::kConfigServerShardId *)
  kConfigServerShardId : ShardId;
  (* ShardingState::get(service)->shardId() *)
  shardingStateShardId : ShardId;
  (* whether the work handed to [scheduleWork] gets to run *)
  workAdmission : Status;
  (* how the caller's [operationContextFn] ends: OK, or the error thrown *)
  operationContextFn : Status;
  (* how the pause at a fail point ends: OK when it is off or released,
     else the interruption thrown *)
  hangWhileTargetingLocalHost : Status;
  hangWhileTargetingRemoteHost : Status;
  (* the service entry point followed by [OpMsg::parseOwned]: the parsed
     reply, or the exception thrown on the way *)
  handleRequest : BSONObj → StatusWith OpMsg;
  (* the two readings of [_executor->now()] on the loopback path *)
  now_start : Z;
  now_end : Z;
  (* shardRegistry->getShard *)
  getShard : ShardId → StatusWith Shard;
  (* shard->getTargeter()->findHostWithMaxWait(readPref, Seconds(20)) *)
  findHostWithMaxWait : Shard → ReadPreferenceSetting → StatusWith HostAndPort;
  (* _executor->scheduleRemoteCommand *)
  executorScheduleRemoteCommand :
    HostAndPort → BSONObj → ReadPreferenceSetting → StatusWith CallbackHandle;
  getStatusFromCommandResult : BSONObj → Status;
  getWriteConcernStatusFromCommandResult : BSONObj → Status;
}.

(** How a piece of code run on the executor ends: a value, an exception,
    or an abort of the process ([invariant], [MONGO_UNREACHABLE]). *)
Inductive Result (A : Type) : Type :=
| Value (a : A)
| Error (s : Status)
| Abort.
#[global] Arguments Value {A} a.
#[global] Arguments Error {A} s.
#[global] Arguments Abort {A}.

(** The state of a returned future: resolved with a value, resolved with
    an error, or waiting for the callback of the remote command [h]. *)
Inductive Future (A : Type) : Type :=
| Ready (a : A)
| Failed (s : Status)
| Pending (h : CallbackHandle).
#[global] Arguments Ready {A} a.
#[global] Arguments Failed {A} s.
#[global] Arguments Pending {A} h.

Definition _quiesced (n : Scheduler) : bool :=
  bool_decide (_activeOpContexts n = []) &&
  bool_decide (_activeHandles n = []) &&
  match _childSchedulers n with [] => true | _ => false end.

Definition _notifyAllTasksComplete (n : Scheduler) : list Event :=
  if _quiesced n then [NotifyAllTasksComplete] else [].

(** [getLocalShardId]; [None] is [MONGO_UNREACHABLE]. *)
Definition getLocalShardId (env : Collaborators) : option ShardId :=
  match clusterRole env with
  | ConfigServer => Some (kConfigServerShardId env)
  | ShardServer => Some (shardingStateShardId env)
  | NoRole => None
  end.

(** [shutdown]; [None] is the failed [invariant(!status.isOK())]. The inner
    loop visits [_childSchedulers] in list order. *)
Fixpoint shutdown (status : Status) (n : Scheduler)
    : option (Scheduler * list Event) :=
  match n with
  | mkScheduler shutdownStatus activeOpContexts activeHandles childSchedulers =>
      if isOK status then None
      else if negb (isOK shutdownStatus) then Some (n, [])
      else
        let kills :=
          (λ it, KillOperation it (code status)) <$> activeOpContexts in
        let cancels := Cancel <$> activeHandles in
        let children :=
          (fix each (cs : list Scheduler) : option (list Scheduler * list Event) :=
             match cs with
             | [] => Some ([], [])
             | child :: rest =>
                 match shutdown status child with
                 | None => None
                 | Some (child', ev) =>
                     match each rest with
                     | None => None
                     | Some (rest', evs) => Some (child' :: rest', ev ++ evs)
                     end
                 end
             end) childSchedulers in
        match children with
        | None => None
        | Some (children', evs) =>
            Some (mkScheduler status activeOpContexts activeHandles children',
                  kills ++ cancels ++ evs)
        end
  end.

(** The loop of [shutdown] over [_childSchedulers], as a function of its
    own. *)
Fixpoint shutdown_each (status : Status) (cs : list Scheduler)
    : option (list Scheduler * list Event) :=
  match cs with
  | [] => Some ([], [])
  | child :: rest =>
      match shutdown status child with
      | None => None
      | Some (child', ev) =>
          match shutdown_each status rest with
          | None => None
          | Some (rest', evs) => Some (child' :: rest', ev ++ evs)
          end
      end
  end.

(** [makeChildScheduler]: the new child is the head of the parent's
    [_childSchedulers]. *)
Definition makeChildScheduler (n : Scheduler) : option Scheduler :=
  let child := new_scheduler in
  let child' :=
    if negb (isOK (_shutdownStatus n))
    then fst <$> shutdown (_shutdownStatus n) child
    else Some child in
  match child' with
  | None => None
  | Some c =>
      Some (mkScheduler (_shutdownStatus n) (_activeOpContexts n)
              (_activeHandles n) (c :: _childSchedulers n))
  end.

(** The destructor of the [i]-th child of [n], as it acts on [n]; [None] is
    the failed [invariant(_quiesced(lg))] (or no such child). *)
Definition destroy_child (i : nat) (n : Scheduler)
    : option (Scheduler * list Event) :=
  match _childSchedulers n !! i with
  | None => None
  | Some child =>
      if _quiesced child then
        let n' := mkScheduler (_shutdownStatus n) (_activeOpContexts n)
                    (_activeHandles n) (delete i (_childSchedulers n)) in
        Some (n', _notifyAllTasksComplete n')
      else None
  end.

(** [join] returns when the node is quiescent; [false] is a caller that
    keeps waiting on [_allListsEmptyCV]. *)
Definition join (n : Scheduler) : bool := _quiesced n.

(** [l.erase(it)]: the iterator [it] designates one occurrence. *)
Fixpoint erase {A} `{EqDecision A} (x : A) (l : list A) : list A :=
  match l with
  | [] => []
  | y :: l' => if decide (x = y) then l' else y :: erase x l'
  end.

(** Modelled from the spec: [scheduleWork] is a template member defined in
    transaction_coordinator_futures_util.h, which is not among the sources.
    It "runs callable asynchronously with a freshly created, node-tracked
    operation context; returns a future for its result". Whether the work
    gets to run is not stated there and is the input [workAdmission]; [task]
    is the run of the callable. The result is the outcome of the work once
    it has run; the tracking of its context on the node while it runs is
    [scheduleWork_begin] and [scheduleWork_end] below. *)
Definition scheduleWork {A} (env : Collaborators)
    (task : list Event * Result A) : list Event * Result A :=
  if isOK (workAdmission env) then task
  else ([], Error (workAdmission env)).

(** Modelled from the spec: the bookkeeping of [scheduleWork] when the
    callable starts, "the context is added to the node's active set before
    the callable starts". *)
Definition scheduleWork_begin (opCtx : OperationContext) (n : Scheduler)
    : Scheduler :=
  mkScheduler (_shutdownStatus n) (opCtx :: _activeOpContexts n)
    (_activeHandles n) (_childSchedulers n).

(** Modelled from the spec: the bookkeeping of [scheduleWork] when the
    callable ends, "removed when it finishes for any reason (success, error,
    cancellation); removal always re-evaluates quiescence". *)
Definition scheduleWork_end (opCtx : OperationContext) (n : Scheduler)
    : Scheduler * list Event :=
  let n' := mkScheduler (_shutdownStatus n) (erase opCtx (_activeOpContexts n))
              (_activeHandles n) (_childSchedulers n) in
  (n', _notifyAllTasksComplete n').

(** The callable of the loopback branch of [scheduleRemoteCommand]. *)
Definition localCommandTask (env : Collaborators) (commandObj : BSONObj)
    : list Event * Result ResponseStatus :=
  if negb (isOK (operationContextFn env)) then
    ([OperationContextFn], Error (operationContextFn env))
  else if negb (isOK (hangWhileTargetingLocalHost env)) then
    ([OperationContextFn; GrantInternalAuthorization],
     Error (hangWhileTargetingLocalHost env))
  else
    let start := now_start env in
    let ev := [OperationContextFn; GrantInternalAuthorization;
               HandleRequest commandObj] in
    match handleRequest env commandObj with
    | SWError s => (ev, Error s)
    | SWValue replyOpMsg =>
        match sequences replyOpMsg with
        | [] => (ev, Value (mkResponse (body replyOpMsg) (now_end env - start)
                              Status_OK))
        | _ :: _ => (ev, Abort)
        end
    end.

Definition _targetHostAsync (env : Collaborators) (shardId : ShardId)
    (readPref : ReadPreferenceSetting) : list Event * Result HostAndShard :=
  scheduleWork env
    (if negb (isOK (operationContextFn env)) then
       ([OperationContextFn], Error (operationContextFn env))
     else
       match getShard env shardId with
       | SWError s => ([OperationContextFn; GetShard shardId], Error s)
       | SWValue shard =>
           if negb (isOK (hangWhileTargetingRemoteHost env)) then
             ([OperationContextFn; GetShard shardId],
              Error (hangWhileTargetingRemoteHost env))
           else
             let ev := [OperationContextFn; GetShard shardId;
                        FindHostWithMaxWait shardId readPref] in
             match findHostWithMaxWait env shard readPref with
             | SWError s => (ev, Error s)
             | SWValue host => (ev, Value (mkHostAndShard host shard))
             end
       end).

(** The continuation [.then(...)] attached to the targeting future; it runs
    under the node's mutex, on the node [n] as it is at that time. *)
Definition scheduleRemoteCommand_then (env : Collaborators)
    (commandObj : BSONObj) (readPref : ReadPreferenceSetting)
    (hostAndShard : HostAndShard) (n : Scheduler)
    : list Event * Scheduler * Future ResponseStatus :=
  if negb (isOK (_shutdownStatus n)) then ([], n, Failed (_shutdownStatus n))
  else
    let host := hostTargeted hostAndShard in
    let ev := [ExecutorScheduleRemoteCommand host commandObj readPref] in
    match executorScheduleRemoteCommand env host commandObj readPref with
    | SWError s => (ev, n, Failed s)
    | SWValue scheduledCommandHandle =>
        (ev,
         mkScheduler (_shutdownStatus n) (_activeOpContexts n)
           (scheduledCommandHandle :: _activeHandles n) (_childSchedulers n),
         Pending scheduledCommandHandle)
    end.

(** The callback handed to the executor, run with [args.response] on the
    node [n] as it is at that time; the result is what the promise is
    resolved with. *)
Definition remoteCommandCallback (env : Collaborators)
    (hostTargeted : HostAndPort) (response : ResponseStatus) (n : Scheduler)
    : list Event * Result ResponseStatus :=
  let status := status response in
  if isOK status then
    ([UpdateReplSetMonitor hostTargeted status;
      UpdateReplSetMonitor hostTargeted
        (getStatusFromCommandResult env (data response));
      UpdateReplSetMonitor hostTargeted
        (getWriteConcernStatusFromCommandResult env (data response))],
     Value response)
  else
    ([UpdateReplSetMonitor hostTargeted status],
     Error (if status_is status ErrorCodes.CallbackCanceled
            then (if isOK (_shutdownStatus n) then status
                  else _shutdownStatus n)
            else status)).

(** The [tapAll] continuation run when the future of handle [it] resolves. *)
Definition tapAll (it : CallbackHandle) (n : Scheduler)
    : Scheduler * list Event :=
  let n' := mkScheduler (_shutdownStatus n) (_activeOpContexts n)
              (erase it (_activeHandles n)) (_childSchedulers n) in
  (n', _notifyAllTasksComplete n').

(** [scheduleRemoteCommand], run without another thread acting on the node
    in between; [None] in the second component is an abort of the process. *)
Definition scheduleRemoteCommand (env : Collaborators) (shardId : ShardId)
    (readPref : ReadPreferenceSetting) (commandObj : BSONObj) (n : Scheduler)
    : list Event * option (Scheduler * Future ResponseStatus) :=
  match getLocalShardId env with
  | None => ([], None)
  | Some localShardId =>
      let isSelfShard := bool_decide (shardId = localShardId) in
      if isSelfShard then
        match scheduleWork env (localCommandTask env commandObj) with
        | (ev, Value r) => (ev, Some (n, Ready r))
        | (ev, Error s) => (ev, Some (n, Failed s))
        | (ev, Abort) => (ev, None)
        end
      else
        match _targetHostAsync env shardId readPref with
        | (ev, Value hostAndShard) =>
            let '(ev', n', f) :=
              scheduleRemoteCommand_then env commandObj readPref
                hostAndShard n in
            (ev ++ ev', Some (n', f))
        | (ev, Error s) => (ev, Some (n, Failed s))
        | (ev, Abort) => (ev, None)
        end
  end.

(** What other threads may do to a node between two steps of a call. *)
Inductive NodeOp : Type :=
| OpShutdown (s : Status)
| OpMakeChild
| OpDestroyChild (i : nat)
| OpWorkBegin (opCtx : OperationContext)
| OpWorkEnd (opCtx : OperationContext)
| OpCommand (env : Collaborators) (commandObj : BSONObj)
    (readPref : ReadPreferenceSetting) (hostAndShard : HostAndShard)
| OpTapAll (it : CallbackHandle).

(** [None] when the operation aborts the process. *)
Definition node_step (op : NodeOp) (n : Scheduler) : option Scheduler :=
  match op with
  | OpShutdown s => fst <$> shutdown s n
  | OpMakeChild => makeChildScheduler n
  | OpDestroyChild i => fst <$> destroy_child i n
  | OpWorkBegin opCtx => Some (scheduleWork_begin opCtx n)
  | OpWorkEnd opCtx => Some (scheduleWork_end opCtx n).1
  | OpCommand env commandObj readPref hostAndShard =>
      Some (scheduleRemoteCommand_then env commandObj readPref
              hostAndShard n).1.2
  | OpTapAll it => Some (tapAll it n).1
  end.

Fixpoint node_run (ops : list NodeOp) (n : Scheduler) : option Scheduler :=
  match ops with
  | [] => Some n
  | op :: ops' =>
      match node_step op n with
      | None => None
      | Some n' => node_run ops' n'
      end
  end.
End scheduler.
End AsyncWorkScheduler.

(** ** The scheduler tree as a whole *)

Module SchedulerTree.
Import AsyncWorkScheduler.

(** The nodes of a subtree, the root first. *)
Fixpoint all_nodes (n : Scheduler) : list Scheduler :=
  match n with
  | mkScheduler _ _ _ childSchedulers =>
      n :: flat_map all_nodes childSchedulers
  end.

(** The bookkeeping of a subtree: the tree with every shutdown status
    blanked. *)
Fixpoint bookkeeping (n : Scheduler) : Scheduler :=
  match n with
  | mkScheduler _ activeOpContexts activeHandles childSchedulers =>
      mkScheduler Status_OK activeOpContexts activeHandles
        (map bookkeeping childSchedulers)
  end.

Definition is_shut_down (n : Scheduler) : bool := negb (isOK (_shutdownStatus n)).

(** No live node is registered under a node that is shut down. *)
Fixpoint shutdown_closed (n : Scheduler) : bool :=
  match n with
  | mkScheduler shutdownStatus _ _ childSchedulers =>
      (isOK shutdownStatus || forallb is_shut_down childSchedulers)
      && forallb shutdown_closed childSchedulers
  end.

Section tree.
Context {BSONObj ReadPreferenceSetting Shard : Type}.

(** An operation applied to the node reached from [n] by following the
    child positions of [path]; [None] when the process is aborted or there
    is no such node. *)
Fixpoint node_step_at (path : list nat)
    (op : @NodeOp BSONObj ReadPreferenceSetting Shard) (n : Scheduler)
    : option Scheduler :=
  match path with
  | [] => node_step op n
  | i :: path' =>
      match _childSchedulers n !! i with
      | None => None
      | Some child =>
          match node_step_at path' op child with
          | None => None
          | Some child' =>
              Some (mkScheduler (_shutdownStatus n) (_activeOpContexts n)
                      (_activeHandles n)
                      (<[i := child']> (_childSchedulers n)))
          end
      end
  end.

Fixpoint tree_run
    (ops : list (list nat * @NodeOp BSONObj ReadPreferenceSetting Shard))
    (n : Scheduler) : option Scheduler :=
  match ops with
  | [] => Some n
  | (path, op) :: ops' =>
      match node_step_at path op n with
      | None => None
      | Some n' => tree_run ops' n'
      end
  end.
End tree.
End SchedulerTree.

(** ** The task executor (thread_pool_task_executor.cpp)

    The scheduler hands its remote commands to a task executor and cancels
    them through it. Each member function, and each callback the executor
    hands to the thread pool or to the network interface, is one step on the
    executor's state; the calls made on the pool, on the network interface
    and on user callbacks are recorded in program order. The fail points of
    the file are off. *)

Module ThreadPoolTaskExecutor.

Inductive State : Type :=
| preStart
| running
| joinRequired
| joining
| shutdownComplete.

#[global] Instance State_eq_dec : EqDecision State.
Proof. solve_decision. Defined.

(** The order of the enumerators, which [_inShutdown_inlock] compares. *)
Definition state_rank (s : State) : nat :=
  match s with
  | preStart => 0
  | running => 1
  | joinRequired => 2
  | joining => 3
  | shutdownComplete => 4
  end.

(** Callback and event states are shared objects; a handle holds one. They
    are identified by a number, and a valid handle is [Some] of it. *)
Abbreviation CallbackId := nat.
Abbreviation EventId := nat.

(** [Date_t] in milliseconds; [Date_t{}] is 0. *)
Abbreviation Date_t := Z.

(** The statuses the file builds. The numbers of [ShutdownInProgress] and
    [BadValue] are those of error_codes, which is not among the sources;
    nothing below depends on them. *)
Definition ShutdownInProgress : Status :=
  mkStatus (ErrorCodes.OtherError 91) "Shutdown in progress".
Definition BadValue : Status :=
  mkStatus (ErrorCodes.OtherError 2) "Passed invalid event handle to onEvent".
Definition CallbackCanceled : Status :=
  mkStatus ErrorCodes.CallbackCanceled "Callback canceled".

Section executor.
(** [Work] is a user's [CallbackFn], [RemoteCallback] a user's
    [RemoteCommandOnAnyCallbackFn], [Command] what a request carries besides
    its timing, [Response] a response produced by the network interface. *)
Context {Work RemoteCallback Command Response : Type}.
(** [RemoteCommandRequest::kNoTimeout] and [kNoExpirationDate]. *)
Context (kNoTimeout : Z) (kNoExpirationDate : Date_t).
(** [ErrorCodes::isCancelationError] *)
Context (isCancelationError : ErrorCodes.Error → bool).

Record RemoteCommandRequestOnAny : Type := mkRequest {
  command : Command;
  timeout : Z;
  expirationDate : Date_t;
}.

(** A response as the user's callback receives it: one the network
    interface produced, or [{boost::none, status}]. *)
Inductive ResponseOnAnyStatus : Type :=
| NetworkResponse (r : Response)
| StatusResponse (s : Status).

(** The function objects a callback state can hold. *)
Inductive CallbackFn : Type :=
| EmptyFn
| WorkFn (work : Work)
| RemoteCommandFailedEarlyFn (cb : RemoteCallback)
    (scheduledRequest : RemoteCommandRequestOnAny)
| RemoteCommandFinishedFn (cb : RemoteCallback)
    (scheduledRequest : RemoteCommandRequestOnAny) (response : Response).

Record CallbackState : Type := mkCallbackState {
  callback : CallbackFn;
  canceled : bool;
  readyDate : Date_t;
  isNetworkOperation : bool;
  isTimerOperation : bool;
  isFinished : bool;
  finishedCondition : bool;
  baton : bool;
}.

Record EventState : Type := mkEventState {
  isSignaledFlag : bool;
  waiters : list CallbackId;
}.

Record Executor : Type := mkExecutor {
  _state : State;
  _poolInProgressQueue : list CallbackId;
  _networkInProgressQueue : list CallbackId;
  _sleepersQueue : list CallbackId;
  _unsignaledEvents : list EventId;
  callbackStates : gmap CallbackId CallbackState;
  eventStates : gmap EventId EventState;
}.

(** The executor a constructor leaves. *)
Definition new_executor : Executor := mkExecutor preStart [] [] [] [] ∅ ∅.

Inductive Effect : Type :=
| NetStartup
| NetShutdown
| NetNow
| NetSignalWorkAvailable
| NetSetAlarm (cb : CallbackId) (when : Date_t)
| NetCancelAlarm (cb : CallbackId)
| NetStartCommand (cb : CallbackId) (scheduledRequest : RemoteCommandRequestOnAny)
| NetCancelCommand (cb : CallbackId)
| PoolStartup
| PoolShutdown
| PoolJoin
| PoolSchedule (cb : CallbackId)
| PoolScheduleCanceled (cb : CallbackId)
| BatonSchedule (cb : CallbackId)
| NotifyStateChange
| NotifyEventSignaled (event : EventId)
| NotifyFinished (cb : CallbackId)
| InvokeWork (work : Work) (cb : CallbackId) (status : Status)
| InvokeRemoteCallback (cb : RemoteCallback) (handle : CallbackId)
    (request : RemoteCommandRequestOnAny) (response : ResponseOnAnyStatus).

(** How a step ends, having made the calls [effects]: it returns [a] and
    leaves the executor [e]; it waits on a condition variable, the executor
    being [e]; or an [invariant] or [fassert] aborts the process. *)
Inductive Res (A : Type) : Type :=
| Done (a : A) (effects : list Effect) (e : Executor)
| Waiting (effects : list Effect) (e : Executor)
| Aborted (effects : list Effect).
#[global] Arguments Done {A} a effects e.
#[global] Arguments Waiting {A} effects e.
#[global] Arguments Aborted {A} effects.

(** A step that follows the calls [effects]. *)
Definition after {A} (effects : list Effect) (r : Res A) : Res A :=
  match r with
  | Done a ev e => Done a (effects ++ ev) e
  | Waiting ev e => Waiting (effects ++ ev) e
  | Aborted ev => Aborted (effects ++ ev)
  end.

Definition set_state (s : State) (e : Executor) : Executor :=
  mkExecutor s (_poolInProgressQueue e) (_networkInProgressQueue e)
    (_sleepersQueue e) (_unsignaledEvents e) (callbackStates e) (eventStates e).
Definition set_pool (q : list CallbackId) (e : Executor) : Executor :=
  mkExecutor (_state e) q (_networkInProgressQueue e)
    (_sleepersQueue e) (_unsignaledEvents e) (callbackStates e) (eventStates e).
Definition set_network (q : list CallbackId) (e : Executor) : Executor :=
  mkExecutor (_state e) (_poolInProgressQueue e) q
    (_sleepersQueue e) (_unsignaledEvents e) (callbackStates e) (eventStates e).
Definition set_sleepers (q : list CallbackId) (e : Executor) : Executor :=
  mkExecutor (_state e) (_poolInProgressQueue e) (_networkInProgressQueue e)
    q (_unsignaledEvents e) (callbackStates e) (eventStates e).
Definition set_unsignaled (q : list EventId) (e : Executor) : Executor :=
  mkExecutor (_state e) (_poolInProgressQueue e) (_networkInProgressQueue e)
    (_sleepersQueue e) q (callbackStates e) (eventStates e).
Definition set_callbacks (m : gmap CallbackId CallbackState) (e : Executor)
    : Executor :=
  mkExecutor (_state e) (_poolInProgressQueue e) (_networkInProgressQueue e)
    (_sleepersQueue e) (_unsignaledEvents e) m (eventStates e).
Definition set_events (m : gmap EventId EventState) (e : Executor)
    : Executor :=
  mkExecutor (_state e) (_poolInProgressQueue e) (_networkInProgressQueue e)
    (_sleepersQueue e) (_unsignaledEvents e) (callbackStates e) m.

(** [cbState->canceled.store(1)] *)
Definition cancel_state (c : CallbackState) : CallbackState :=
  mkCallbackState (callback c) true (readyDate c) (isNetworkOperation c)
    (isTimerOperation c) (isFinished c) (finishedCondition c) (baton c).
Definition store_canceled (cb : CallbackId) (e : Executor) : Executor :=
  set_callbacks (alter cancel_state cb (callbackStates e)) e.

(** [q.erase(it)]: the iterator designates one occurrence. *)
Fixpoint erase_id (x : nat) (l : list nat) : list nat :=
  match l with
  | [] => []
  | y :: l' => if decide (x = y) then l' else y :: erase_id x l'
  end.

Definition _inShutdown_inlock (e : Executor) : bool :=
  bool_decide (state_rank joinRequired ≤ state_rank (_state e)).

Definition _setState_inlock (newState : State) (e : Executor)
    : Executor * list Effect :=
  if decide (newState = _state e) then (e, [])
  else (set_state newState e, [NotifyStateChange]).

(** [scheduleIntoPool_inlock] for the callbacks [todo], which the caller has
    taken out of their queue: they join the end of [_poolInProgressQueue]
    and each is handed to its baton or to the pool. *)
Definition scheduleIntoPool_inlock (todo : list CallbackId) (e : Executor)
    : Executor * list Effect :=
  (set_pool (_poolInProgressQueue e ++ todo) e,
   ((λ cbState,
       match callbackStates e !! cbState with
       | Some c => if baton c then BatonSchedule cbState
                   else PoolSchedule cbState
       | None => PoolSchedule cbState
       end) <$> todo) ++ [NetSignalWorkAvailable]).

(** [makeSingletonWorkQueue]: the state of a new callback. *)
Definition new_callback (work : CallbackFn) (hasBaton : bool) (when : Date_t)
    : CallbackState :=
  mkCallbackState work false when false false false false hasBaton.

(** The identity of the next object [std::make_shared] creates. *)
Definition next_callback (e : Executor) : CallbackId :=
  fresh (dom (callbackStates e)).
Definition next_event (e : Executor) : EventId :=
  fresh (dom (eventStates e)).

(** [enqueueCallbackState_inlock] for the new callback [cbState]: what
    [queue] becomes, or the refusal in shutdown. *)
Definition enqueueCallbackState_inlock (queue : list CallbackId)
    (cbState : CallbackId) (e : Executor)
    : AsyncWorkScheduler.StatusWith (list CallbackId) :=
  if _inShutdown_inlock e then AsyncWorkScheduler.SWError ShutdownInProgress
  else AsyncWorkScheduler.SWValue (queue ++ [cbState]).

Definition startup (e : Executor) : Res unit :=
  if decide (_state e = preStart) then
    let '(e', ev) := _setState_inlock running e in
    Done () ([NetStartup] ++ ev ++ [PoolStartup]) e'
  else Aborted [NetStartup].

(** A callback state after [runCallback]: the function object is moved out
    and [isFinished] is set. *)
Definition finished_state (c : CallbackState) : CallbackState :=
  mkCallbackState EmptyFn (canceled c) (readyDate c) (isNetworkOperation c)
    (isTimerOperation c) true (finishedCondition c) (baton c).

(** [runCallback]; no call is made before any of its failures. *)
Definition runCallback (cbStateArg : CallbackId) (e : Executor) : Res unit :=
  match callbackStates e !! cbStateArg with
  | None => Aborted []
  | Some c =>
      let status := if canceled c then CallbackCanceled else Status_OK in
      if isFinished c then Aborted []
      else
        let invoked :=
          match callback c with
          | EmptyFn => None
          | WorkFn work => Some [InvokeWork work cbStateArg status]
          | RemoteCommandFailedEarlyFn cb scheduledRequest =>
              if isOK status then None
              else Some [InvokeRemoteCallback cb cbStateArg scheduledRequest
                           (StatusResponse status)]
          | RemoteCommandFinishedFn cb scheduledRequest response =>
              Some [InvokeRemoteCallback cb cbStateArg scheduledRequest
                      (NetworkResponse response)]
          end in
        match invoked with
        | None => Aborted []
        | Some ev =>
            let e' :=
              set_pool (erase_id cbStateArg (_poolInProgressQueue e))
                (set_callbacks
                   (<[cbStateArg := finished_state c]> (callbackStates e))
                   e) in
            Done ()
              (ev
               ++ (if finishedCondition c then [NotifyFinished cbStateArg]
                   else [])
               ++ (if _inShutdown_inlock e' &&
                      bool_decide (_poolInProgressQueue e' = [])
                   then [NotifyStateChange] else []))
              e'
        end
  end.

(** The task [scheduleIntoPool_inlock] gives the pool for a callback
    without baton, run by the pool with [status]. *)
Definition poolTask (cbState : CallbackId) (status : Status) (e : Executor)
    : Res unit :=
  if isCancelationError (code status) then
    runCallback cbState (store_canceled cbState e)
  else if isOK status then runCallback cbState e
  else Aborted [].

(** The task given to the baton of a callback, run with [status]. *)
Definition batonTask (cbState : CallbackId) (status : Status) (e : Executor)
    : Res unit :=
  if isOK status then runCallback cbState e
  else Done () [PoolScheduleCanceled cbState] (store_canceled cbState e).

(** The task the baton's task gives the pool after a failure. *)
Definition batonPoolTask (cbState : CallbackId) (status : Status)
    (e : Executor) : Res unit :=
  if isOK status || isCancelationError (code status)
  then runCallback cbState e
  else Aborted [].

Definition shutdown (e : Executor) : Res unit :=
  if _inShutdown_inlock e then
    match _networkInProgressQueue e, _sleepersQueue e with
    | [], [] => Done () [] e
    | _, _ => Aborted []
    end
  else
    let '(e1, ev1) := _setState_inlock joinRequired e in
    let eventWaiters :=
      mbind (λ eventState,
               match eventStates e1 !! eventState with
               | Some s => waiters s
               | None => []
               end) (_unsignaledEvents e1) in
    let pending :=
      _networkInProgressQueue e1 ++ _sleepersQueue e1 ++ eventWaiters in
    let events' :=
      foldr (λ eventState m, alter (λ s, mkEventState (isSignaledFlag s) [])
                               eventState m)
        (eventStates e1) (_unsignaledEvents e1) in
    let e2 := set_events events' (set_sleepers [] (set_network [] e1)) in
    let e3 := foldr store_canceled e2 pending in
    let e4 := foldr store_canceled e3 (_poolInProgressQueue e3) in
    let '(e5, ev5) := scheduleIntoPool_inlock pending e4 in
    Done () (ev1 ++ ev5) e5.

(** [signalEvent_inlock] on a valid handle. *)
Definition signalEvent_inlock (event : EventId) (e : Executor) : Res unit :=
  match eventStates e !! event with
  | None => Aborted []
  | Some s =>
      if isSignaledFlag s then Aborted []
      else
        let e1 :=
          set_unsignaled (erase_id event (_unsignaledEvents e))
            (set_events (<[event := mkEventState true []]> (eventStates e))
               e) in
        let '(e2, ev) := scheduleIntoPool_inlock (waiters s) e1 in
        Done () (NotifyEventSignaled event :: ev) e2
  end.

(** [_join]; the executor is not acted upon by other threads while the
    mutex is released inside it. *)
Definition _join (e : Executor) : Res unit :=
  if bool_decide (_poolInProgressQueue e = []) &&
     (bool_decide (_state e = joinRequired) ||
      bool_decide (_state e = shutdownComplete))
  then
    if decide (_state e = shutdownComplete) then Done () [] e
    else
      let '(e1, ev1) := _setState_inlock joining e in
      let signalAll :=
        foldl (λ acc eventState,
                 match acc with
                 | Done _ ev e' =>
                     match eventStates e' !! eventState with
                     | Some s =>
                         match waiters s with
                         | [] => after ev (signalEvent_inlock eventState e')
                         | _ :: _ => Aborted ev
                         end
                     | None => Aborted ev
                     end
                 | r => r
                 end)
          (Done () (ev1 ++ [PoolShutdown; PoolJoin]) e1)
          (_unsignaledEvents e1) in
      match signalAll with
      | Done _ ev e2 =>
          match _poolInProgressQueue e2, _networkInProgressQueue e2,
                _sleepersQueue e2, _unsignaledEvents e2 with
          | [], [], [], [] =>
              let '(e3, ev3) := _setState_inlock shutdownComplete e2 in
              Done () (ev ++ [NetShutdown] ++ ev3) e3
          | _, _, _, _ => Aborted (ev ++ [NetShutdown])
          end
      | r => r
      end
  else Waiting [] e.

Definition join (e : Executor) : Res unit := _join e.

(** [~ThreadPoolTaskExecutor] *)
Definition destructor (e : Executor) : Res unit :=
  match shutdown e with
  | Done _ ev e1 =>
      match _join e1 with
      | Done _ ev' e2 =>
          if decide (_state e2 = shutdownComplete)
          then Done () (ev ++ ev') e2 else Aborted (ev ++ ev')
      | r => after ev r
      end
  | r => r
  end.

Definition makeEvent (e : Executor)
    : Res (AsyncWorkScheduler.StatusWith EventId) :=
  if _inShutdown_inlock e then
    Done (AsyncWorkScheduler.SWError ShutdownInProgress) [] e
  else
    let event := next_event e in
    Done (AsyncWorkScheduler.SWValue event) []
      (set_unsignaled (_unsignaledEvents e ++ [event])
         (set_events (<[event := mkEventState false []]> (eventStates e)) e)).

Definition signalEvent (event : option EventId) (e : Executor) : Res unit :=
  match event with
  | None => Aborted []
  | Some ev => signalEvent_inlock ev e
  end.

Definition onEvent (event : option EventId) (work : Work) (e : Executor)
    : Res (AsyncWorkScheduler.StatusWith CallbackId) :=
  match event with
  | None => Done (AsyncWorkScheduler.SWError BadValue) [] e
  | Some ev =>
      match eventStates e !! ev with
      | None => Aborted []
      | Some s =>
          let cb := next_callback e in
          match enqueueCallbackState_inlock (waiters s) cb e with
          | AsyncWorkScheduler.SWError status =>
              Done (AsyncWorkScheduler.SWError status) [] e
          | AsyncWorkScheduler.SWValue waiters' =>
              let e1 :=
                set_callbacks
                  (<[cb := new_callback (WorkFn work) false 0]>
                     (callbackStates e)) e in
              if isSignaledFlag s then
                let '(e2, effects) :=
                  scheduleIntoPool_inlock waiters'
                    (set_events
                       (<[ev := mkEventState true []]> (eventStates e1)) e1) in
                Done (AsyncWorkScheduler.SWValue cb) effects e2
              else
                Done (AsyncWorkScheduler.SWValue cb) []
                  (set_events
                     (<[ev := mkEventState false waiters']> (eventStates e1))
                     e1)
          end
      end
  end.

Definition scheduleWork (work : Work) (e : Executor)
    : Res (AsyncWorkScheduler.StatusWith CallbackId) :=
  let cb := next_callback e in
  match enqueueCallbackState_inlock [] cb e with
  | AsyncWorkScheduler.SWError status =>
      Done (AsyncWorkScheduler.SWError status) [] e
  | AsyncWorkScheduler.SWValue temp =>
      let e1 :=
        set_callbacks
          (<[cb := new_callback (WorkFn work) false 0]> (callbackStates e))
          e in
      let '(e2, effects) := scheduleIntoPool_inlock temp e1 in
      Done (AsyncWorkScheduler.SWValue cb) effects e2
  end.

(** [cancel] *)
Definition cancel (cbHandle : option CallbackId) (e : Executor) : Res unit :=
  match cbHandle with
  | None => Aborted []
  | Some cbState =>
      match callbackStates e !! cbState with
      | None => Aborted []
      | Some c =>
          if _inShutdown_inlock e then Done () [] e
          else
            let e1 := store_canceled cbState e in
            if isNetworkOperation c then
              Done () [NetCancelCommand cbState] e1
            else
              let ev1 :=
                if isTimerOperation c then [NetCancelAlarm cbState] else [] in
              if decide (readyDate c ≠ 0%Z) then
                if decide (cbState ∈ _sleepersQueue e1) then
                  let '(e2, ev2) :=
                    scheduleIntoPool_inlock [cbState]
                      (set_sleepers (erase_id cbState (_sleepersQueue e1))
                         e1) in
                  Done () (ev1 ++ ev2) e2
                else Done () ev1 e1
              else Done () ev1 e1
      end
  end.

(** [scheduleWorkAt]; it first reads [now()], which is [_net->now()]: [now]
    is that reading, and [alarmStatus] what [_net->setAlarm] returns. *)
Definition scheduleWorkAt (when : Date_t) (work : Work) (now : Date_t)
    (alarmStatus : Status) (e : Executor)
    : Res (AsyncWorkScheduler.StatusWith CallbackId) :=
  if bool_decide (when ≤ now)%Z then after [NetNow] (scheduleWork work e)
  else
    let cb := next_callback e in
    match enqueueCallbackState_inlock (_sleepersQueue e) cb e with
    | AsyncWorkScheduler.SWError status =>
        Done (AsyncWorkScheduler.SWError status) [NetNow] e
    | AsyncWorkScheduler.SWValue sleepers' =>
        let c := mkCallbackState (WorkFn work) false when false true false
                   false false in
        let e1 :=
          set_sleepers sleepers'
            (set_callbacks (<[cb := c]> (callbackStates e)) e) in
        if isOK alarmStatus then
          Done (AsyncWorkScheduler.SWValue cb)
            [NetNow; NetSetAlarm cb when] e1
        else
          match cancel (Some cb) e1 with
          | Done _ ev e2 =>
              Done (AsyncWorkScheduler.SWError alarmStatus)
                ([NetNow; NetSetAlarm cb when] ++ ev) e2
          | Waiting ev e2 => Waiting ([NetNow; NetSetAlarm cb when] ++ ev) e2
          | Aborted ev => Aborted ([NetNow; NetSetAlarm cb when] ++ ev)
          end
    end.

(** The callback [scheduleWorkAt] gives [setAlarm], run with [status]. *)
Definition alarmTask (cbState : CallbackId) (status : Status) (e : Executor)
    : Res unit :=
  if status_is status ErrorCodes.CallbackCanceled then Done () [] e
  else
    match callbackStates e !! cbState with
    | None => Aborted []
    | Some c =>
        if canceled c then Done () [] e
        else
          let '(e1, ev) :=
            scheduleIntoPool_inlock [cbState]
              (set_sleepers (erase_id cbState (_sleepersQueue e)) e) in
          Done () ev e1
    end.

(** [scheduleRemoteCommandOnAny]; for a request with a timeout it first
    reads [_net->now()]: [now] is that reading, and [commandStatus] what
    [_net->startCommand] returns. *)
Definition scheduleRemoteCommandOnAny (request : RemoteCommandRequestOnAny)
    (cb : RemoteCallback) (hasBaton : bool) (now : Date_t)
    (commandStatus : Status) (e : Executor)
    : Res (AsyncWorkScheduler.StatusWith CallbackId) :=
  let scheduledRequest :=
    mkRequest (command request) (timeout request)
      (if decide (timeout request = kNoTimeout) then kNoExpirationDate
       else (now + timeout request)%Z) in
  let clock :=
    if decide (timeout request = kNoTimeout) then [] else [NetNow] in
  let cbState := next_callback e in
  match enqueueCallbackState_inlock (_networkInProgressQueue e) cbState e with
  | AsyncWorkScheduler.SWError status =>
      Done (AsyncWorkScheduler.SWError status) clock e
  | AsyncWorkScheduler.SWValue network' =>
      let c := mkCallbackState
                 (RemoteCommandFailedEarlyFn cb scheduledRequest)
                 false 0 true false false false hasBaton in
      let e1 :=
        set_network network'
          (set_callbacks (<[cbState := c]> (callbackStates e)) e) in
      if isOK commandStatus then
        Done (AsyncWorkScheduler.SWValue cbState)
          (clock ++ [NetStartCommand cbState scheduledRequest]) e1
      else
        Done (AsyncWorkScheduler.SWError commandStatus)
          (clock ++ [NetStartCommand cbState scheduledRequest]) e1
  end.

(** The callback [scheduleRemoteCommandOnAny] gives [startCommand], run with
    the response; [cb] and [scheduledRequest] are what it captured. *)
Definition commandFinishedTask (cbState : CallbackId) (cb : RemoteCallback)
    (scheduledRequest : RemoteCommandRequestOnAny) (response : Response)
    (e : Executor) : Res unit :=
  if _inShutdown_inlock e then Done () [] e
  else
    let e1 :=
      set_callbacks
        (alter (λ c, mkCallbackState
                       (RemoteCommandFinishedFn cb scheduledRequest response)
                       (canceled c) (readyDate c) (isNetworkOperation c)
                       (isTimerOperation c) (isFinished c)
                       (finishedCondition c) (baton c))
           cbState (callbackStates e)) e in
    let '(e2, ev) :=
      scheduleIntoPool_inlock [cbState]
        (set_network (erase_id cbState (_networkInProgressQueue e1)) e1) in
    Done () ev e2.

(** The steps that can be taken on an executor: calls of its clients, and
    runs of the tasks it handed out. *)
Inductive Step : Type :=
| StepStartup
| StepShutdown
| StepJoin
| StepMakeEvent
| StepSignalEvent (event : option EventId)
| StepOnEvent (event : option EventId) (work : Work)
| StepScheduleWork (work : Work)
| StepScheduleWorkAt (when : Date_t) (work : Work) (now : Date_t)
    (alarmStatus : Status)
| StepScheduleRemoteCommand (request : RemoteCommandRequestOnAny)
    (cb : RemoteCallback) (hasBaton : bool) (now : Date_t)
    (commandStatus : Status)
| StepCancel (cbHandle : option CallbackId)
| StepAlarm (cbState : CallbackId) (status : Status)
| StepCommandFinished (cbState : CallbackId) (cb : RemoteCallback)
    (scheduledRequest : RemoteCommandRequestOnAny) (response : Response)
| StepPool (cbState : CallbackId) (status : Status)
| StepBaton (cbState : CallbackId) (status : Status)
| StepBatonPool (cbState : CallbackId) (status : Status).

(** The executor a step leaves; [None] when the process is aborted. *)
Definition executor_after {A} (r : Res A) : option Executor :=
  match r with
  | Done _ _ e' => Some e'
  | Waiting _ e' => Some e'
  | Aborted _ => None
  end.

Definition step (s : Step) (e : Executor) : option Executor :=
  match s with
  | StepStartup => executor_after (startup e)
  | StepShutdown => executor_after (shutdown e)
  | StepJoin => executor_after (join e)
  | StepMakeEvent => executor_after (makeEvent e)
  | StepSignalEvent event => executor_after (signalEvent event e)
  | StepOnEvent event work => executor_after (onEvent event work e)
  | StepScheduleWork work => executor_after (scheduleWork work e)
  | StepScheduleWorkAt when work now alarmStatus =>
      executor_after (scheduleWorkAt when work now alarmStatus e)
  | StepScheduleRemoteCommand request cb hasBaton now commandStatus =>
      executor_after
        (scheduleRemoteCommandOnAny request cb hasBaton now commandStatus e)
  | StepCancel cbHandle => executor_after (cancel cbHandle e)
  | StepAlarm cbState status => executor_after (alarmTask cbState status e)
  | StepCommandFinished cbState cb scheduledRequest response =>
      executor_after
        (commandFinishedTask cbState cb scheduledRequest response e)
  | StepPool cbState status => executor_after (poolTask cbState status e)
  | StepBaton cbState status => executor_after (batonTask cbState status e)
  | StepBatonPool cbState status =>
      executor_after (batonPoolTask cbState status e)
  end.

Fixpoint run (steps : list Step) (e : Executor) : option Executor :=
  match steps with
  | [] => Some e
  | s :: steps' =>
      match step s e with
      | None => None
      | Some e' => run steps' e'
      end
  end.

(** What [shutdown] and [_join] assert, as a property of the state: the
    unsignaled events are distinct, recorded and not signaled; and in
    shutdown nothing is left in the network queue, in the sleepers queue or
    waiting on an unsignaled event. *)
Definition executor_wf (e : Executor) : Prop :=
  NoDup (_unsignaledEvents e) ∧
  (∀ event, event ∈ _unsignaledEvents e →
     ∃ s, eventStates e !! event = Some s ∧ isSignaledFlag s = false ∧
          (_inShutdown_inlock e = true → waiters s = [])) ∧
  (_inShutdown_inlock e = true →
     _networkInProgressQueue e = [] ∧ _sleepersQueue e = []).

End executor.
End ThreadPoolTaskExecutor.

(** ** Concrete catalogs for the examples

    Sessions are numbered and coordinators named. *)

Module Examples.
Import TransactionCoordinatorCatalog.

Definition stepping_down : Status :=
  mkStatus (ErrorCodes.OtherError 189) "stepping down".

(** Session 7 holds transactions 1 and 2; step-up has completed. *)
Definition two_txns : @State nat _ _ string :=
  mkState (Some Status_OK) {[ 7%nat := {[ 1%Z := "c1"; 2%Z := "c2" ]} ]}.

(** Session 7 holds transaction 1, registered for step-up; step-up failed. *)
Definition failed_step_up : @State nat _ _ string :=
  mkState (Some stepping_down) {[ 7%nat := {[ 1%Z := "c1" ]} ]}.

(** Recovery in progress, nothing registered. *)
Definition recovering : @State nat _ _ string := mkState None ∅.

(** Step-up completed, nothing registered. *)
Definition stepped_up : @State nat _ _ string := mkState (Some Status_OK) ∅.

(** The context of a caller that is not interrupted, and the context of a
    caller whose operation has been killed. *)
Definition interrupted : Status :=
  mkStatus (ErrorCodes.OtherError 11601) "operation was interrupted".
Definition live_context : OperationContext := mkOperationContext Status_OK.
Definition killed_context : OperationContext :=
  mkOperationContext interrupted.

Import AsyncWorkScheduler.

(** A shard server registered as ["shardA"]; every collaborator answers
    successfully. Commands, read preferences and shards are named. *)
Definition shard_env : @Collaborators string string string :=
  mkCollaborators ShardServer "config" "shardA"
    Status_OK Status_OK Status_OK Status_OK
    (λ commandObj, SWValue (mkOpMsg ("reply to " +:+ commandObj) []))
    100 105
    (λ shardId, SWValue shardId)
    (λ shard readPref, SWValue (shard +:+ ":27017"))
    (λ host commandObj readPref, SWValue 42%nat)
    (λ _, Status_OK) (λ _, Status_OK).

Definition canceled : Status :=
  mkStatus ErrorCodes.CallbackCanceled "Callback canceled".

Definition canceled_response : @ResponseStatus string :=
  mkResponse "" 0 canceled.

(** A live node with one running unit of work, one command in flight and a
    live child that has one running unit of work. *)
Definition busy_node : Scheduler :=
  mkScheduler Status_OK [1%nat] [42%nat]
    [mkScheduler Status_OK [2%nat] [] []].

(** A node on which [shutdown] has been called. *)
Definition shut_down_node : Scheduler :=
  mkScheduler stepping_down [] [42%nat] [].

(** Cancellation errors, as far as the examples go: [CallbackCanceled] is
    one, [OK] is none. *)
Definition is_cancelation (c : ErrorCodes.Error) : bool :=
  match c with
  | ErrorCodes.CallbackCanceled => true
  | _ => false
  end.

(** No timeout is -1 milliseconds and no expiration date the largest
    date. *)
Definition no_timeout : Z := -1.
Definition no_expiration_date : Z := 9223372036854775807.

(** An executor after [startup], with nothing scheduled. Work, callbacks,
    commands and responses are named. *)
Definition started
    : @ThreadPoolTaskExecutor.Executor string string string string :=
  ThreadPoolTaskExecutor.mkExecutor ThreadPoolTaskExecutor.running
    [] [] [] [] ∅ ∅.

Definition ping : @ThreadPoolTaskExecutor.RemoteCommandRequestOnAny string :=
  ThreadPoolTaskExecutor.mkRequest "ping" 30 0.

(** Steps that leave a new executor with a command in flight, a piece of
    work asleep and another waiting for an event. *)
Definition busy_steps
    : list (@ThreadPoolTaskExecutor.Step string string string string) :=
  [ThreadPoolTaskExecutor.StepStartup;
   ThreadPoolTaskExecutor.StepScheduleRemoteCommand ping "onPing" false 100
     Status_OK;
   ThreadPoolTaskExecutor.StepScheduleWorkAt 500 "later" 100 Status_OK;
   ThreadPoolTaskExecutor.StepMakeEvent;
   ThreadPoolTaskExecutor.StepOnEvent (Some 0%nat) "onEvent"].

(** The executor those steps leave. *)
Definition busy_executor
    : @ThreadPoolTaskExecutor.Executor string string string string :=
  ThreadPoolTaskExecutor.mkExecutor ThreadPoolTaskExecutor.running
    [] [0%nat] [1%nat] [0%nat]
    {[ 0%nat :=
         ThreadPoolTaskExecutor.mkCallbackState
           (ThreadPoolTaskExecutor.RemoteCommandFailedEarlyFn "onPing"
              (ThreadPoolTaskExecutor.mkRequest "ping" 30 130))
           false 0 true false false false false;
       1%nat :=
         ThreadPoolTaskExecutor.mkCallbackState
           (ThreadPoolTaskExecutor.WorkFn "later")
           false 500 false true false false false;
       2%nat :=
         ThreadPoolTaskExecutor.new_callback
           (ThreadPoolTaskExecutor.WorkFn "onEvent") false 0 ]}
    {[ 0%nat := ThreadPoolTaskExecutor.mkEventState false [2%nat] ]}.

(** An executor on which [shutdown] has been called with nothing
    scheduled. *)
Definition shut_down_executor
    : @ThreadPoolTaskExecutor.Executor string string string string :=
  ThreadPoolTaskExecutor.mkExecutor ThreadPoolTaskExecutor.joinRequired
    [] [] [] [] ∅ ∅.

(** Operations on a scheduler tree: the root gets a child, and the child is
    shut down. *)
Definition child_shut_down
    : list (list nat * @NodeOp string string string) :=
  [([], OpMakeChild); ([0%nat], OpShutdown stepping_down)].
End Examples.

(** * Properties of the catalog *)

(** ** Ordered maps *)

Section ordered_map_theory.
Context {T : Type} (comp : TxnNumber → TxnNumber → bool) `{!KeyCompare comp}.

#[local] Instance entry_le_total : Total (entry_le (T:=T) comp).
Proof.
  intros a b. unfold entry_le.
  destruct (comp b.1 a.1) eqn:Hba; [|by left].
  destruct (comp a.1 b.1) eqn:Hab; [|by right].
  pose proof (comp_trans _ _ _ Hab Hba) as Haa.
  by rewrite comp_irrefl in Haa.
Qed.

#[local] Instance entry_le_trans : Transitive (entry_le (T:=T) comp).
Proof.
  intros a b c Hab Hbc. unfold entry_le in *.
  destruct (comp c.1 a.1) eqn:Hca; [|done].
  destruct (comp a.1 b.1) eqn:Hab'.
  - pose proof (comp_trans _ _ _ Hca Hab') as Hcb. congruence.
  - pose proof (comp_total _ _ Hab' Hab) as Heq. congruence.
Qed.

Lemma in_order_elem_of (m : gmap TxnNumber T) k c :
  (k, c) ∈ in_order comp m ↔ m !! k = Some c.
Proof.
  unfold in_order. rewrite merge_sort_Permutation.
  apply elem_of_map_to_list.
Qed.

Lemma map_begin_is_Some (m : gmap TxnNumber T) :
  m ≠ ∅ → is_Some (map_begin comp m).
Proof.
  intros Hne. unfold map_begin.
  destruct (in_order comp m) as [|e l] eqn:Hl; [|by eexists].
  exfalso. apply Hne. apply map_to_list_empty_iff.
  apply Permutation_nil_r. rewrite <- (merge_sort_Permutation (entry_le comp)).
  unfold in_order in Hl. by rewrite Hl.
Qed.

(** [begin()] is an entry of the map, and its key comes before every other
    key of the map in the order of [comp]. *)
Lemma map_begin_first (m : gmap TxnNumber T) k c :
  map_begin comp m = Some (k, c) →
  m !! k = Some c ∧ ∀ k', is_Some (m !! k') → k' ≠ k → comp k k' = true.
Proof.
  unfold map_begin. intros Hhd.
  destruct (in_order comp m) as [|e l] eqn:Hl; simplify_eq/=.
  assert (Hk : m !! k = Some c).
  { apply in_order_elem_of. rewrite Hl. left. }
  split; [done|]. intros k' [c' Hk'] Hne.
  apply in_order_elem_of in Hk'. rewrite Hl in Hk'.
  apply elem_of_cons in Hk' as [Heq|Hin]; [congruence|].
  pose proof (StronglySorted_merge_sort (entry_le comp) (map_to_list m)) as Hs.
  fold (in_order comp m) in Hs. rewrite Hl in Hs.
  apply StronglySorted_inv in Hs as [_ Hall].
  rewrite Forall_forall in Hall. specialize (Hall _ Hin).
  unfold entry_le in Hall. simpl in Hall.
  destruct (comp k k') eqn:Hkk'; [done|].
  exfalso. apply Hne. symmetry. by apply comp_total.
Qed.
End ordered_map_theory.

Lemma std_less_compare : KeyCompare std_less.
Proof.
  unfold std_less; split; intros.
  - apply Z.ltb_irrefl.
  - apply Z.ltb_lt in H, H0. apply Z.ltb_lt. lia.
  - apply Z.ltb_ge in H, H0. lia.
Qed.

Lemma std_greater_compare : KeyCompare std_greater.
Proof.
  unfold std_greater; split; intros.
  - apply Z.ltb_irrefl.
  - apply Z.ltb_lt in H, H0. apply Z.ltb_lt. lia.
  - apply Z.ltb_ge in H, H0. lia.
Qed.

Lemma descending_compare (comp : TxnNumber → TxnNumber → bool) :
  (∀ a b, comp a b = std_greater a b) → KeyCompare comp.
Proof.
  intros Hd. split; intros *; rewrite !Hd; apply std_greater_compare.
Qed.

(** ** The catalog's operations *)

Module CatalogTheory.
Import TransactionCoordinatorCatalog.

Section theory.
Context {LogicalSessionId : Type} `{Countable LogicalSessionId}.
Context {Coordinator : Type}.

#[local] Abbreviation State := (@State LogicalSessionId _ _ Coordinator).

Lemma wait_passed opCtx (st : State) s :
  _stepUpCompletionStatus st = Some s → isOK s = true →
  _waitForStepUpToComplete opCtx st = WaitPassed.
Proof.
  unfold _waitForStepUpToComplete, waitForConditionOrInterrupt.
  intros -> Hok. simpl. by rewrite Hok.
Qed.

Lemma wait_threw opCtx (st : State) s :
  _stepUpCompletionStatus st = Some s → isOK s = false →
  _waitForStepUpToComplete opCtx st = WaitThrew s.
Proof.
  unfold _waitForStepUpToComplete, waitForConditionOrInterrupt.
  intros -> Hok. simpl. by rewrite Hok.
Qed.

Lemma wait_blocked opCtx (st : State) :
  _stepUpCompletionStatus st = None →
  isOK (checkForInterruptNoAssert opCtx) = true →
  _waitForStepUpToComplete opCtx st = WaitBlocked.
Proof.
  unfold _waitForStepUpToComplete, waitForConditionOrInterrupt.
  intros -> Hok. simpl. by rewrite Hok.
Qed.

Lemma wait_interrupted opCtx (st : State) :
  _stepUpCompletionStatus st = None →
  isOK (checkForInterruptNoAssert opCtx) = false →
  _waitForStepUpToComplete opCtx st =
  WaitThrew (checkForInterruptNoAssert opCtx).
Proof.
  unfold _waitForStepUpToComplete, waitForConditionOrInterrupt.
  intros -> Hok. simpl. by rewrite Hok.
Qed.

(** While step-up is unresolved the wait blocks a caller whose context is
    not interrupted and throws the interruption of one whose context is. *)
Lemma wait_unresolved opCtx (st : State) :
  _stepUpCompletionStatus st = None →
  _waitForStepUpToComplete opCtx st =
  if isOK (checkForInterruptNoAssert opCtx) then WaitBlocked
  else WaitThrew (checkForInterruptNoAssert opCtx).
Proof.
  unfold _waitForStepUpToComplete, waitForConditionOrInterrupt.
  intros ->. simpl. by destruct (isOK _).
Qed.

Lemma map_empty_true {T} (m : gmap TxnNumber T) : map_empty m = true ↔ m = ∅.
Proof. unfold map_empty. apply bool_decide_eq_true. Qed.

Lemma map_empty_false {T} (m : gmap TxnNumber T) : map_empty m = false ↔ m ≠ ∅.
Proof. unfold map_empty. apply bool_decide_eq_false. Qed.

(** Once the gate is open, [getLatestOnSession] returns the first entry of
    the session's map in the order of the map's comparator. *)
Lemma getLatestOnSession_first comp `{!KeyCompare comp} (st : State) lsid s m :
  _stepUpCompletionStatus st = Some s → isOK s = true →
  _coordinatorsBySession st !! lsid = Some m → m ≠ ∅ →
  ∃ t c, (∀ opCtx,
            getLatestOnSession comp opCtx lsid st = Returned (Some (t, c)) st) ∧
         m !! t = Some c ∧
         ∀ t', is_Some (m !! t') → t' ≠ t → comp t t' = true.
Proof.
  intros Hs Hok Hm Hne.
  apply map_empty_false in Hne as Hne'.
  destruct (map_begin_is_Some comp m Hne) as [[t c] Hb].
  exists t, c. split; [|by apply map_begin_first].
  intros opCtx. unfold getLatestOnSession.
  by rewrite (wait_passed _ _ _ Hs Hok), Hm, Hne', Hb.
Qed.

Lemma getLatestOnSession_none comp opCtx (st : State) lsid s :
  _stepUpCompletionStatus st = Some s → isOK s = true →
  getLatestOnSession comp opCtx lsid st = Returned None st ↔
  _coordinatorsBySession st !! lsid = None.
Proof.
  intros Hs Hok. unfold getLatestOnSession.
  rewrite (wait_passed _ _ _ Hs Hok).
  destruct (_coordinatorsBySession st !! lsid) as [m|]; [|done].
  split; [|done].
  destruct (map_empty m); [done|]. by destruct (map_begin comp m).
Qed.

(** C1. With the inner map kept in descending key order (its comparator, a
    parameter here, being [std::greater]) and step-up completed ok,
    [getLatestOnSession] on a session with at least one registered
    coordinator returns the registered pair with the greatest transaction
    number, and it returns empty exactly when the session is absent,
    whatever the caller's operation context. *)
Theorem C1_getLatestOnSession_maximum comp (st : State) lsid s :
  (∀ a b, comp a b = std_greater a b) →
  _stepUpCompletionStatus st = Some s → isOK s = true →
  (∀ m, _coordinatorsBySession st !! lsid = Some m → m ≠ ∅ →
     ∃ t c, (∀ opCtx, getLatestOnSession comp opCtx lsid st
                      = Returned (Some (t, c)) st) ∧
            m !! t = Some c ∧
            ∀ t', is_Some (m !! t') → (t' ≤ t)%Z) ∧
  (∀ opCtx, getLatestOnSession comp opCtx lsid st = Returned None st ↔
            _coordinatorsBySession st !! lsid = None).
Proof.
  intros Hdesc Hs Hok.
  split; [|by intros opCtx; eapply getLatestOnSession_none].
  intros m Hm Hne.
  pose proof (descending_compare comp Hdesc) as Hcmp.
  destruct (getLatestOnSession_first comp st lsid s m Hs Hok Hm Hne)
    as (t & c & Hget & Hlk & Hfirst).
  exists t, c. repeat split; [done..|].
  intros t' Hin. destruct (decide (t' = t)) as [->|Hne']; [lia|].
  specialize (Hfirst t' Hin Hne'). rewrite Hdesc in Hfirst.
  unfold std_greater in Hfirst. apply Z.ltb_lt in Hfirst. lia.
Qed.

(** With the comparator [std::less] the same call returns the least
    transaction number of the session. *)
Lemma getLatestOnSession_ascending (st : State) lsid s m :
  _stepUpCompletionStatus st = Some s → isOK s = true →
  _coordinatorsBySession st !! lsid = Some m → m ≠ ∅ →
  ∃ t c, (∀ opCtx, getLatestOnSession std_less opCtx lsid st
                   = Returned (Some (t, c)) st) ∧
         m !! t = Some c ∧ ∀ t', is_Some (m !! t') → (t ≤ t')%Z.
Proof.
  intros Hs Hok Hm Hne.
  pose proof std_less_compare as Hcmp.
  destruct (getLatestOnSession_first std_less st lsid s m Hs Hok Hm Hne)
    as (t & c & Hget & Hlk & Hfirst).
  exists t, c. repeat split; [done..|].
  intros t' Hin. destruct (decide (t' = t)) as [->|Hne']; [lia|].
  specialize (Hfirst t' Hin Hne').
  unfold std_less in Hfirst. apply Z.ltb_lt in Hfirst. lia.
Qed.

Lemma gate_open_passed opCtx forStepUp (st : State) :
  gate_open forStepUp st →
  (if forStepUp then WaitPassed else _waitForStepUpToComplete opCtx st)
  = WaitPassed.
Proof.
  intros [->|(s & Hs & Hok)]; [done|].
  destruct forStepUp; [done|]. by eapply wait_passed.
Qed.

(** What a successful [insert] stores. *)
Lemma insert_returned opCtx lsid t c forStepUp (st : State) :
  gate_open forStepUp st → registered lsid t st = None →
  insert opCtx lsid t c forStepUp st =
  Returned (lsid, t)
    (mkState (_stepUpCompletionStatus st)
       (<[lsid := <[t := c]> (default ∅ (_coordinatorsBySession st !! lsid))]>
          (_coordinatorsBySession st))).
Proof.
  intros Hgate Hreg. unfold insert. rewrite (gate_open_passed _ _ _ Hgate).
  unfold registered in Hreg.
  destruct (_coordinatorsBySession st !! lsid) as [m|] eqn:Hm; simpl in *.
  - rewrite Hm. simpl. by rewrite Hreg.
  - rewrite lookup_insert_eq. simpl. rewrite lookup_empty.
    by rewrite insert_insert_eq.
Qed.

(** C2. After an [insert] of [c] under [(s, t)] that succeeds (step-up
    completed ok, key not present), [get s t] returns [c], and [get s t']
    returns empty for every other [t'] with nothing registered under
    [(s, t')], whatever the operation contexts of the callers. *)
Theorem C2_insert_then_get (st : State) lsid t c forStepUp status :
  _stepUpCompletionStatus st = Some status → isOK status = true →
  registered lsid t st = None →
  ∃ st', (∀ opCtx, insert opCtx lsid t c forStepUp st
                   = Returned (lsid, t) st') ∧
         (∀ opCtx, get opCtx lsid t st' = Returned (Some c) st') ∧
         ∀ opCtx t', t' ≠ t → registered lsid t' st = None →
                     get opCtx lsid t' st' = Returned None st'.
Proof.
  intros Hs Hok Hreg.
  assert (Hgate : gate_open forStepUp st) by (right; eauto).
  eexists; split;
    [intros opCtx; apply (insert_returned opCtx _ _ c _ _ Hgate Hreg)|].
  assert (Hget : ∀ opCtx l' t' (st' : State),
            _stepUpCompletionStatus st' = Some status →
            get opCtx l' t' st' =
            Returned (match _coordinatorsBySession st' !! l' with
                      | Some m => m !! t'
                      | None => None
                      end) st').
  { intros opCtx l' t' st' Hs'. unfold get.
    by rewrite (wait_passed _ _ _ Hs' Hok). }
  split.
  - intros opCtx. rewrite Hget by done. simpl.
    by rewrite !lookup_insert_eq.
  - intros opCtx t' Hne Hreg'. rewrite Hget by done. simpl.
    rewrite lookup_insert_eq. rewrite lookup_insert_ne by done.
    unfold registered in Hreg'.
    destruct (_coordinatorsBySession st !! lsid); simpl in *.
    + by rewrite Hreg'.
    + by rewrite lookup_empty.
Qed.

(** C3, as amended. With a coordinator registered under [(s, t)], an
    [insert] under the same key whose gate is open (made for step-up, or
    after step-up completed ok) fails the invariant, whatever the caller's
    operation context. Made with [forStepUp] false it throws the step-up
    failure when step-up has failed; while step-up is unresolved it blocks a
    caller whose context is not interrupted and throws the interruption of
    one whose context is. In no case does it return, and whenever the
    process survives the catalog is the one before the call. *)
Theorem C3_duplicate_insert (st : State) opCtx lsid t c c' forStepUp :
  registered lsid t st = Some c →
  (gate_open forStepUp st → insert opCtx lsid t c' forStepUp st = Fatal) ∧
  (∀ e, forStepUp = false → _stepUpCompletionStatus st = Some e →
        isOK e = false → insert opCtx lsid t c' forStepUp st = Threw e st) ∧
  (forStepUp = false → _stepUpCompletionStatus st = None →
   insert opCtx lsid t c' forStepUp st =
   if isOK (checkForInterruptNoAssert opCtx) then Blocked
   else Threw (checkForInterruptNoAssert opCtx) st) ∧
  (∀ r st', insert opCtx lsid t c' forStepUp st ≠ Returned r st') ∧
  (∀ st', state_after (insert opCtx lsid t c' forStepUp st) st = Some st' →
          st' = st).
Proof.
  intros Hreg. unfold registered in Hreg.
  destruct (_coordinatorsBySession st !! lsid) as [m|] eqn:Hm; [|done].
  simpl in Hreg.
  assert (Hpassed :
    match (if forStepUp then WaitPassed
           else _waitForStepUpToComplete opCtx st) with
    | WaitPassed => insert opCtx lsid t c' forStepUp st = Fatal
    | WaitThrew s => insert opCtx lsid t c' forStepUp st = Threw s st
    | WaitBlocked => insert opCtx lsid t c' forStepUp st = Blocked
    end).
  { unfold insert.
    destruct (if forStepUp then WaitPassed
              else _waitForStepUpToComplete opCtx st); [|done..].
    rewrite Hm. simpl. rewrite Hm. simpl. by rewrite Hreg. }
  repeat split.
  - intros Hgate. by rewrite (gate_open_passed _ _ _ Hgate) in Hpassed.
  - intros e -> He Hok. by rewrite (wait_threw _ _ _ He Hok) in Hpassed.
  - intros -> Hnone. rewrite (wait_unresolved _ _ Hnone) in Hpassed.
    by destruct (isOK (checkForInterruptNoAssert opCtx)).
  - intros r st'.
    destruct (if forStepUp then WaitPassed
              else _waitForStepUpToComplete opCtx st);
      by rewrite Hpassed.
  - intros st'.
    destruct (if forStepUp then WaitPassed
              else _waitForStepUpToComplete opCtx st);
      rewrite Hpassed; simpl; congruence.
Qed.

(** *** The non-empty-session invariant *)

Lemma no_empty_session_empty : no_empty_session (empty_catalog : State).
Proof. intros lsid m. simpl. by rewrite lookup_empty. Qed.

Lemma no_empty_session_same_map (st st' : State) :
  _coordinatorsBySession st' = _coordinatorsBySession st →
  no_empty_session st → no_empty_session st'.
Proof. unfold no_empty_session. by intros ->. Qed.

Lemma insert_preserves opCtx lsid t c forStepUp (st : State) r st' :
  no_empty_session st →
  insert opCtx lsid t c forStepUp st = Returned r st' → no_empty_session st'.
Proof.
  intros Hinv. unfold insert.
  destruct (if forStepUp then WaitPassed
            else _waitForStepUpToComplete opCtx st); [|done..].
  destruct (default ∅ _ !! t); [done|]. intros [= _ <-].
  intros lsid' m. simpl. destruct (decide (lsid = lsid')) as [<-|Hne].
  - rewrite lookup_insert_eq. intros [= <-]. apply insert_non_empty.
  - rewrite lookup_insert_ne by done.
    destruct (_coordinatorsBySession st !! lsid); [apply Hinv|].
    rewrite lookup_insert_ne by done. apply Hinv.
Qed.

Lemma remove_preserves lsid t (st : State) r st' :
  no_empty_session st →
  _remove lsid t st = Returned r st' → no_empty_session st'.
Proof.
  intros Hinv. unfold _remove. intros [= _ <-].
  destruct (_coordinatorsBySession st !! lsid) as [m|] eqn:Hm; [|done].
  destruct (m !! t); [|done].
  destruct (map_empty (delete t m)) eqn:Hempty; intros lsid' m'; simpl.
  - destruct (decide (lsid = lsid')) as [<-|Hne].
    + by rewrite lookup_delete_eq.
    + rewrite lookup_delete_ne by done. apply Hinv.
  - destruct (decide (lsid = lsid')) as [<-|Hne].
    + rewrite lookup_insert_eq. intros [= <-]. by apply map_empty_false.
    + rewrite lookup_insert_ne by done. apply Hinv.
Qed.

Lemma call_step_preserves comp (call : Call) (st st' : State) :
  no_empty_session st → call_step comp call st = Some st' →
  no_empty_session st'.
Proof.
  intros Hinv. destruct call; simpl.
  - unfold exitStepUp. destruct (_stepUpCompletionStatus st); [done|].
    intros [= <-]. by eapply no_empty_session_same_map.
  - by intros [= <-].
  - destruct (insert opCtx lsid txnNumber coordinator forStepUp st) eqn:Hins;
      simpl; intros Heq; simplify_eq;
      try done; try (by eapply insert_preserves).
    unfold insert in Hins.
    destruct (if forStepUp then WaitPassed
              else _waitForStepUpToComplete opCtx st);
      [|by injection Hins as _ <-|done].
    by destruct (default ∅ _ !! txnNumber).
  - unfold get.
    by destruct (_waitForStepUpToComplete opCtx st); intros [= <-].
  - unfold getLatestOnSession.
    destruct (_waitForStepUpToComplete opCtx st); [|by intros [= <-]..].
    destruct (_coordinatorsBySession st !! lsid) as [m|]; [|by intros [= <-]].
    destruct (map_empty m); [done|].
    by destruct (map_begin comp m); [intros [= <-]|].
  - destruct (_remove lsid txnNumber st) eqn:Hrm; simpl; intros Heq;
      simplify_eq; try done; try (by eapply remove_preserves).
  - unfold join. by case_bool_decide; intros [= <-].
Qed.

Lemma run_preserves comp (calls : list Call) (st st' : State) :
  no_empty_session st → run comp calls st = Some st' → no_empty_session st'.
Proof.
  revert st. induction calls as [|call calls IH]; intros st Hinv; simpl.
  - by intros [= <-].
  - destruct (call_step comp call st) as [st1|] eqn:Hstep; [|done].
    apply IH. by eapply call_step_preserves.
Qed.

(** C4. Every catalog operation preserves the invariant that no session is
    present with an empty inner map, so it holds after any sequence of calls
    on a fresh catalog; the [_remove] that takes the last transaction of a
    session erases the session's entry in that same step; and under the
    invariant the assertion of [getLatestOnSession] does not fire. The calls
    are made with any operation contexts, interrupted or not. *)
Theorem C4_no_empty_session comp :
  (∀ (call : Call) (st st' : State),
     no_empty_session st → call_step comp call st = Some st' →
     no_empty_session st') ∧
  (∀ (calls : list Call) (st' : State),
     run comp calls empty_catalog = Some st' → no_empty_session st') ∧
  (∀ (st : State) lsid t m,
     _coordinatorsBySession st !! lsid = Some m → is_Some (m !! t) →
     delete t m = ∅ →
     ∃ notified st', _remove lsid t st = Returned notified st' ∧
                     _coordinatorsBySession st' !! lsid = None) ∧
  (∀ (st : State) opCtx lsid,
     no_empty_session st → getLatestOnSession comp opCtx lsid st ≠ Fatal).
Proof.
  split; [|split; [|split]].
  - apply call_step_preserves.
  - intros calls st'. apply run_preserves, no_empty_session_empty.
  - intros st lsid t m Hm [c Hc] Hdel. unfold _remove.
    rewrite Hm, Hc. apply map_empty_true in Hdel. rewrite Hdel.
    eexists _, _. split; [done|]. simpl. apply lookup_delete_eq.
  - intros st opCtx lsid Hinv. unfold getLatestOnSession.
    destruct (_waitForStepUpToComplete opCtx st); [|done..].
    destruct (_coordinatorsBySession st !! lsid) as [m|] eqn:Hm; [|done].
    specialize (Hinv _ _ Hm). apply map_empty_false in Hinv as Hne.
    rewrite Hne. by destruct (map_begin_is_Some comp m Hinv) as [e ->].
Qed.

(** *** The step-up gate *)

Lemma call_step_status comp (call : Call) (st st' : State) s :
  _stepUpCompletionStatus st = Some s → call_step comp call st = Some st' →
  _stepUpCompletionStatus st' = Some s.
Proof.
  intros Hs. destruct call; simpl.
  - unfold exitStepUp. by rewrite Hs.
  - by intros [= <-].
  - unfold insert.
    destruct (if forStepUp then WaitPassed
              else _waitForStepUpToComplete opCtx st);
      [|by intros [= <-]..].
    by destruct (default ∅ _ !! txnNumber); [|intros [= <-]].
  - unfold get.
    by destruct (_waitForStepUpToComplete opCtx st); intros [= <-].
  - unfold getLatestOnSession.
    destruct (_waitForStepUpToComplete opCtx st); [|by intros [= <-]..].
    destruct (_coordinatorsBySession st !! lsid) as [m|]; [|by intros [= <-]].
    destruct (map_empty m); [done|].
    by destruct (map_begin comp m); [intros [= <-]|].
  - by intros [= <-].
  - unfold join. by case_bool_decide; intros [= <-].
Qed.

Lemma run_status comp (calls : list Call) (st st' : State) s :
  _stepUpCompletionStatus st = Some s → run comp calls st = Some st' →
  _stepUpCompletionStatus st' = Some s.
Proof.
  revert st. induction calls as [|call calls IH]; intros st Hs; simpl.
  - by intros [= <-].
  - destruct (call_step comp call st) as [st1|] eqn:Hstep; [|done].
    apply IH. by eapply call_step_status.
Qed.

(** C5, as amended. While [_stepUpCompletionStatus] is unset, [insert]
    without [forStepUp], [get] and [getLatestOnSession] block a caller whose
    operation context is not interrupted, and throw the interruption to a
    caller whose context is interrupted; the catalog is left as it was.
    [exitStepUp] with a failure then returns, and in the catalog it leaves
    (where the callers still blocked are woken), and in every catalog
    reached from it by later calls, each of the three throws that same
    failure, whatever the caller's context, and leaves the catalog as it
    was. *)
Theorem C5_step_up_gate comp (st : State) :
  _stepUpCompletionStatus st = None →
  (∀ opCtx, isOK (checkForInterruptNoAssert opCtx) = true →
     (∀ lsid t c, insert opCtx lsid t c false st = Blocked) ∧
     (∀ lsid t, get opCtx lsid t st = Blocked) ∧
     (∀ lsid, getLatestOnSession comp opCtx lsid st = Blocked)) ∧
  (∀ opCtx, isOK (checkForInterruptNoAssert opCtx) = false →
     (∀ lsid t c, insert opCtx lsid t c false st
                  = Threw (checkForInterruptNoAssert opCtx) st) ∧
     (∀ lsid t, get opCtx lsid t st
                = Threw (checkForInterruptNoAssert opCtx) st) ∧
     (∀ lsid, getLatestOnSession comp opCtx lsid st
              = Threw (checkForInterruptNoAssert opCtx) st)) ∧
  ∀ failure, isOK failure = false →
    ∃ st1, exitStepUp failure st = Returned () st1 ∧
      ∀ calls st2, run comp calls st1 = Some st2 →
        ∀ opCtx,
          (∀ lsid t c, insert opCtx lsid t c false st2 = Threw failure st2) ∧
          (∀ lsid t, get opCtx lsid t st2 = Threw failure st2) ∧
          (∀ lsid, getLatestOnSession comp opCtx lsid st2
                   = Threw failure st2).
Proof.
  intros Hnone. split; [|split].
  - intros opCtx Hlive.
    pose proof (wait_blocked opCtx _ Hnone Hlive) as Hw.
    unfold insert, get, getLatestOnSession. by rewrite Hw.
  - intros opCtx Hkilled.
    pose proof (wait_interrupted opCtx _ Hnone Hkilled) as Hw.
    unfold insert, get, getLatestOnSession. by rewrite Hw.
  - intros failure Hfail. unfold exitStepUp. rewrite Hnone.
    eexists; split; [done|]. intros calls st2 Hrun opCtx.
    apply run_status with (s := failure) in Hrun; [|done].
    pose proof (wait_threw opCtx _ _ Hrun Hfail) as Hw.
    unfold insert, get, getLatestOnSession. by rewrite Hw.
Qed.

(** *** Draining *)

(** C9. The destructor is [join]: it returns only on a catalog with no
    session at all, where no coordinator is registered under any key, and
    blocks on any other catalog. *)
Theorem C9_destructor_joins (st : State) :
  destructor st = join st ∧
  (destructor st = Returned () st ↔ _coordinatorsBySession st = ∅) ∧
  (_coordinatorsBySession st ≠ ∅ → destructor st = Blocked) ∧
  (∀ r st', destructor st = Returned r st' →
            st' = st ∧ ∀ lsid t, registered lsid t st = None).
Proof.
  unfold destructor, join. split; [done|].
  case_bool_decide as Hempty; (split; [done|split; [done|]]);
    intros r st' Heq; [|done].
  injection Heq as _ <-. split; [done|].
  intros lsid t. unfold registered. by rewrite Hempty, lookup_empty.
Qed.

End theory.

Example getLatestOnSession_two_txns :
  getLatestOnSession std_greater Examples.live_context 7%nat
    Examples.two_txns
  = Returned (Some (2%Z, "c2")) Examples.two_txns.
Proof. vm_compute. reflexivity. Qed.

Lemma C1_getLatestOnSession_maximum_witness :
  (∀ m, _coordinatorsBySession Examples.two_txns !! 7%nat = Some m → m ≠ ∅ →
     ∃ t c, (∀ opCtx, getLatestOnSession std_greater opCtx 7%nat
                        Examples.two_txns
                      = Returned (Some (t, c)) Examples.two_txns) ∧
            m !! t = Some c ∧
            ∀ t', is_Some (m !! t') → (t' ≤ t)%Z) ∧
  (∀ opCtx, getLatestOnSession std_greater opCtx 7%nat Examples.two_txns
            = Returned None Examples.two_txns ↔
            _coordinatorsBySession Examples.two_txns !! 7%nat = None).
Proof.
  apply (C1_getLatestOnSession_maximum std_greater Examples.two_txns 7%nat
           Status_OK); [intros; reflexivity | reflexivity | reflexivity].
Defined.

Lemma C2_insert_then_get_witness :
  ∃ st', (∀ opCtx, insert opCtx 7%nat 5%Z "c5" false Examples.two_txns
                   = Returned (7%nat, 5%Z) st') ∧
         (∀ opCtx, get opCtx 7%nat 5%Z st' = Returned (Some "c5") st') ∧
         ∀ opCtx t', t' ≠ 5%Z →
                     registered 7%nat t' Examples.two_txns = None →
                     get opCtx 7%nat t' st' = Returned None st'.
Proof.
  apply (C2_insert_then_get Examples.two_txns 7%nat 5%Z "c5" false Status_OK);
    reflexivity.
Defined.

(** C3, as stated, fails: register a coordinator under (7, 1) for step-up
    and let step-up fail; an [insert] for the same key with [forStepUp] false
    then throws the step-up failure to its caller, and no invariant fires. *)
Lemma C3_as_stated_counterexample :
  run std_greater
    [CallInsert Examples.live_context 7%nat 1%Z "c1" true;
     CallExitStepUp Examples.stepping_down]
    empty_catalog = Some Examples.failed_step_up ∧
  registered 7%nat 1%Z Examples.failed_step_up = Some "c1" ∧
  insert Examples.live_context 7%nat 1%Z "other" false
    Examples.failed_step_up
  = Threw Examples.stepping_down Examples.failed_step_up ∧
  insert Examples.live_context 7%nat 1%Z "other" false
    Examples.failed_step_up ≠ Fatal.
Proof. repeat split; [vm_compute; reflexivity..|discriminate]. Qed.

Lemma C3_duplicate_insert_witness :
  insert Examples.killed_context 7%nat 1%Z "other" true
    Examples.failed_step_up = Fatal.
Proof.
  apply (C3_duplicate_insert Examples.failed_step_up Examples.killed_context
           7%nat 1%Z "c1" "other" true);
    [reflexivity | left; reflexivity].
Defined.

Lemma C4_no_empty_session_witness :
  ∃ notified st',
    _remove 7%nat 1%Z Examples.failed_step_up = Returned notified st' ∧
    _coordinatorsBySession st' !! 7%nat = None.
Proof.
  apply (proj1 (proj2 (proj2 (C4_no_empty_session (LogicalSessionId := nat)
                                (Coordinator := string) std_greater)))
           Examples.failed_step_up 7%nat 1%Z {[ 1%Z := "c1" ]});
    [reflexivity | by eexists | reflexivity].
Defined.

(** C5, as stated, fails: before [exitStepUp] a [get] whose operation
    context has been killed does not block, it throws the interruption; so a
    caller that was blocked and is interrupted before [exitStepUp] reports
    the failure has failed with the interruption, not with the step-up
    failure. *)
Lemma C5_as_stated_counterexample :
  Examples.recovering = empty_catalog ∧
  _stepUpCompletionStatus Examples.recovering = None ∧
  get Examples.live_context 7%nat 1%Z Examples.recovering = Blocked ∧
  get Examples.killed_context 7%nat 1%Z Examples.recovering
  = Threw Examples.interrupted Examples.recovering ∧
  get Examples.killed_context 7%nat 1%Z Examples.recovering ≠ Blocked ∧
  (∃ st1, exitStepUp Examples.stepping_down Examples.recovering
          = Returned () st1) ∧
  Examples.interrupted ≠ Examples.stepping_down.
Proof.
  repeat split; [vm_compute; reflexivity..|discriminate| |discriminate].
  by eexists.
Qed.

Lemma C5_step_up_gate_witness :
  get Examples.live_context 7%nat 1%Z Examples.recovering = Blocked ∧
  get Examples.killed_context 7%nat 1%Z Examples.recovering
  = Threw Examples.interrupted Examples.recovering ∧
  ∃ st1, exitStepUp Examples.stepping_down Examples.recovering
         = Returned () st1 ∧
         get Examples.killed_context 7%nat 1%Z st1
         = Threw Examples.stepping_down st1.
Proof.
  destruct (C5_step_up_gate std_greater Examples.recovering eq_refl)
    as (Hlive & Hkilled & Hafter).
  destruct (Hlive Examples.live_context eq_refl) as (_ & Hget & _).
  destruct (Hkilled Examples.killed_context eq_refl) as (_ & Hget' & _).
  split; [apply Hget|]. split; [apply Hget'|].
  destruct (Hafter Examples.stepping_down eq_refl) as (st1 & Hexit & Hlater).
  exists st1. split; [exact Hexit|].
  destruct (Hlater [] st1 eq_refl Examples.killed_context)
    as (_ & Hget'' & _).
  apply Hget''.
Defined.

Lemma C9_destructor_joins_witness :
  destructor Examples.two_txns = Blocked ∧
  destructor Examples.stepped_up = Returned () Examples.stepped_up.
Proof.
  split.
  - apply (C9_destructor_joins Examples.two_txns). vm_compute. discriminate.
  - apply (C9_destructor_joins Examples.stepped_up). reflexivity.
Defined.

End CatalogTheory.

(** * Properties of the scheduler *)

Module SchedulerTheory.
Import AsyncWorkScheduler.

Section theory.
Context {BSONObj ReadPreferenceSetting Shard : Type}.

#[local] Abbreviation Collaborators :=
  (@Collaborators BSONObj ReadPreferenceSetting Shard).
#[local] Abbreviation Event := (@Event BSONObj ReadPreferenceSetting).

(** *** Shutdown *)

Lemma Scheduler_nested_ind (P : Scheduler → Prop) :
  (∀ s ctxs hs cs, Forall P cs → P (mkScheduler s ctxs hs cs)) →
  ∀ n, P n.
Proof.
  intros Hstep. fix IH 1. intros [s ctxs hs cs]. apply Hstep.
  revert cs. fix IHcs 1. intros [|c cs]; constructor; [apply IH|apply IHcs].
Qed.

Lemma shutdown_unfold reason s ctxs hs cs :
  shutdown reason (mkScheduler s ctxs hs cs) =
  if isOK reason then None
  else if negb (isOK s) then Some (mkScheduler s ctxs hs cs, [])
  else
    match shutdown_each reason cs with
    | None => None
    | Some (cs', evs) =>
        Some (mkScheduler reason ctxs hs cs',
              ((λ it, KillOperation it (code reason) : Event) <$> ctxs)
              ++ (Cancel <$> hs) ++ evs)
    end.
Proof.
  simpl. destruct (isOK reason); [done|]. destruct (negb (isOK s)); [done|].
  match goal with
  | |- match ?l with _ => _ end = match ?r with _ => _ end =>
      assert (Heach : l = r); [|by rewrite Heach]
  end.
  induction cs as [|c cs IH]; [done|].
  simpl. destruct (shutdown reason c) as [[c' ev]|]; [|done].
  by rewrite IH.
Qed.

Lemma shutdown_each_is_Some reason cs :
  Forall (λ c, is_Some (shutdown (BSONObj:=BSONObj)
                          (ReadPreferenceSetting:=ReadPreferenceSetting)
                          reason c)) cs →
  is_Some (shutdown_each (BSONObj:=BSONObj)
             (ReadPreferenceSetting:=ReadPreferenceSetting) reason cs).
Proof.
  induction 1 as [|c cs [[c' ev] Hc] _ [[cs' evs] Hcs]]; simpl; [by eexists|].
  rewrite Hc, Hcs. by eexists.
Qed.

(** A [shutdown] with a reason that is not OK never aborts. *)
Lemma shutdown_is_Some reason n :
  isOK reason = false →
  is_Some (shutdown (BSONObj:=BSONObj)
             (ReadPreferenceSetting:=ReadPreferenceSetting) reason n).
Proof.
  intros Hr. induction n as [s ctxs hs cs IH] using Scheduler_nested_ind.
  rewrite shutdown_unfold, Hr. destruct (negb (isOK s)); [by eexists|].
  destruct (shutdown_each_is_Some reason cs IH) as [[cs' evs] ->].
  by eexists.
Qed.

Lemma shutdown_each_children reason cs cs' (evs : list Event) :
  shutdown_each reason cs = Some (cs', evs) →
  Forall2 (λ c c', ∃ ev : list Event,
             shutdown reason c = Some (c', ev) ∧ ev ⊆ evs) cs cs'.
Proof.
  revert cs' evs. induction cs as [|c cs IH]; intros cs' evs; simpl.
  - intros [= <- <-]. constructor.
  - destruct (shutdown reason c) as [[c' ev]|] eqn:Hc; [|done].
    destruct (shutdown_each reason cs) as [[rest' evs']|] eqn:Hcs; [|done].
    intros [= <- <-]. constructor.
    + exists ev. split; [done|]. set_solver.
    + eapply Forall2_impl; [by apply IH|].
      intros x y (e & He & Hsub). exists e. split; [done|]. set_solver.
Qed.

Lemma shutdown_after_shutdown reason' (n : Scheduler) :
  isOK (_shutdownStatus n) = false → isOK reason' = false →
  shutdown (BSONObj:=BSONObj) (ReadPreferenceSetting:=ReadPreferenceSetting)
    reason' n = Some (n, []).
Proof.
  destruct n as [s ctxs hs cs]. simpl. by intros -> ->.
Qed.

(** The status a node carries after [shutdown reason]: the first reason
    stays. *)
Lemma shutdown_status reason (n n' : Scheduler) (ev : list Event) :
  shutdown reason n = Some (n', ev) →
  _shutdownStatus n' =
  if isOK (_shutdownStatus n) then reason else _shutdownStatus n.
Proof.
  destruct n as [s ctxs hs cs]. rewrite shutdown_unfold. simpl.
  destruct (isOK reason); [done|].
  destruct (isOK s); simpl; [|by intros [= <- _]].
  destruct (shutdown_each reason cs) as [[cs' evs]|]; [|done].
  by intros [= <- _].
Qed.

(** C8. The first [shutdown reason] on a node records [reason], kills every
    active operation context with the reason's code, cancels every in-flight
    handle, and calls [shutdown reason] on every child, whose own calls are
    part of the same run; it leaves the node's contexts and handles in
    place. Any later [shutdown] on the node changes nothing and calls
    nothing. *)
Theorem C8_shutdown_sticky reason (n : Scheduler) :
  isOK reason = false → isOK (_shutdownStatus n) = true →
  ∃ (n' : Scheduler) (ev : list Event),
    shutdown reason n = Some (n', ev) ∧
    _shutdownStatus n' = reason ∧
    _activeOpContexts n' = _activeOpContexts n ∧
    _activeHandles n' = _activeHandles n ∧
    (∀ opCtx, opCtx ∈ _activeOpContexts n →
              KillOperation opCtx (code reason) ∈ ev) ∧
    (∀ h, h ∈ _activeHandles n → Cancel h ∈ ev) ∧
    Forall2 (λ c c', ∃ evc : list Event,
               shutdown reason c = Some (c', evc) ∧ evc ⊆ ev ∧
               _shutdownStatus c' =
               if isOK (_shutdownStatus c) then reason else _shutdownStatus c)
      (_childSchedulers n) (_childSchedulers n') ∧
    ∀ reason', isOK reason' = false →
      shutdown reason' n' = Some (n', ([] : list Event)).
Proof.
  intros Hr Hlive. destruct (shutdown_is_Some reason n Hr) as [[n' ev] Hsh].
  exists n', ev. split; [done|].
  pose proof (shutdown_status _ _ _ _ Hsh) as Hst. rewrite Hlive in Hst.
  destruct n as [s ctxs hs cs]. simpl in Hlive.
  rewrite shutdown_unfold, Hr, Hlive in Hsh. simpl in Hsh.
  destruct (shutdown_each reason cs) as [[cs' evs]|] eqn:Heach; [|done].
  injection Hsh as <- <-. simpl. repeat split; try done.
  - intros opCtx Hin. apply elem_of_app. left.
    apply list_elem_of_fmap. by exists opCtx.
  - intros h Hin. apply elem_of_app. right. apply elem_of_app. left.
    apply list_elem_of_fmap. by exists h.
  - eapply Forall2_impl; [by apply shutdown_each_children|].
    intros c c' (evc & Hc & Hsub). exists evc. repeat split; [done| |].
    + set_solver.
    + by eapply shutdown_status.
  - intros reason' Hr'. by rewrite Hr', Hr.
Qed.

Lemma node_step_keeps_shutdown
    (op : @NodeOp BSONObj ReadPreferenceSetting Shard) (n n' : Scheduler) :
  isOK (_shutdownStatus n) = false → node_step op n = Some n' →
  _shutdownStatus n' = _shutdownStatus n.
Proof.
  intros Hn. destruct op; simpl.
  - destruct (shutdown s n) as [[n1 ev]|] eqn:Hsh; [|done].
    intros [= <-]. simpl.
    pose proof (shutdown_status _ _ _ _ Hsh) as Hst. by rewrite Hn in Hst.
  - unfold makeChildScheduler. rewrite Hn. simpl.
    by destruct (isOK (_shutdownStatus n)); intros [= <-].
  - unfold destroy_child. destruct (_childSchedulers n !! i); [|done].
    destruct (_quiesced s); [|done]. by intros [= <-].
  - by intros [= <-].
  - by intros [= <-].
  - unfold scheduleRemoteCommand_then. rewrite Hn. simpl. by intros [= <-].
  - by intros [= <-].
Qed.

(** A recorded shutdown reason stays whatever is done to the node. *)
Lemma node_run_keeps_shutdown
    (ops : list (@NodeOp BSONObj ReadPreferenceSetting Shard))
    (n n' : Scheduler) :
  isOK (_shutdownStatus n) = false → node_run ops n = Some n' →
  _shutdownStatus n' = _shutdownStatus n.
Proof.
  revert n. induction ops as [|op ops IH]; intros n Hn; simpl.
  - by intros [= <-].
  - destruct (node_step op n) as [n1|] eqn:Hstep; [|done].
    pose proof (node_step_keeps_shutdown _ _ _ Hn Hstep) as Hst.
    intros Hrun. rewrite <- Hst. apply IH; [by rewrite Hst|done].
Qed.

(** *** Remote commands *)

Ltac event_solver :=
  intros; rewrite ?elem_of_app, ?elem_of_cons, ?elem_of_nil;
  solve [intuition (discriminate || auto 10)].

Lemma targetHostAsync_events (env : Collaborators) shardId readPref :
  (_targetHostAsync env shardId readPref).1 = [] ∨
  (_targetHostAsync env shardId readPref).1 = [OperationContextFn] ∨
  (_targetHostAsync env shardId readPref).1
  = [OperationContextFn; GetShard shardId] ∨
  (_targetHostAsync env shardId readPref).1
  = [OperationContextFn; GetShard shardId;
     FindHostWithMaxWait shardId readPref].
Proof.
  unfold _targetHostAsync, scheduleWork.
  destruct (isOK (workAdmission env)); [|by left].
  destruct (negb (isOK (operationContextFn env))); [by right; left|].
  destruct (getShard env shardId); [by right; right; left|].
  destruct (negb (isOK (hangWhileTargetingRemoteHost env)));
    [by right; right; left|].
  by destruct (findHostWithMaxWait env t readPref); right; right; right.
Qed.

Lemma targetHostAsync_value (env : Collaborators) shardId readPref hs :
  (_targetHostAsync env shardId readPref).2 = Value hs →
  (_targetHostAsync env shardId readPref).1
  = [OperationContextFn; GetShard shardId;
     FindHostWithMaxWait shardId readPref].
Proof.
  unfold _targetHostAsync, scheduleWork.
  destruct (isOK (workAdmission env)); [|done].
  destruct (negb (isOK (operationContextFn env))); [done|].
  destruct (getShard env shardId); [done|].
  destruct (negb (isOK (hangWhileTargetingRemoteHost env))); [done|].
  by destruct (findHostWithMaxWait env t readPref).
Qed.

Lemma targetHostAsync_not_abort (env : Collaborators) shardId readPref :
  (_targetHostAsync env shardId readPref).2 ≠ Abort.
Proof.
  unfold _targetHostAsync, scheduleWork.
  destruct (isOK (workAdmission env)); [|done].
  destruct (negb (isOK (operationContextFn env))); [done|].
  destruct (getShard env shardId); [done|].
  destruct (negb (isOK (hangWhileTargetingRemoteHost env))); [done|].
  by destruct (findHostWithMaxWait env t readPref).
Qed.

(** The events of the non-local branch: those of targeting, followed by
    those of the continuation when targeting produced a host. *)
Lemma scheduleRemoteCommand_remote (env : Collaborators) shardId readPref
    commandObj (n : Scheduler) localShardId :
  getLocalShardId env = Some localShardId → shardId ≠ localShardId →
  scheduleRemoteCommand env shardId readPref commandObj n =
  match (_targetHostAsync env shardId readPref).2 with
  | Value hostAndShard =>
      let r := scheduleRemoteCommand_then env commandObj readPref
                 hostAndShard n in
      ((_targetHostAsync env shardId readPref).1 ++ r.1.1, Some (r.1.2, r.2))
  | Error s => ((_targetHostAsync env shardId readPref).1, Some (n, Failed s))
  | Abort => ((_targetHostAsync env shardId readPref).1, None)
  end.
Proof.
  intros Hlocal Hne. unfold scheduleRemoteCommand. rewrite Hlocal.
  rewrite bool_decide_eq_false_2 by done.
  destruct (_targetHostAsync env shardId readPref) as [ev [hs|s|]]; simpl;
    [|done..].
  by destruct (scheduleRemoteCommand_then env commandObj readPref hs n)
    as [[ev' n'] f].
Qed.

(** C10. On a node with a shutdown reason recorded, the continuation that
    follows targeting fails the future with that reason, calls nothing and
    adds no handle, and this whatever other operations have run on the node
    since the reason was recorded; so a call of [scheduleRemoteCommand] for
    another shard on such a node never calls the network executor. *)
Theorem C10_no_submit_after_shutdown (env : Collaborators) commandObj readPref
    (n : Scheduler) :
  isOK (_shutdownStatus n) = false →
  (∀ (ops : list (@NodeOp BSONObj ReadPreferenceSetting Shard)) n'
     hostAndShard,
     node_run ops n = Some n' →
     scheduleRemoteCommand_then env commandObj readPref hostAndShard n'
     = ([], n', Failed (_shutdownStatus n))) ∧
  (∀ shardId localShardId,
     getLocalShardId env = Some localShardId → shardId ≠ localShardId →
     ∃ (ev : list Event) s,
       scheduleRemoteCommand env shardId readPref commandObj n
       = (ev, Some (n, Failed s)) ∧
       (∀ host c rp, ExecutorScheduleRemoteCommand host c rp ∉ ev) ∧
       (∀ hostAndShard,
          (_targetHostAsync env shardId readPref).2 = Value hostAndShard →
          s = _shutdownStatus n)).
Proof.
  intros Hn. split.
  - intros ops n' hs Hrun.
    pose proof (node_run_keeps_shutdown _ _ _ Hn Hrun) as Hst.
    unfold scheduleRemoteCommand_then. by rewrite Hst, Hn.
  - intros shardId localShardId Hlocal Hne.
    rewrite (scheduleRemoteCommand_remote _ _ _ _ _ _ Hlocal Hne).
    pose proof (targetHostAsync_events env shardId readPref) as Hev.
    pose proof (targetHostAsync_not_abort env shardId readPref) as Hna.
    destruct (_targetHostAsync env shardId readPref) as [ev [hs|s|]];
      simpl in *; [| |done].
    + unfold scheduleRemoteCommand_then. rewrite Hn. simpl.
      eexists _, _. split; [done|]. split; [|done].
      intros host c rp. rewrite app_nil_r.
      destruct Hev as [-> | [-> | [-> | ->]]]; event_solver.
    + eexists _, _. split; [done|]. split; [|done].
      intros host c rp. destruct Hev as [-> | [-> | [-> | ->]]]; event_solver.
Qed.

(** C6. A command for this process's own shard id runs on the loopback
    path: no shard or host is looked up and the network executor is not
    called, and the request reaches the service entry point once the work
    runs. A command for any other shard id never reaches the service entry
    point, looks the shard up whenever the work runs, asks the targeter for a
    host whenever the shard is found, and calls the network executor only
    after the targeter has been asked. *)
Theorem C6_local_shortcut (env : Collaborators) shardId readPref commandObj
    (n : Scheduler) localShardId :
  getLocalShardId env = Some localShardId →
  let ev : list Event :=
    (scheduleRemoteCommand env shardId readPref commandObj n).1 in
  localShardId = (if decide (clusterRole env = ConfigServer)
                  then kConfigServerShardId env
                  else shardingStateShardId env) ∧
  (shardId = localShardId →
     (∀ sid, GetShard sid ∉ ev) ∧
     (∀ sid rp, FindHostWithMaxWait sid rp ∉ ev) ∧
     (∀ host c rp, ExecutorScheduleRemoteCommand host c rp ∉ ev) ∧
     (isOK (workAdmission env) = true →
      isOK (operationContextFn env) = true →
      isOK (hangWhileTargetingLocalHost env) = true →
      HandleRequest commandObj ∈ ev)) ∧
  (shardId ≠ localShardId →
     (∀ c, HandleRequest c ∉ ev) ∧
     (isOK (workAdmission env) = true →
      isOK (operationContextFn env) = true →
      GetShard shardId ∈ ev) ∧
     (∀ shard, isOK (workAdmission env) = true →
      isOK (operationContextFn env) = true →
      getShard env shardId = SWValue shard →
      isOK (hangWhileTargetingRemoteHost env) = true →
      FindHostWithMaxWait shardId readPref ∈ ev) ∧
     (∀ i host c rp,
        ev !! i = Some (ExecutorScheduleRemoteCommand host c rp) →
        ∃ j, j < i ∧ ev !! j = Some (FindHostWithMaxWait shardId readPref))).
Proof.
  intros Hlocal ev. split; [|split].
  - unfold getLocalShardId in Hlocal.
    by destruct (clusterRole env); simplify_eq.
  - intros ->. subst ev. unfold scheduleRemoteCommand. rewrite Hlocal.
    rewrite bool_decide_eq_true_2 by done.
    unfold scheduleWork, localCommandTask.
    destruct (isOK (workAdmission env)); simpl;
      [|repeat split; try done; event_solver].
    destruct (isOK (operationContextFn env)); simpl;
      [|repeat split; try done; event_solver].
    destruct (isOK (hangWhileTargetingLocalHost env)); simpl;
      [|repeat split; try done; event_solver].
    destruct (handleRequest env commandObj) as [s|replyOpMsg]; simpl;
      [repeat split; event_solver|].
    destruct (sequences replyOpMsg); simpl; repeat split; event_solver.
  - intros Hne. subst ev.
    rewrite (scheduleRemoteCommand_remote _ _ _ _ _ _ Hlocal Hne).
    unfold _targetHostAsync, scheduleWork.
    destruct (isOK (workAdmission env)); simpl;
      [|repeat split; try done; event_solver].
    destruct (isOK (operationContextFn env)); simpl;
      [|repeat split; try done; try event_solver; by intros [|[|?]]].
    destruct (getShard env shardId) as [s|shard]; simpl;
      [repeat split; try done; try event_solver; by intros [|[|[|?]]]|].
    destruct (isOK (hangWhileTargetingRemoteHost env)); simpl;
      [|repeat split; try done; try event_solver; by intros [|[|[|?]]]].
    destruct (findHostWithMaxWait env shard readPref) as [s|host]; simpl;
      [repeat split; try done; try event_solver; by intros [|[|[|[|?]]]]|].
    unfold scheduleRemoteCommand_then.
    destruct (isOK (_shutdownStatus n)); simpl;
      [|repeat split; try done; try event_solver; by intros [|[|[|[|?]]]]].
    destruct (executorScheduleRemoteCommand env host commandObj readPref);
      simpl; (repeat split; try done; try event_solver;
              intros [|[|[|[|?]]]] ????; simplify_eq/=;
              exists 2; split; [lia|done]).
Qed.

(** C7. When the transport outcome of a remote command is an error, the
    promise is resolved with the node's shutdown reason if the error is
    [CallbackCanceled] and a shutdown reason is recorded, with the
    cancellation error itself if none is recorded, and with the transport
    error unchanged if it is any other error. *)
Theorem C7_canceled_reports_shutdown (env : Collaborators) hostTargeted
    (response : ResponseStatus) (n : Scheduler) :
  isOK (status response) = false →
  (code (status response) = ErrorCodes.CallbackCanceled →
   isOK (_shutdownStatus n) = false →
   (remoteCommandCallback env hostTargeted response n).2
   = Error (_shutdownStatus n)) ∧
  (code (status response) = ErrorCodes.CallbackCanceled →
   isOK (_shutdownStatus n) = true →
   (remoteCommandCallback env hostTargeted response n).2
   = Error (status response)) ∧
  (code (status response) ≠ ErrorCodes.CallbackCanceled →
   (remoteCommandCallback env hostTargeted response n).2
   = Error (status response)).
Proof.
  intros Hfail. unfold remoteCommandCallback, status_is. rewrite Hfail. simpl.
  repeat split.
  - intros Hc Hn. rewrite bool_decide_eq_true_2 by done. by rewrite Hn.
  - intros Hc Hn. rewrite bool_decide_eq_true_2 by done. by rewrite Hn.
  - intros Hc. by rewrite bool_decide_eq_false_2.
Qed.

End theory.

Lemma C7_canceled_reports_shutdown_witness :
  (remoteCommandCallback Examples.shard_env "shardB:27017"
     Examples.canceled_response Examples.shut_down_node).2
  = Error Examples.stepping_down.
Proof.
  apply (C7_canceled_reports_shutdown Examples.shard_env "shardB:27017"
           Examples.canceled_response Examples.shut_down_node);
    reflexivity.
Defined.

Example shutdown_busy_node :
  shutdown (BSONObj:=string) (ReadPreferenceSetting:=string)
    Examples.stepping_down Examples.busy_node
  = Some (mkScheduler Examples.stepping_down [1%nat] [42%nat]
            [mkScheduler Examples.stepping_down [2%nat] [] []],
          [KillOperation 1%nat (ErrorCodes.OtherError 189); Cancel 42%nat;
           KillOperation 2%nat (ErrorCodes.OtherError 189)]).
Proof. reflexivity. Qed.

Lemma C8_shutdown_sticky_witness :
  ∃ (n' : Scheduler) (ev : list (@Event string string)),
    shutdown Examples.stepping_down Examples.busy_node = Some (n', ev) ∧
    _shutdownStatus n' = Examples.stepping_down ∧
    KillOperation 1%nat (ErrorCodes.OtherError 189) ∈ ev ∧
    Cancel 42%nat ∈ ev ∧
    shutdown Examples.canceled n' = Some (n', ([] : list (@Event string string))).
Proof.
  destruct (C8_shutdown_sticky (BSONObj:=string) (ReadPreferenceSetting:=string)
              Examples.stepping_down Examples.busy_node eq_refl eq_refl)
    as (n' & ev & Hsh & Hst & _ & _ & Hkill & Hcancel & _ & Hlater).
  exists n', ev. split; [exact Hsh|]. split; [exact Hst|].
  split; [apply Hkill; left|]. split; [apply Hcancel; left|].
  apply Hlater. reflexivity.
Defined.

Example scheduleRemoteCommand_other_shard :
  scheduleRemoteCommand Examples.shard_env "shardB" "primary" "prepare"
    new_scheduler
  = ([OperationContextFn; GetShard "shardB";
      FindHostWithMaxWait "shardB" "primary";
      ExecutorScheduleRemoteCommand "shardB:27017" "prepare" "primary"],
     Some (mkScheduler Status_OK [] [42%nat] [], Pending 42%nat)).
Proof. reflexivity. Qed.

Example scheduleRemoteCommand_own_shard :
  scheduleRemoteCommand Examples.shard_env "shardA" "primary" "prepare"
    new_scheduler
  = ([OperationContextFn; GrantInternalAuthorization; HandleRequest "prepare"],
     Some (new_scheduler, Ready (mkResponse "reply to prepare" 5 Status_OK))).
Proof. reflexivity. Qed.

Lemma C6_local_shortcut_witness :
  (∀ sid rp,
     FindHostWithMaxWait sid rp ∉
       (scheduleRemoteCommand Examples.shard_env "shardA" "primary" "prepare"
          new_scheduler).1) ∧
  FindHostWithMaxWait "shardB" "primary" ∈
    (scheduleRemoteCommand Examples.shard_env "shardB" "primary" "prepare"
       new_scheduler).1.
Proof.
  split.
  - apply (proj1 (proj2 (C6_local_shortcut Examples.shard_env "shardA"
                            "primary" "prepare" new_scheduler "shardA"
                            eq_refl))).
    reflexivity.
  - apply (proj2 (proj2 (C6_local_shortcut Examples.shard_env "shardB"
                            "primary" "prepare" new_scheduler "shardA"
                            eq_refl))) with (shard := "shardB");
      [discriminate | reflexivity..].
Defined.

Lemma C10_no_submit_after_shutdown_witness :
  scheduleRemoteCommand_then Examples.shard_env "prepare" "primary"
    (mkHostAndShard "shardB:27017" "shardB") Examples.shut_down_node
  = ([], Examples.shut_down_node, Failed Examples.stepping_down).
Proof.
  apply (proj1 (C10_no_submit_after_shutdown Examples.shard_env "prepare"
                  "primary" Examples.shut_down_node eq_refl) []).
  reflexivity.
Defined.

End SchedulerTheory.

(** * Further properties of the catalog *)

Module CatalogExtras.
Import TransactionCoordinatorCatalog CatalogTheory.

Section extras.
Context {LogicalSessionId : Type} `{Countable LogicalSessionId}.
Context {Coordinator : Type}.

#[local] Abbreviation State := (@State LogicalSessionId _ _ Coordinator).

Lemma state_eta (st : State) :
  mkState (_stepUpCompletionStatus st) (_coordinatorsBySession st) = st.
Proof. by destruct st. Qed.

Lemma registered_insert_ne (M : gmap LogicalSessionId (gmap TxnNumber Coordinator))
    s lsid t l' t' m (c : Coordinator) :
  default ∅ (M !! lsid) = m → (l', t') ≠ (lsid, t) →
  registered l' t' (mkState s (<[lsid := <[t := c]> m]> M)) =
  registered l' t' (mkState s M).
Proof.
  intros Hm Hne. unfold registered. simpl.
  destruct (decide (l' = lsid)) as [->|Hl].
  - rewrite lookup_insert_eq. simpl.
    rewrite lookup_insert_ne by congruence.
    destruct (M !! lsid); simpl in *; by subst.
  - by rewrite lookup_insert_ne.
Qed.

(** What [insert] does when it returns, and when it can return: the gate was
    open and the key free; the coordinator is registered under the key, the
    continuation gets that key, and no other key and not the step-up status
    changes. *)
Theorem insert_returns_only_fresh (st st' : State) opCtx lsid t c forStepUp
    r :
  insert opCtx lsid t c forStepUp st = Returned r st' →
  r = (lsid, t) ∧ gate_open forStepUp st ∧ registered lsid t st = None ∧
  registered lsid t st' = Some c ∧
  _stepUpCompletionStatus st' = _stepUpCompletionStatus st ∧
  ∀ l' t', (l', t') ≠ (lsid, t) →
           registered l' t' st' = registered l' t' st.
Proof.
  intros Hins.
  assert (Hgate : gate_open forStepUp st).
  { unfold insert, _waitForStepUpToComplete, waitForConditionOrInterrupt
      in Hins.
    destruct forStepUp; [by left|]. right.
    destruct (_stepUpCompletionStatus st) as [s|]; simpl in Hins;
      [|by destruct (isOK (checkForInterruptNoAssert opCtx))].
    destruct (isOK s) eqn:Hok; [|done]. by exists s. }
  assert (Hreg : registered lsid t st = None).
  { destruct (registered lsid t st) as [c0|] eqn:Hreg; [|done].
    unfold insert in Hins. rewrite (gate_open_passed _ _ _ Hgate) in Hins.
    unfold registered in Hreg.
    destruct (_coordinatorsBySession st !! lsid) as [m|] eqn:Hm; [|done].
    simpl in *. rewrite Hm in Hins. simpl in Hins. by rewrite Hreg in Hins. }
  rewrite (insert_returned _ _ _ c _ _ Hgate Hreg) in Hins.
  injection Hins as <- <-. repeat split; try done.
  - unfold registered. simpl. rewrite lookup_insert_eq. simpl.
    apply lookup_insert_eq.
  - intros l' t' Hne.
    rewrite (registered_insert_ne _ _ _ _ _ _ _ c eq_refl Hne).
    by rewrite state_eta.
Qed.

(** [_remove] is not gated and always returns; afterwards nothing is
    registered under the key, every other key is as before, and removing a
    key that is not registered leaves the catalog as it is. *)
Theorem remove_only_its_key (st : State) lsid t :
  ∃ notified st',
    _remove lsid t st = Returned notified st' ∧
    _stepUpCompletionStatus st' = _stepUpCompletionStatus st ∧
    registered lsid t st' = None ∧
    (∀ l' t', (l', t') ≠ (lsid, t) →
              registered l' t' st' = registered l' t' st) ∧
    (registered lsid t st = None → st' = st).
Proof.
  unfold _remove. eexists _, _. split; [done|]. simpl. split; [done|].
  unfold registered. simpl.
  destruct (_coordinatorsBySession st !! lsid) as [m|] eqn:Hm; simpl;
    [destruct (m !! t) as [c|] eqn:Hc|].
  - destruct (map_empty (delete t m)) eqn:Hempty;
      (split; [|split; [|done]]).
    + by rewrite lookup_delete_eq.
    + intros l' t' Hne. destruct (decide (l' = lsid)) as [->|Hl].
      * rewrite lookup_delete_eq, Hm. simpl.
        apply map_empty_true in Hempty.
        assert (t' ≠ t) by congruence.
        by rewrite <- (lookup_delete_ne m t t'), Hempty, lookup_empty.
      * by rewrite lookup_delete_ne.
    + rewrite lookup_insert_eq. simpl. apply lookup_delete_eq.
    + intros l' t' Hne. destruct (decide (l' = lsid)) as [->|Hl].
      * rewrite lookup_insert_eq, Hm. simpl.
        apply lookup_delete_ne. congruence.
      * by rewrite lookup_insert_ne.
  - split; [by rewrite Hm|]. split; [done|]. intros _. apply state_eta.
  - split; [by rewrite Hm|]. split; [done|]. intros _. apply state_eta.
Qed.

(** Registering a coordinator and running its completion continuation
    brings the catalog back to what it was, provided no session was present
    with an empty map. *)
Theorem insert_then_remove (st : State) lsid t c forStepUp :
  gate_open forStepUp st → no_empty_session st →
  registered lsid t st = None →
  ∃ st1 notified,
    (∀ opCtx, insert opCtx lsid t c forStepUp st = Returned (lsid, t) st1) ∧
    _remove lsid t st1 = Returned notified st.
Proof.
  intros Hgate Hinv Hreg.
  eexists _, _. split;
    [intros opCtx; apply (insert_returned opCtx _ _ c _ _ Hgate Hreg)|].
  unfold _remove. simpl.
  rewrite lookup_insert_eq. rewrite lookup_insert_eq.
  unfold registered in Hreg.
  destruct (_coordinatorsBySession st !! lsid) as [m|] eqn:Hm; simpl in *.
  - rewrite delete_insert_id by done.
    pose proof (Hinv _ _ Hm) as Hne. apply map_empty_false in Hne.
    rewrite Hne. rewrite insert_insert_eq, insert_id by done.
    by rewrite state_eta.
  - rewrite delete_insert_id by apply lookup_empty.
    assert (Hempty : map_empty (∅ : gmap TxnNumber Coordinator) = true)
      by by apply map_empty_true.
    rewrite Hempty. rewrite delete_insert_id by done.
    by rewrite state_eta.
Qed.

(** [onStepDown] is not gated and leaves the catalog as it is; the snapshot
    it hands to cancellation holds exactly the registered coordinators, one
    entry per registered key. *)
Theorem onStepDown_snapshot comp (st : State) :
  ∃ coordinatorsToCancel,
    onStepDown comp st = Returned coordinatorsToCancel st ∧
    (∀ c, c ∈ coordinatorsToCancel ↔
          ∃ lsid t, registered lsid t st = Some c) ∧
    length coordinatorsToCancel =
    sum_list_with (λ entry, size entry.2)
      (map_to_list (_coordinatorsBySession st)).
Proof.
  unfold onStepDown. eexists. split; [done|]. split.
  - intros c. rewrite list_elem_of_bind. split.
    + intros ([lsid m] & Hc & Hm). simpl in Hc.
      apply list_elem_of_fmap in Hc as ([t c'] & -> & Hin).
      apply elem_of_map_to_list in Hm.
      unfold in_order in Hin. rewrite merge_sort_Permutation in Hin.
      apply elem_of_map_to_list in Hin.
      exists lsid, t. unfold registered. by rewrite Hm.
    + intros (lsid & t & Hreg). unfold registered in Hreg.
      destruct (_coordinatorsBySession st !! lsid) as [m|] eqn:Hm; [|done].
      simpl in Hreg. exists (lsid, m). split.
      * simpl. apply list_elem_of_fmap. exists (t, c). split; [done|].
        unfold in_order. rewrite merge_sort_Permutation.
        by apply elem_of_map_to_list.
      * by apply elem_of_map_to_list.
  - induction (map_to_list (_coordinatorsBySession st)) as [|[lsid m] l IH];
      [done|].
    simpl. rewrite length_app. unfold mbind in IH. rewrite IH, length_fmap.
    f_equal.
    unfold in_order. rewrite merge_sort_Permutation.
    apply length_map_to_list.
Qed.

(** [exitStepUp] can be called once: on a catalog whose step-up is
    unresolved it returns and changes nothing but the status, and from then
    on, whatever calls follow, another [exitStepUp] fails its invariant. *)
Theorem exitStepUp_only_once comp (st : State) status :
  _stepUpCompletionStatus st = None →
  ∃ st1,
    exitStepUp status st = Returned () st1 ∧
    _coordinatorsBySession st1 = _coordinatorsBySession st ∧
    ∀ calls st2 status',
      run comp calls st1 = Some st2 → exitStepUp status' st2 = Fatal.
Proof.
  intros Hnone. unfold exitStepUp at 1. rewrite Hnone.
  eexists. split; [done|]. split; [done|].
  intros calls st2 status' Hrun.
  apply run_status with (s := status) in Hrun; [|done].
  unfold exitStepUp. by rewrite Hrun.
Qed.

(** Recovery: while step-up is unresolved a coordinator can be registered
    with [forStepUp], whatever the caller's operation context, although a
    [get] for it does not return: it blocks a caller whose context is not
    interrupted and throws the interruption of one whose context is. Once
    [exitStepUp] reports success, [get] returns the coordinator to every
    caller. *)
Theorem recovered_coordinator_visible (st : State) lsid t c ok :
  _stepUpCompletionStatus st = None → registered lsid t st = None →
  isOK ok = true →
  ∃ st1 st2,
    (∀ opCtx, insert opCtx lsid t c true st = Returned (lsid, t) st1) ∧
    (∀ opCtx, get opCtx lsid t st1 =
              if isOK (checkForInterruptNoAssert opCtx) then Blocked
              else Threw (checkForInterruptNoAssert opCtx) st1) ∧
    exitStepUp ok st1 = Returned () st2 ∧
    (∀ opCtx, get opCtx lsid t st2 = Returned (Some c) st2).
Proof.
  intros Hnone Hreg Hok.
  assert (Hgate : gate_open true st) by by left.
  eexists _, _. split;
    [intros opCtx; apply (insert_returned opCtx _ _ c _ _ Hgate Hreg)|].
  split; [|split].
  - intros opCtx. unfold get. rewrite wait_unresolved by done.
    by destruct (isOK (checkForInterruptNoAssert opCtx)).
  - unfold exitStepUp. simpl. by rewrite Hnone.
  - intros opCtx. unfold get.
    rewrite (wait_passed opCtx _ ok) by done. simpl.
    by rewrite !lookup_insert_eq.
Qed.

Lemma no_registration_iff_empty (st : State) :
  no_empty_session st →
  _coordinatorsBySession st = ∅ ↔ ∀ lsid t, registered lsid t st = None.
Proof.
  intros Hinv. unfold registered. split.
  - intros -> lsid t. by rewrite lookup_empty.
  - intros Hnone. apply fin_maps.map_empty. intros lsid.
    destruct (_coordinatorsBySession st !! lsid) as [m|] eqn:Hm; [|done].
    destruct (map_choose m (Hinv _ _ Hm)) as (t & c & Hc).
    specialize (Hnone lsid t). rewrite Hm in Hnone. simpl in Hnone.
    congruence.
Qed.

(** On a catalog without empty sessions, [_remove] notifies
    [_noActiveCoordinatorsCV] exactly when no coordinator is registered any
    more, and that is exactly when [join] returns. *)
Theorem remove_notifies_when_drained (st st' : State) lsid t notified :
  no_empty_session st →
  _remove lsid t st = Returned notified st' →
  (notified = true ↔ ∀ l' t', registered l' t' st' = None) ∧
  (notified = true ↔ join st' = Returned () st').
Proof.
  intros Hinv Hrm.
  pose proof (remove_preserves _ _ _ _ _ Hinv Hrm) as Hinv'.
  rewrite <- (no_registration_iff_empty _ Hinv').
  unfold _remove in Hrm. injection Hrm as <- <-. simpl. unfold join. simpl.
  split; [apply bool_decide_eq_true|]. by case_bool_decide.
Qed.

(** A coordinator registered under a transaction number that the map's
    comparator orders before every number of the session is the one
    [getLatestOnSession] returns next. *)
Theorem insert_then_getLatestOnSession comp `{!KeyCompare comp} (st : State)
    lsid t c forStepUp ok :
  _stepUpCompletionStatus st = Some ok → isOK ok = true →
  registered lsid t st = None →
  (∀ t', is_Some (registered lsid t' st) → comp t t' = true) →
  ∃ st1,
    (∀ opCtx, insert opCtx lsid t c forStepUp st = Returned (lsid, t) st1) ∧
    (∀ opCtx, getLatestOnSession comp opCtx lsid st1
              = Returned (Some (t, c)) st1).
Proof.
  intros Hs Hok Hreg Hbefore.
  assert (Hgate : gate_open forStepUp st) by (right; eauto).
  eexists. split;
    [intros opCtx; apply (insert_returned opCtx _ _ c _ _ Hgate Hreg)|].
  set (m := default ∅ (_coordinatorsBySession st !! lsid)).
  edestruct (getLatestOnSession_first comp
               (mkState (_stepUpCompletionStatus st)
                  (<[lsid := <[t := c]> m]> (_coordinatorsBySession st)))
               lsid ok (<[t := c]> m))
    as (k & c' & Hget & Hk & Hfirst); [done|done| | |].
  { simpl. apply lookup_insert_eq. }
  { apply insert_non_empty. }
  destruct (decide (k = t)) as [->|Hne].
  - rewrite lookup_insert_eq in Hk. by injection Hk as ->.
  - exfalso. rewrite lookup_insert_ne in Hk by done.
    assert (Hkt : comp k t = true).
    { apply Hfirst; [|done]. rewrite lookup_insert_eq. by eexists. }
    assert (Htk : comp t k = true).
    { apply Hbefore. unfold registered. subst m.
      destruct (_coordinatorsBySession st !! lsid); simpl in *; [by eexists|].
      by rewrite lookup_empty in Hk. }
    pose proof (comp_trans _ _ _ Hkt Htk) as Hkk.
    by rewrite comp_irrefl in Hkk.
Qed.

End extras.

Lemma two_txns_no_empty_session : no_empty_session Examples.two_txns.
Proof.
  apply (run_preserves std_greater
           [CallExitStepUp Status_OK;
            CallInsert Examples.live_context 7%nat 1%Z "c1" false;
            CallInsert Examples.live_context 7%nat 2%Z "c2" false]
           empty_catalog).
  - intros lsid m Hm. cbn in Hm. by rewrite lookup_empty in Hm.
  - vm_compute. reflexivity.
Qed.

Lemma failed_step_up_no_empty_session :
  no_empty_session Examples.failed_step_up.
Proof.
  apply (run_preserves std_greater
           [CallInsert Examples.live_context 7%nat 1%Z "c1" true;
            CallExitStepUp Examples.stepping_down] empty_catalog).
  - intros lsid m Hm. cbn in Hm. by rewrite lookup_empty in Hm.
  - vm_compute. reflexivity.
Qed.

Lemma insert_returns_only_fresh_witness :
  ∃ st', insert Examples.live_context 7%nat 5%Z "c5" false Examples.two_txns
         = Returned (7%nat, 5%Z) st' ∧
         gate_open false Examples.two_txns ∧
         registered 7%nat 5%Z Examples.two_txns = None ∧
         registered 7%nat 5%Z st' = Some "c5".
Proof.
  eexists. split; [reflexivity|].
  destruct (insert_returns_only_fresh Examples.two_txns _
              Examples.live_context 7%nat 5%Z "c5"
              false _ eq_refl) as (_ & Hgate & Hfree & Hreg & _).
  split; [exact Hgate|]. split; [exact Hfree | exact Hreg].
Defined.

Lemma insert_then_remove_witness :
  ∃ st1 notified,
    (∀ opCtx, insert opCtx 7%nat 5%Z "c5" false Examples.two_txns
              = Returned (7%nat, 5%Z) st1) ∧
    _remove 7%nat 5%Z st1 = Returned notified Examples.two_txns.
Proof.
  apply (insert_then_remove Examples.two_txns 7%nat 5%Z "c5" false).
  - right. exists Status_OK. split; reflexivity.
  - exact two_txns_no_empty_session.
  - reflexivity.
Defined.

Lemma exitStepUp_only_once_witness :
  ∃ st1, exitStepUp Status_OK Examples.recovering = Returned () st1 ∧
         exitStepUp Examples.stepping_down st1 = Fatal.
Proof.
  destruct (exitStepUp_only_once std_greater Examples.recovering Status_OK
              eq_refl) as (st1 & Hexit & _ & Hlater).
  exists st1. split; [exact Hexit|].
  exact (Hlater [] st1 Examples.stepping_down eq_refl).
Defined.

Lemma recovered_coordinator_visible_witness :
  ∃ st1 st2,
    insert Examples.killed_context 7%nat 1%Z "c1" true Examples.recovering
    = Returned (7%nat, 1%Z) st1 ∧
    get Examples.live_context 7%nat 1%Z st1 = Blocked ∧
    get Examples.killed_context 7%nat 1%Z st1
    = Threw Examples.interrupted st1 ∧
    exitStepUp Status_OK st1 = Returned () st2 ∧
    get Examples.killed_context 7%nat 1%Z st2 = Returned (Some "c1") st2.
Proof.
  destruct (recovered_coordinator_visible Examples.recovering 7%nat 1%Z "c1"
              Status_OK eq_refl eq_refl eq_refl)
    as (st1 & st2 & Hins & Hget & Hexit & Hget').
  exists st1, st2. split; [apply Hins|].
  split; [exact (Hget Examples.live_context)|].
  split; [exact (Hget Examples.killed_context)|].
  split; [exact Hexit | apply Hget'].
Defined.

Lemma remove_notifies_when_drained_witness :
  ∃ st', _remove 7%nat 1%Z Examples.failed_step_up = Returned true st' ∧
         join st' = Returned () st'.
Proof.
  eexists. split; [reflexivity|].
  destruct (remove_notifies_when_drained Examples.failed_step_up _ 7%nat 1%Z
              true failed_step_up_no_empty_session eq_refl) as [_ [Hjoin _]].
  exact (Hjoin eq_refl).
Defined.

Lemma insert_then_getLatestOnSession_witness :
  ∃ st1,
    (∀ opCtx, insert opCtx 7%nat 5%Z "c5" false Examples.two_txns
              = Returned (7%nat, 5%Z) st1) ∧
    (∀ opCtx, getLatestOnSession std_greater opCtx 7%nat st1
              = Returned (Some (5%Z, "c5")) st1).
Proof.
  apply (insert_then_getLatestOnSession std_greater
           (KeyCompare0 := std_greater_compare) Examples.two_txns 7%nat 5%Z
           "c5" false Status_OK); [reflexivity..|].
  intros t' [c Hc]. unfold registered, Examples.two_txns in Hc.
  cbn [_coordinatorsBySession] in Hc.
  rewrite lookup_singleton_eq in Hc. cbn [mbind option_bind] in Hc.
  apply lookup_insert_Some in Hc as [[<- _]|[_ Hc]]; [reflexivity|].
  apply lookup_singleton_Some in Hc as [<- _]. reflexivity.
Defined.

End CatalogExtras.

(** * Further properties of the scheduler *)

Module SchedulerExtras.
Import AsyncWorkScheduler SchedulerTree SchedulerTheory.

Section extras.
Context {BSONObj ReadPreferenceSetting Shard : Type}.

#[local] Abbreviation Collaborators :=
  (@Collaborators BSONObj ReadPreferenceSetting Shard).
#[local] Abbreviation Event := (@Event BSONObj ReadPreferenceSetting).
#[local] Abbreviation NodeOp := (@NodeOp BSONObj ReadPreferenceSetting Shard).
#[local] Abbreviation shutdown :=
  (@shutdown BSONObj ReadPreferenceSetting).
#[local] Abbreviation shutdown_each :=
  (@shutdown_each BSONObj ReadPreferenceSetting).

Lemma scheduler_eta (n : Scheduler) :
  mkScheduler (_shutdownStatus n) (_activeOpContexts n) (_activeHandles n)
    (_childSchedulers n) = n.
Proof. by destruct n. Qed.

(** *** Shutdown cancels, it does not drain *)

Lemma shutdown_each_bookkeeping reason cs cs' (evs : list Event) :
  Forall (λ c, ∀ c' (ev : list Event),
            shutdown reason c = Some (c', ev) →
            bookkeeping c' = bookkeeping c) cs →
  shutdown_each reason cs = Some (cs', evs) →
  map bookkeeping cs' = map bookkeeping cs.
Proof.
  intros Hall. revert cs' evs.
  induction Hall as [|c cs Hc _ IH]; intros cs' evs; simpl.
  - by intros [= <- <-].
  - destruct (shutdown reason c) as [[c' ev]|] eqn:Hsh; [|done].
    destruct (shutdown_each reason cs) as [[rest' evs']|] eqn:Hrest; [|done].
    intros [= <- <-]. simpl. f_equal; [by eapply Hc|by eapply IH].
Qed.

(** [shutdown] changes statuses only: at every node of the subtree the
    active contexts, the handles and the children stay registered, so a node
    is quiescent after [shutdown] exactly if it was before, and [join] on it
    returns exactly if it would have before. *)
Theorem shutdown_keeps_bookkeeping reason (n n' : Scheduler)
    (ev : list Event) :
  shutdown reason n = Some (n', ev) →
  bookkeeping n' = bookkeeping n ∧
  _quiesced n' = _quiesced n ∧
  join n' = join n.
Proof.
  intros Hsh.
  assert (Hbk : bookkeeping n' = bookkeeping n).
  { revert n' ev Hsh.
    induction n as [s ctxs hs cs IH] using Scheduler_nested_ind.
    intros n' ev. rewrite shutdown_unfold.
    destruct (isOK reason); [done|].
    destruct (negb (isOK s)); [by intros [= <- _]|].
    destruct (shutdown_each reason cs) as [[cs' evs]|] eqn:Heach; [|done].
    intros [= <- _]. simpl. f_equal.
    by eapply shutdown_each_bookkeeping. }
  split; [done|].
  assert (Hq : _quiesced n' = _quiesced n); [|by unfold join].
  destruct n as [s ctxs hs cs], n' as [s' ctxs' hs' cs'].
  simpl in Hbk. injection Hbk as -> -> Hcs. unfold _quiesced. simpl.
  f_equal. destruct cs, cs'; simpl in *; congruence.
Qed.

(** *** Shutdown reaches the whole subtree *)

Lemma forallb_Forall_true {A} (f : A → bool) (l : list A) :
  forallb f l = true ↔ Forall (λ x, f x = true) l.
Proof.
  induction l as [|x l IH]; simpl; [by split; [constructor|]|].
  rewrite andb_true_iff, IH, Forall_cons. done.
Qed.

Lemma shutdown_closed_unfold s ctxs hs cs :
  shutdown_closed (mkScheduler s ctxs hs cs) = true ↔
  (isOK s = false → Forall (λ c, is_shut_down c = true) cs) ∧
  Forall (λ c, shutdown_closed c = true) cs.
Proof.
  cbn [shutdown_closed]. rewrite <- !forallb_Forall_true.
  destruct (isOK s); cbn [orb]; rewrite ?Bool.andb_true_iff;
    intuition congruence.
Qed.

(** Under a node that is shut down, every node is shut down. *)
Lemma shut_down_subtree (n : Scheduler) :
  shutdown_closed n = true → is_shut_down n = true →
  Forall (λ d, is_shut_down d = true) (all_nodes n).
Proof.
  induction n as [s ctxs hs cs IH] using Scheduler_nested_ind.
  intros Hclosed Hdead. apply shutdown_closed_unfold in Hclosed as [Hcs Hcl].
  simpl. constructor; [done|].
  unfold is_shut_down in Hdead. simpl in Hdead.
  apply negb_true_iff in Hdead. specialize (Hcs Hdead).
  clear Hdead. induction cs as [|c cs IHcs]; simpl; [constructor|].
  apply Forall_cons in IH as [IHc IH], Hcs as [Hc Hcs], Hcl as [Hclc Hcl].
  apply Forall_app. split; [by apply IHc|by apply IHcs].
Qed.

Lemma shutdown_reached reason (n n' : Scheduler) (ev : list Event) :
  isOK reason = false → shutdown_closed n = true →
  shutdown reason n = Some (n', ev) →
  Forall2 (λ d d', _shutdownStatus d' =
                   if isOK (_shutdownStatus d) then reason
                   else _shutdownStatus d)
    (all_nodes n) (all_nodes n') ∧
  shutdown_closed n' = true ∧
  ∀ d, d ∈ all_nodes n → isOK (_shutdownStatus d) = true →
       (∀ opCtx, opCtx ∈ _activeOpContexts d →
                 KillOperation opCtx (code reason) ∈ ev) ∧
       (∀ h, h ∈ _activeHandles d → Cancel h ∈ ev).
Proof.
  intros Hr. revert n' ev.
  induction n as [s ctxs hs cs IH] using Scheduler_nested_ind.
  intros n' ev Hclosed. rewrite shutdown_unfold, Hr.
  destruct (isOK s) eqn:Hs; simpl.
  - destruct (shutdown_each reason cs) as [[cs' evs]|] eqn:Heach; [|done].
    intros [= <- <-].
    apply shutdown_closed_unfold in Hclosed as [_ Hcl].
    assert (Hchildren :
      Forall2 (λ d d', _shutdownStatus d' =
                       if isOK (_shutdownStatus d) then reason
                       else _shutdownStatus d)
        (flat_map all_nodes cs) (flat_map all_nodes cs') ∧
      Forall (λ c, is_shut_down c = true) cs' ∧
      Forall (λ c, shutdown_closed c = true) cs' ∧
      ∀ d, d ∈ flat_map all_nodes cs → isOK (_shutdownStatus d) = true →
           (∀ opCtx, opCtx ∈ _activeOpContexts d →
                     KillOperation opCtx (code reason) ∈ evs) ∧
           (∀ h, h ∈ _activeHandles d → Cancel h ∈ evs)).
    { clear ctxs hs Hs. revert cs' evs Heach.
      induction cs as [|c cs IHcs]; intros cs' evs; simpl.
      - intros [= <- <-]. simpl. repeat split; try constructor;
          intros; by match goal with H : _ ∈ [] |- _ =>
                       apply elem_of_nil in H end.
      - destruct (shutdown reason c) as [[c' ev]|] eqn:Hc; [|done].
        destruct (shutdown_each reason cs) as [[rest' evs']|] eqn:Hrest;
          [|done].
        intros [= <- <-].
        apply Forall_cons in IH as [IHc IH], Hcl as [Hclc Hcl].
        destruct (IHc _ _ Hclc Hc) as (Hst & Hcl' & Hev).
        destruct (IHcs IH Hcl _ _ eq_refl) as (Hst' & Hdead' & Hcls' & Hev').
        simpl. split; [by apply Forall2_app|]. split.
        { constructor; [|done].
          pose proof (shutdown_status _ _ _ _ Hc) as Hsc.
          unfold is_shut_down. rewrite Hsc.
          destruct (isOK (_shutdownStatus c)) eqn:Hok; by rewrite ?Hr, ?Hok. }
        split; [by constructor|].
        intros d Hd Hlive. apply elem_of_app in Hd as [Hd|Hd].
        + destruct (Hev d Hd Hlive) as [Hk Hca].
          split; intros; apply elem_of_app; left; eauto.
        + destruct (Hev' d Hd Hlive) as [Hk Hca].
          split; intros; apply elem_of_app; right; eauto. }
    destruct Hchildren as (Hst & Hdead & Hcls & Hev).
    split; [|split].
    + cbn [all_nodes]. constructor; [|done].
      cbn [_shutdownStatus]. by rewrite Hs.
    + apply shutdown_closed_unfold. by split.
    + intros d Hd Hlive. simpl in Hd. apply elem_of_cons in Hd as [->|Hd].
      * simpl. split.
        -- intros opCtx Hin. apply elem_of_app. left.
           apply list_elem_of_fmap. by exists opCtx.
        -- intros h Hin. apply elem_of_app. right. apply elem_of_app. left.
           apply list_elem_of_fmap. by exists h.
      * destruct (Hev d Hd Hlive) as [Hk Hca].
        split; intros; do 2 (apply elem_of_app; right); eauto.
  - intros [= <- <-].
    assert (Hdead : is_shut_down (mkScheduler s ctxs hs cs) = true).
    { unfold is_shut_down. simpl. by rewrite Hs. }
    pose proof (shut_down_subtree _ Hclosed Hdead) as Hall.
    split; [|split; [done|]].
    + apply Forall_Forall2_diag. eapply Forall_impl; [exact Hall|].
      intros d Hd. unfold is_shut_down in Hd.
      apply negb_true_iff in Hd. by rewrite Hd.
    + intros d Hd Hlive. rewrite Forall_forall in Hall.
      specialize (Hall _ Hd). unfold is_shut_down in Hall.
      apply negb_true_iff in Hall. congruence.
Qed.

(** In a tree where no live node sits under a node that is shut down,
    [shutdown reason] leaves every node of the subtree shut down: the nodes
    that were live now carry [reason], the others keep their own reason. For
    every node that was live, each of its active contexts has been killed
    with the code of [reason] and each of its handles cancelled. *)
Theorem shutdown_reaches_subtree reason (n n' : Scheduler)
    (ev : list Event) :
  isOK reason = false → shutdown_closed n = true →
  shutdown reason n = Some (n', ev) →
  Forall (λ d', isOK (_shutdownStatus d') = false) (all_nodes n') ∧
  Forall2 (λ d d', _shutdownStatus d' =
                   if isOK (_shutdownStatus d) then reason
                   else _shutdownStatus d)
    (all_nodes n) (all_nodes n') ∧
  (∀ d, d ∈ all_nodes n → isOK (_shutdownStatus d) = true →
        (∀ opCtx, opCtx ∈ _activeOpContexts d →
                  KillOperation opCtx (code reason) ∈ ev) ∧
        (∀ h, h ∈ _activeHandles d → Cancel h ∈ ev)).
Proof.
  intros Hr Hclosed Hsh.
  destruct (shutdown_reached _ _ _ _ Hr Hclosed Hsh) as (Hst & _ & Hev).
  split; [|by split].
  clear Hev. induction Hst as [|d d' l l' Hd _ IH]; constructor; [|done].
  rewrite Hd. by destruct (isOK (_shutdownStatus d)) eqn:Hok.
Qed.

(** *** Children *)

Lemma makeChildScheduler_unfold (n : Scheduler) :
  makeChildScheduler (BSONObj:=BSONObj)
    (ReadPreferenceSetting:=ReadPreferenceSetting) n =
  Some (mkScheduler (_shutdownStatus n) (_activeOpContexts n)
          (_activeHandles n)
          (mkScheduler (if isOK (_shutdownStatus n) then Status_OK
                        else _shutdownStatus n) [] [] []
           :: _childSchedulers n)).
Proof.
  unfold makeChildScheduler.
  destruct (isOK (_shutdownStatus n)) eqn:Hs; [done|]. simpl.
  unfold new_scheduler. by rewrite Hs.
Qed.

(** [makeChildScheduler] always returns. The child is at the head of the
    parent's list, has no work of its own, is live under a live parent and
    carries the parent's shutdown reason under a parent that is shut down.
    While the child is registered the parent is not quiescent; destroying
    the child gives back the parent as it was before, with the wake-up that
    the parent's own state calls for. *)
Theorem makeChildScheduler_then_destroy (n : Scheduler) :
  ∃ child,
    makeChildScheduler (BSONObj:=BSONObj)
      (ReadPreferenceSetting:=ReadPreferenceSetting) n =
    Some (mkScheduler (_shutdownStatus n) (_activeOpContexts n)
            (_activeHandles n) (child :: _childSchedulers n)) ∧
    _quiesced child = true ∧
    _shutdownStatus child =
      (if isOK (_shutdownStatus n) then Status_OK else _shutdownStatus n) ∧
    join (mkScheduler (_shutdownStatus n) (_activeOpContexts n)
            (_activeHandles n) (child :: _childSchedulers n)) = false ∧
    destroy_child (BSONObj:=BSONObj)
      (ReadPreferenceSetting:=ReadPreferenceSetting) 0
      (mkScheduler (_shutdownStatus n) (_activeOpContexts n)
         (_activeHandles n) (child :: _childSchedulers n)) =
    Some (n, _notifyAllTasksComplete n).
Proof.
  eexists. split; [apply makeChildScheduler_unfold|].
  split; [done|]. split; [done|]. split.
  - unfold join, _quiesced. simpl. by rewrite andb_false_r.
  - unfold destroy_child. simpl. by rewrite scheduler_eta.
Qed.

Ltac fields :=
  cbn [_shutdownStatus _activeOpContexts _activeHandles _childSchedulers]
    in *.

Lemma node_step_closed (op : NodeOp) (n n' : Scheduler) :
  shutdown_closed n = true → node_step op n = Some n' →
  shutdown_closed n' = true.
Proof.
  intros Hclosed. destruct op; simpl.
  - destruct (shutdown s n) as [[n1 ev]|] eqn:Hsh; [|done].
    intros [= <-]. simpl.
    destruct (isOK s) eqn:Hs.
    + destruct n. rewrite shutdown_unfold, Hs in Hsh. done.
    + by destruct (shutdown_reached _ _ _ _ Hs Hclosed Hsh) as (_ & ? & _).
  - rewrite makeChildScheduler_unfold. intros [= <-].
    destruct n as [s ctxs hs cs]. fields.
    apply shutdown_closed_unfold in Hclosed as [Hdead Hcl].
    apply shutdown_closed_unfold. split.
    + intros Hs. rewrite Hs. constructor; [|by apply Hdead].
      unfold is_shut_down. fields. by rewrite Hs.
    + constructor; [|done]. cbn [shutdown_closed forallb].
      by rewrite orb_true_r.
  - unfold destroy_child. destruct (_childSchedulers n !! i); [|done].
    destruct (_quiesced s); [|done]. intros [= <-].
    destruct n as [s' ctxs hs cs]. fields.
    apply shutdown_closed_unfold in Hclosed as [Hdead Hcl].
    apply shutdown_closed_unfold. split.
    + intros Hs. by apply Forall_delete, Hdead.
    + by apply Forall_delete.
  - intros [= <-]. by destruct n.
  - intros [= <-]. by destruct n.
  - unfold scheduleRemoteCommand_then.
    destruct (negb (isOK (_shutdownStatus n))); simpl; [by intros [= <-]|].
    destruct (executorScheduleRemoteCommand _ _ _ _); simpl; intros [= <-];
      by destruct n.
  - intros [= <-]. by destruct n.
Qed.

Lemma node_step_stays_shut_down (op : NodeOp) (n n' : Scheduler) :
  is_shut_down n = true → node_step op n = Some n' →
  is_shut_down n' = true.
Proof.
  unfold is_shut_down. intros Hdead Hstep.
  apply negb_true_iff in Hdead.
  by rewrite (node_step_keeps_shutdown _ _ _ Hdead Hstep), Hdead.
Qed.

Lemma node_step_at_closed path (op : NodeOp) (n n' : Scheduler) :
  shutdown_closed n = true → node_step_at path op n = Some n' →
  shutdown_closed n' = true ∧
  (is_shut_down n = true → is_shut_down n' = true).
Proof.
  revert n n'. induction path as [|i path IH]; intros n n' Hclosed; simpl.
  - intros Hstep. split; [by eapply node_step_closed|].
    intros Hdead. by eapply node_step_stays_shut_down.
  - destruct (_childSchedulers n !! i) as [child|] eqn:Hi; [|done].
    destruct (node_step_at path op child) as [child'|] eqn:Hstep; [|done].
    intros [= <-]. destruct n as [s ctxs hs cs]. fields.
    apply shutdown_closed_unfold in Hclosed as [Hdead Hcl].
    assert (Hchild : shutdown_closed child = true).
    { rewrite Forall_forall in Hcl. apply Hcl.
      by eapply list_elem_of_lookup_2. }
    destruct (IH _ _ Hchild Hstep) as [Hcl' Hdead'].
    split; [|done]. apply shutdown_closed_unfold. split.
    + intros Hs. specialize (Hdead Hs). apply Forall_insert; [done|].
      apply Hdead'. rewrite Forall_forall in Hdead. apply Hdead.
      by eapply list_elem_of_lookup_2.
    + by apply Forall_insert.
Qed.

(** Whatever operations are applied, at the root or at any descendant, to
    a tree grown from a fresh root, no live node is ever registered under a
    node that is shut down; so a [shutdown] at the root of such a tree
    leaves every node of the tree shut down. *)
Theorem no_live_node_under_shut_down
    (ops : list (list nat * NodeOp)) (n : Scheduler) :
  tree_run ops new_scheduler = Some n →
  shutdown_closed n = true ∧
  ∀ reason n' (ev : list Event),
    isOK reason = false → shutdown reason n = Some (n', ev) →
    Forall (λ d, isOK (_shutdownStatus d) = false) (all_nodes n').
Proof.
  intros Hrun.
  assert (Hclosed : shutdown_closed n = true).
  { assert (Hnew : shutdown_closed new_scheduler = true) by done.
    revert Hrun Hnew. generalize new_scheduler as m. revert n.
    induction ops as [|[path op] ops IH]; intros n m; simpl.
    - by intros [= <-].
    - destruct (node_step_at path op m) as [m'|] eqn:Hstep; [|done].
      intros Hrun Hm. eapply IH; [done|].
      by eapply node_step_at_closed. }
  split; [done|]. intros reason n' ev Hr Hsh.
  destruct (shutdown_reached _ _ _ _ Hr Hclosed Hsh) as (Hst & _ & _).
  induction Hst as [|d d' l l' Hd _ IH]; constructor; [|done].
  rewrite Hd. by destruct (isOK (_shutdownStatus d)) eqn:Hok.
Qed.

(** *** Remote commands *)

Ltac trace_solver :=
  let Hin := fresh in
  intros ??? Hin; rewrite ?elem_of_app, ?elem_of_cons, ?elem_of_nil in Hin;
  solve [intuition discriminate].

Lemma erase_head {A} `{EqDecision A} (x : A) (l : list A) :
  erase x (x :: l) = l.
Proof. simpl. by rewrite decide_True. Qed.

Lemma command_accepted (env : Collaborators) commandObj readPref
    (hostAndShard : HostAndShard) (n : Scheduler) h :
  isOK (_shutdownStatus n) = true →
  executorScheduleRemoteCommand env (hostTargeted hostAndShard) commandObj
    readPref = SWValue h →
  scheduleRemoteCommand_then env commandObj readPref hostAndShard n =
  ([ExecutorScheduleRemoteCommand (hostTargeted hostAndShard) commandObj
      readPref],
   mkScheduler (_shutdownStatus n) (_activeOpContexts n)
     (h :: _activeHandles n) (_childSchedulers n),
   Pending h).
Proof.
  intros Hlive Hexec. unfold scheduleRemoteCommand_then.
  by rewrite Hlive, Hexec.
Qed.

(** A command the executor accepts on a live node is tracked from then on:
    its handle leads [_activeHandles], [join] on the node does not return,
    and the [tapAll] continuation of its future gives back the node as it
    was before the command, with the wake-up that state calls for. *)
Theorem command_handle_tracked (env : Collaborators) commandObj readPref
    (hostAndShard : HostAndShard) (n : Scheduler) h :
  isOK (_shutdownStatus n) = true →
  executorScheduleRemoteCommand env (hostTargeted hostAndShard) commandObj
    readPref = SWValue h →
  ∃ n1 : Scheduler,
    scheduleRemoteCommand_then env commandObj readPref hostAndShard n =
    ([ExecutorScheduleRemoteCommand (hostTargeted hostAndShard) commandObj
        readPref], n1, Pending h) ∧
    _shutdownStatus n1 = _shutdownStatus n ∧
    _activeHandles n1 = h :: _activeHandles n ∧
    join n1 = false ∧
    tapAll (BSONObj:=BSONObj) (ReadPreferenceSetting:=ReadPreferenceSetting)
      h n1 = (n, _notifyAllTasksComplete n).
Proof.
  intros Hlive Hexec. rewrite (command_accepted _ _ _ _ _ _ Hlive Hexec).
  eexists. split; [done|].
  split; [done|]. split; [done|]. split.
  - unfold join, _quiesced. simpl. by rewrite andb_false_r.
  - unfold tapAll. fields. by rewrite erase_head, scheduler_eta.
Qed.

(** From scheduling to shutdown to the executor's callback: a command in
    flight on a node gets its handle cancelled by [shutdown reason], the
    cancellation the executor then reports resolves the command's future
    with [reason], and a command that reaches its continuation afterwards
    fails with [reason] too. *)
Theorem shutdown_cancels_command_in_flight (env : Collaborators) commandObj
    readPref (hostAndShard : HostAndShard) (n : Scheduler) h reason
    (response : ResponseStatus) :
  isOK (_shutdownStatus n) = true →
  executorScheduleRemoteCommand env (hostTargeted hostAndShard) commandObj
    readPref = SWValue h →
  isOK reason = false →
  code (status response) = ErrorCodes.CallbackCanceled →
  ∃ (n1 n2 : Scheduler) (ev ev1 : list Event),
    scheduleRemoteCommand_then env commandObj readPref hostAndShard n =
    (ev1, n1, Pending h) ∧
    shutdown reason n1 = Some (n2, ev) ∧
    Cancel h ∈ ev ∧
    h ∈ _activeHandles n2 ∧
    (remoteCommandCallback env (hostTargeted hostAndShard) response n2).2 =
    Error reason ∧
    scheduleRemoteCommand_then env commandObj readPref hostAndShard n2 =
    ([], n2, Failed reason).
Proof.
  intros Hlive Hexec Hr Hcode.
  pose proof (command_accepted _ _ _ _ _ _ Hlive Hexec) as Hthen.
  set (n1 := mkScheduler _ _ _ _) in Hthen.
  assert (Hst1 : _shutdownStatus n1 = _shutdownStatus n) by done.
  assert (Hh1 : _activeHandles n1 = h :: _activeHandles n) by done.
  clearbody n1.
  destruct (shutdown_is_Some (BSONObj:=BSONObj)
              (ReadPreferenceSetting:=ReadPreferenceSetting) reason n1 Hr)
    as [[n2 ev] Hsh].
  pose proof (shutdown_status _ _ _ _ Hsh) as Hst2.
  rewrite Hst1, Hlive in Hst2.
  exists n1, n2, ev. eexists. split; [done|]. split; [done|].
  destruct n1 as [s1 ctxs1 hs1 cs1]. fields.
  rewrite shutdown_unfold, Hr in Hsh. subst s1 hs1. rewrite Hlive in Hsh.
  cbn [negb] in Hsh.
  destruct (shutdown_each reason cs1) as [[cs' evs]|]; [|done].
  injection Hsh as <- <-. fields. split; [|split; [by left|split]].
  - apply elem_of_app. right. by left.
  - unfold remoteCommandCallback, status_is, isOK at 1.
    rewrite Hcode. rewrite bool_decide_eq_false_2 by done.
    rewrite bool_decide_eq_true_2 by done. fields. by rewrite Hr.
  - unfold scheduleRemoteCommand_then. fields. by rewrite Hr.
Qed.

(** For another shard, the future is left pending on a handle exactly when
    every step succeeds — the work runs, the caller's setup returns, the
    shard is found, the pause ends, the targeter yields a host, the node is
    live and the executor accepts — and otherwise it has failed with the
    node unchanged. The network executor is only ever called on a live node,
    with the host the targeter returned and the caller's command and read
    preference. *)
Theorem remote_command_outcome (env : Collaborators) shardId localShardId
    readPref commandObj (n : Scheduler) :
  getLocalShardId env = Some localShardId → shardId ≠ localShardId →
  let out := scheduleRemoteCommand env shardId readPref commandObj n in
  (∀ h, (∃ n', out.2 = Some (n', Pending h)) ↔
        isOK (workAdmission env) = true ∧
        isOK (operationContextFn env) = true ∧
        isOK (hangWhileTargetingRemoteHost env) = true ∧
        isOK (_shutdownStatus n) = true ∧
        ∃ shard host,
          getShard env shardId = SWValue shard ∧
          findHostWithMaxWait env shard readPref = SWValue host ∧
          executorScheduleRemoteCommand env host commandObj readPref
          = SWValue h) ∧
  ((∀ n' h, out.2 ≠ Some (n', Pending h)) → ∃ s, out.2 = Some (n, Failed s)) ∧
  (∀ host c rp,
     ExecutorScheduleRemoteCommand host c rp ∈ out.1 →
     c = commandObj ∧ rp = readPref ∧ isOK (_shutdownStatus n) = true ∧
     ∃ shard, getShard env shardId = SWValue shard ∧
              findHostWithMaxWait env shard readPref = SWValue host).
Proof.
  intros Hlocal Hne out. subst out.
  rewrite (scheduleRemoteCommand_remote _ _ _ _ _ _ Hlocal Hne).
  unfold _targetHostAsync, scheduleWork, scheduleRemoteCommand_then.
  destruct (isOK (workAdmission env)); simpl.
  2: { split; [|split]; [| by eauto | by intros ??? ?%elem_of_nil].
       intros h. split; [by intros [? ?]|]. by intros (? & _). }
  destruct (isOK (operationContextFn env)); simpl.
  2: { split; [|split]; [| by eauto | trace_solver].
       intros h. split; [by intros [? ?]|]. by intros (_ & ? & _). }
  destruct (getShard env shardId) as [s|shard]; simpl.
  { split; [|split]; [| by eauto | trace_solver].
    intros h. split; [by intros [? ?]|].
    by intros (_ & _ & _ & _ & ? & ? & ? & _). }
  destruct (isOK (hangWhileTargetingRemoteHost env)); simpl.
  2: { split; [|split]; [| by eauto | trace_solver].
       intros h. split; [by intros [? ?]|]. by intros (_ & _ & ? & _). }
  destruct (findHostWithMaxWait env shard readPref) as [s|host] eqn:Hhost;
    simpl.
  { split; [|split]; [| by eauto | trace_solver].
    intros h. split; [by intros [? ?]|].
    intros (_ & _ & _ & _ & ? & ? & ? & ? & _). congruence. }
  destruct (isOK (_shutdownStatus n)); simpl.
  2: { split; [|split]; [| by eauto | trace_solver].
       intros h. split; [by intros [? ?]|]. by intros (_ & _ & _ & ? & _). }
  destruct (executorScheduleRemoteCommand env host commandObj readPref)
    as [s|h'] eqn:Hexec; simpl.
  - split; [|split]; [| by eauto |].
    + intros h. split; [by intros [? ?]|].
      intros (_ & _ & _ & _ & ? & ? & ? & ? & ?). congruence.
    + intros host' c rp. rewrite !elem_of_cons, elem_of_nil.
      intros [?|[?|[?|[?|[]]]]]; simplify_eq. eauto 10.
  - split; [|split].
    + intros h. split.
      * intros [n' [= <- <-]]. eauto 12.
      * intros (_ & _ & _ & _ & shard' & host' & Hs' & Hh' & He').
        injection Hs' as <-. rewrite Hhost in Hh'. injection Hh' as <-.
        rewrite Hexec in He'. injection He' as <-. eauto.
    + intros Hnever. exfalso. by eapply Hnever.
    + intros host' c rp. rewrite !elem_of_cons, elem_of_nil.
      intros [?|[?|[?|[?|[]]]]]; simplify_eq. eauto 10.
Qed.

End extras.

Lemma shutdown_keeps_bookkeeping_witness :
  ∃ (n' : Scheduler) (ev : list (@Event string string)),
    shutdown Examples.stepping_down Examples.busy_node = Some (n', ev) ∧
    bookkeeping n' = bookkeeping Examples.busy_node ∧
    join n' = join Examples.busy_node.
Proof.
  eexists _, _. split; [reflexivity|].
  destruct (shutdown_keeps_bookkeeping (BSONObj:=string)
              (ReadPreferenceSetting:=string) Examples.stepping_down
              Examples.busy_node _ _ eq_refl) as (Hb & _ & Hj).
  split; [exact Hb | exact Hj].
Defined.

Lemma shutdown_reaches_subtree_witness :
  ∃ (n' : Scheduler) (ev : list (@Event string string)),
    shutdown Examples.stepping_down Examples.busy_node = Some (n', ev) ∧
    Forall (λ d', isOK (_shutdownStatus d') = false) (all_nodes n') ∧
    KillOperation 1%nat (code Examples.stepping_down) ∈ ev ∧
    Cancel 42%nat ∈ ev.
Proof.
  eexists _, _. split; [reflexivity|].
  destruct (shutdown_reaches_subtree (BSONObj:=string)
              (ReadPreferenceSetting:=string) Examples.stepping_down
              Examples.busy_node _ _ eq_refl eq_refl eq_refl)
    as (Hall & _ & Hev).
  split; [exact Hall|].
  destruct (Hev Examples.busy_node (list_elem_of_here _ _) eq_refl)
    as [Hkill Hcancel].
  split; [apply Hkill | apply Hcancel]; apply list_elem_of_here.
Defined.

Lemma no_live_node_under_shut_down_witness :
  ∃ n : Scheduler,
    tree_run Examples.child_shut_down new_scheduler = Some n ∧
    shutdown_closed n = true.
Proof.
  eexists. split; [reflexivity|].
  exact (proj1 (no_live_node_under_shut_down Examples.child_shut_down _
                  eq_refl)).
Defined.

Lemma command_handle_tracked_witness :
  ∃ n1 : Scheduler,
    scheduleRemoteCommand_then Examples.shard_env "prepare" "primary"
      (mkHostAndShard "shardB:27017" "shardB") new_scheduler =
    ([ExecutorScheduleRemoteCommand "shardB:27017" "prepare" "primary"],
     n1, Pending 42%nat) ∧
    _activeHandles n1 = [42%nat] ∧
    join n1 = false.
Proof.
  destruct (command_handle_tracked Examples.shard_env "prepare" "primary"
              (mkHostAndShard "shardB:27017" "shardB") new_scheduler 42%nat
              eq_refl eq_refl) as (n1 & Hthen & _ & Hh & Hj & _).
  exists n1. split; [exact Hthen|]. split; [exact Hh | exact Hj].
Defined.

Lemma shutdown_cancels_command_in_flight_witness :
  ∃ (n1 n2 : Scheduler) (ev ev1 : list (@Event string string)),
    scheduleRemoteCommand_then Examples.shard_env "prepare" "primary"
      (mkHostAndShard "shardB:27017" "shardB") new_scheduler =
    (ev1, n1, Pending 42%nat) ∧
    shutdown Examples.stepping_down n1 = Some (n2, ev) ∧
    Cancel 42%nat ∈ ev ∧
    (remoteCommandCallback Examples.shard_env "shardB:27017"
       Examples.canceled_response n2).2 = Error Examples.stepping_down.
Proof.
  destruct (shutdown_cancels_command_in_flight Examples.shard_env "prepare"
              "primary" (mkHostAndShard "shardB:27017" "shardB")
              new_scheduler 42%nat Examples.stepping_down
              Examples.canceled_response eq_refl eq_refl eq_refl eq_refl)
    as (n1 & n2 & ev & ev1 & Hthen & Hsh & Hc & _ & Hcb & _).
  exists n1, n2, ev, ev1.
  split; [exact Hthen|]. split; [exact Hsh|]. split; [exact Hc | exact Hcb].
Defined.

Lemma remote_command_outcome_witness :
  ∃ n' : Scheduler,
    (scheduleRemoteCommand Examples.shard_env "shardB" "primary" "prepare"
       new_scheduler).2 = Some (n', Pending 42%nat).
Proof.
  assert (Hne : "shardB" ≠ "shardA") by discriminate.
  destruct (remote_command_outcome Examples.shard_env "shardB" "shardA"
              "primary" "prepare" new_scheduler eq_refl Hne)
    as (Hiff & _).
  apply (Hiff 42%nat).
  split; [reflexivity|]. split; [reflexivity|]. split; [reflexivity|].
  split; [reflexivity|].
  exists "shardB", "shardB:27017".
  split; [reflexivity|]. split; reflexivity.
Defined.

End SchedulerExtras.

(** * Properties of the task executor *)

Module ExecutorTheory.
Import ThreadPoolTaskExecutor.
Import AsyncWorkScheduler(StatusWith, SWError, SWValue).

Section theory.
Context {Work RemoteCallback Command Response : Type}.
Context (kNoTimeout : Z) (kNoExpirationDate : Date_t).
Context (isCancelationError : ErrorCodes.Error → bool).

#[local] Abbreviation Executor :=
  (@Executor Work RemoteCallback Command Response).
#[local] Abbreviation Effect :=
  (@Effect Work RemoteCallback Command Response).
#[local] Abbreviation Step := (@Step Work RemoteCallback Command Response).
#[local] Abbreviation step := (@step Work RemoteCallback Command Response
                                 kNoTimeout kNoExpirationDate
                                 isCancelationError).
#[local] Abbreviation run := (@run Work RemoteCallback Command Response
                                kNoTimeout kNoExpirationDate
                                isCancelationError).

(** *** The state only moves forward *)

Lemma store_canceled_state cb (e : Executor) :
  _state (store_canceled cb e) = _state e.
Proof. done. Qed.

Lemma foldr_store_canceled_state l (e : Executor) :
  _state (foldr store_canceled e l) = _state e.
Proof. induction l as [|cb l IH]; [done|]. simpl. by rewrite IH. Qed.

Lemma setState_state s (e : Executor) :
  _state (_setState_inlock s e).1 = s.
Proof. unfold _setState_inlock. by case_decide. Qed.

Lemma runCallback_state cb (e e' : Executor) a (ev : list Effect) :
  runCallback cb e = Done a ev e' → _state e' = _state e.
Proof.
  unfold runCallback. intros Hrun.
  repeat case_match; simplify_eq; done.
Qed.

Lemma signalEvent_inlock_state event (e e' : Executor) a (ev : list Effect) :
  signalEvent_inlock event e = Done a ev e' → _state e' = _state e.
Proof.
  unfold signalEvent_inlock, scheduleIntoPool_inlock. intros Hs.
  repeat case_match; simplify_eq; done.
Qed.

Lemma cancel_state_same h (e e' : Executor) a (ev : list Effect) :
  cancel h e = Done a ev e' → _state e' = _state e.
Proof.
  unfold cancel, scheduleIntoPool_inlock. intros Hc.
  repeat case_match; simplify_eq; done.
Qed.

Lemma cancel_no_wait h (e e' : Executor) (ev : list Effect) :
  cancel h e ≠ Waiting ev e'.
Proof. unfold cancel, scheduleIntoPool_inlock. by repeat case_match. Qed.

Lemma runCallback_no_wait cb (e e' : Executor) (ev : list Effect) :
  runCallback cb e ≠ Waiting ev e'.
Proof. unfold runCallback. by repeat case_match. Qed.

(** The loop of [_join] over the unsignaled events. *)
#[local] Abbreviation join_loop :=
  (foldl (λ (acc : Res unit) (eventState : EventId),
            match acc with
            | Done _ ev e' =>
                match eventStates e' !! eventState with
                | Some s =>
                    match waiters s with
                    | [] => after ev (signalEvent_inlock eventState e')
                    | _ :: _ => Aborted ev
                    end
                | None => Aborted ev
                end
            | r => r
            end)).

Lemma join_loop_stuck (l : list EventId) (r : Res unit) :
  (∀ a ev (e : Executor), r ≠ Done a ev e) → join_loop r l = r.
Proof.
  intros Hr. induction l as [|event l IH]; [done|].
  simpl. destruct r as [a ev e| |]; [by destruct (Hr a ev e)|done..].
Qed.

Lemma signalEvent_inlock_no_wait event (e e' : Executor)
    (ev : list Effect) :
  signalEvent_inlock event e ≠ Waiting ev e'.
Proof.
  unfold signalEvent_inlock, scheduleIntoPool_inlock.
  by repeat case_match.
Qed.

Lemma join_loop_waiting (l : list EventId) (r : Res unit) (e2 : Executor)
    (ev : list Effect) :
  join_loop r l = Waiting ev e2 → r = Waiting ev e2.
Proof.
  revert r. induction l as [|event l IH]; intros r; simpl; [done|].
  intros Hfold. apply IH in Hfold.
  destruct r as [a1 ev1 e1| |]; [|done..]. exfalso.
  destruct (eventStates e1 !! event) as [s|]; [|done].
  destruct (waiters s); [|done].
  destruct (signalEvent_inlock event e1) as [a2 ev2 e3|ev2 e3|ev2] eqn:Hsig;
    [done| |done].
  by apply signalEvent_inlock_no_wait in Hsig.
Qed.

Lemma join_loop_state (l : list EventId) (r : Res unit) (e2 : Executor)
    a (ev : list Effect) :
  join_loop r l = Done a ev e2 →
  ∃ a0 ev0 e0, r = Done a0 ev0 e0 ∧ _state e2 = _state e0.
Proof.
  revert r. induction l as [|event l IH]; intros r; simpl.
  - intros ->. by eexists _, _, _.
  - intros Hfold. destruct (IH _ Hfold) as (a0 & ev0 & e0 & Hr & Hst).
    destruct r as [a1 ev1 e1| |]; [|done..].
    eexists _, _, _. split; [done|]. rewrite Hst.
    destruct (eventStates e1 !! event) as [s|]; [|done].
    destruct (waiters s); [|done].
    destruct (signalEvent_inlock event e1) as [a2 ev2 e3| |] eqn:Hsig;
      [|done..].
    injection Hr as _ _ <-. by eapply signalEvent_inlock_state.
Qed.

Lemma step_state_monotone (s : Step) (e e' : Executor) :
  step s e = Some e' →
  state_rank (_state e) ≤ state_rank (_state e').
Proof.
  destruct s; simpl.
  - unfold startup, _setState_inlock.
    destruct (decide (_state e = preStart)) as [Hpre|]; [|done].
    destruct (decide (running = _state e)); simpl; intros [= <-]; [done|].
    simpl. rewrite Hpre. simpl. lia.
  - unfold shutdown, _setState_inlock, scheduleIntoPool_inlock.
    destruct (_inShutdown_inlock e) eqn:Hin.
    + destruct (_networkInProgressQueue e); [|done].
      by destruct (_sleepersQueue e); intros [= <-].
    + apply bool_decide_eq_false in Hin. simpl in Hin.
      destruct (decide (joinRequired = _state e)) as [Heq|]; simpl;
        intros [= <-]; simpl; rewrite !foldr_store_canceled_state; simpl;
        [by rewrite <- Heq|lia].
  - unfold join, _join. intros Hs.
    destruct (_ && _) eqn:Hpred; [|by simplify_eq/=].
    destruct (decide (_state e = shutdownComplete)); [by simplify_eq/=|].
    destruct (_setState_inlock joining e) as [e1 ev1] eqn:Hset.
    match type of Hs with
      executor_after (match ?f with _ => _ end) = _ =>
        destruct f as [a ev e2|ev e2|ev] eqn:Hloop;
          [|by apply join_loop_waiting in Hloop|done]
    end.
    destruct (_poolInProgressQueue e2); [|done].
    destruct (_networkInProgressQueue e2); [|done].
    destruct (_sleepersQueue e2); [|done].
    destruct (_unsignaledEvents e2); [|done].
    pose proof (setState_state shutdownComplete e2) as Hst.
    destruct (_setState_inlock shutdownComplete e2) as [e3 ev3].
    simpl in Hs. injection Hs as <-. simpl in Hst. rewrite Hst.
    destruct (_state e); simpl; lia.
  - unfold makeEvent. intros Hs. repeat case_match; simplify_eq/=; done.
  - unfold signalEvent. destruct event as [ev|]; [|done].
    destruct (signalEvent_inlock ev e) as [a evs e1|evs e1|evs] eqn:Hsig;
      intros Hs; [|by apply signalEvent_inlock_no_wait in Hsig|done].
    injection Hs as <-.
    by rewrite (signalEvent_inlock_state _ _ _ _ _ Hsig).
  - unfold onEvent, enqueueCallbackState_inlock, scheduleIntoPool_inlock.
    intros Hs. repeat case_match; simplify_eq/=; done.
  - unfold scheduleWork, enqueueCallbackState_inlock,
      scheduleIntoPool_inlock.
    intros Hs. repeat case_match; simplify_eq/=; done.
  - unfold scheduleWorkAt. case_bool_decide.
    { unfold scheduleWork, enqueueCallbackState_inlock,
        scheduleIntoPool_inlock.
      intros Hs. repeat case_match; simplify_eq/=; done. }
    unfold enqueueCallbackState_inlock.
    destruct (_inShutdown_inlock e); [by intros [= <-]|].
    destruct (isOK alarmStatus); [by intros [= <-]|].
    destruct (cancel _ _) as [a ev e1|ev e1|ev] eqn:Hc; intros Hs;
      [|by apply cancel_no_wait in Hc|done].
    injection Hs as <-. by rewrite (cancel_state_same _ _ _ _ _ Hc).
  - unfold scheduleRemoteCommandOnAny, enqueueCallbackState_inlock.
    intros Hs. repeat case_match; simplify_eq/=; done.
  - destruct (cancel cbHandle e) as [a ev e1|ev e1|ev] eqn:Hc; intros Hs;
      [|by apply cancel_no_wait in Hc|done].
    injection Hs as <-. by rewrite (cancel_state_same _ _ _ _ _ Hc).
  - unfold alarmTask, scheduleIntoPool_inlock.
    intros Hs. repeat case_match; simplify_eq/=; done.
  - unfold commandFinishedTask, scheduleIntoPool_inlock.
    intros Hs. repeat case_match; simplify_eq/=; done.
  - unfold poolTask.
    destruct (isCancelationError _); [|destruct (isOK status); [|done]];
      (destruct (runCallback _ _) as [a ev e1|ev e1|ev] eqn:Hr; intros Hs;
       [|by apply runCallback_no_wait in Hr|done];
       injection Hs as <-; by rewrite (runCallback_state _ _ _ _ _ Hr)).
  - unfold batonTask. destruct (isOK status); [|by intros [= <-]].
    destruct (runCallback _ _) as [a ev e1|ev e1|ev] eqn:Hr; intros Hs;
      [|by apply runCallback_no_wait in Hr|done].
    injection Hs as <-. by rewrite (runCallback_state _ _ _ _ _ Hr).
  - unfold batonPoolTask. destruct (_ || _); [|done].
    destruct (runCallback _ _) as [a ev e1|ev e1|ev] eqn:Hr; intros Hs;
      [|by apply runCallback_no_wait in Hr|done].
    injection Hs as <-. by rewrite (runCallback_state _ _ _ _ _ Hr).
Qed.

Lemma run_state_monotone (steps : list Step) (e e' : Executor) :
  run steps e = Some e' →
  state_rank (_state e) ≤ state_rank (_state e').
Proof.
  revert e. induction steps as [|s steps IH]; intros e; simpl.
  - by intros [= <-].
  - destruct (step s e) as [e1|] eqn:Hstep; [|done]. intros Hrun.
    apply step_state_monotone in Hstep. apply IH in Hrun. lia.
Qed.

Lemma shutdown_in_shutdown (e e' : Executor) a (ev : list Effect) :
  shutdown e = Done a ev e' → _inShutdown_inlock e' = true.
Proof.
  unfold shutdown. destruct (_inShutdown_inlock e) eqn:Hin.
  - destruct (_networkInProgressQueue e); [|done].
    by destruct (_sleepersQueue e); intros [= _ _ <-].
  - pose proof (setState_state joinRequired e) as Hst.
    destruct (_setState_inlock joinRequired e) as [e1 ev1].
    unfold scheduleIntoPool_inlock. intros [= _ _ <-].
    unfold _inShutdown_inlock. simpl.
    rewrite !foldr_store_canceled_state. simpl in *. by rewrite Hst.
Qed.

(** Once [shutdown] has returned, whatever steps follow, the executor stays
    in shutdown: [scheduleWork], [scheduleWorkAt],
    [scheduleRemoteCommandOnAny], [makeEvent] and [onEvent] return
    [ShutdownInProgress], [cancel] returns at once, a response the network
    interface delivers is dropped, and none of them changes the executor.
    None of them calls the pool, and the only call made on the network
    interface is the reading of its clock, which [scheduleWorkAt] makes
    always and [scheduleRemoteCommandOnAny] for a request with a timeout,
    before they look at the state. *)
Theorem nothing_scheduled_after_shutdown (e0 e1 e : Executor) a
    (ev : list Effect) (steps : list Step) :
  shutdown e0 = Done a ev e1 → run steps e1 = Some e →
  _inShutdown_inlock e = true ∧
  (∀ work, scheduleWork work e = Done (SWError ShutdownInProgress) [] e) ∧
  (∀ when work now alarmStatus,
     scheduleWorkAt when work now alarmStatus e
     = Done (SWError ShutdownInProgress) [NetNow] e) ∧
  (∀ request cb hasBaton now commandStatus,
     scheduleRemoteCommandOnAny kNoTimeout kNoExpirationDate request cb
       hasBaton now commandStatus e
     = Done (SWError ShutdownInProgress)
         (if decide (timeout request = kNoTimeout) then [] else [NetNow])
         e) ∧
  makeEvent e = Done (SWError ShutdownInProgress) [] e ∧
  (∀ event work, is_Some (eventStates e !! event) →
     onEvent (Some event) work e = Done (SWError ShutdownInProgress) [] e) ∧
  (∀ cb, is_Some (callbackStates e !! cb) →
     cancel (Some cb) e = Done () [] e) ∧
  (∀ cbState cb scheduledRequest response,
     commandFinishedTask cbState cb scheduledRequest response e
     = Done () [] e).
Proof.
  intros Hsh Hrun.
  assert (Hin : _inShutdown_inlock e = true).
  { apply shutdown_in_shutdown in Hsh. apply run_state_monotone in Hrun.
    unfold _inShutdown_inlock in *. apply bool_decide_eq_true in Hsh.
    apply bool_decide_eq_true. lia. }
  split; [done|].
  unfold scheduleWorkAt, scheduleWork, scheduleRemoteCommandOnAny, makeEvent,
    onEvent, cancel, commandFinishedTask, enqueueCallbackState_inlock.
  rewrite Hin. repeat split; try done.
  - intros. by case_bool_decide.
  - intros event work [s ->]. done.
  - intros cb [c ->]. done.
Qed.

(** *** What shutdown does *)

Lemma cancel_state_idemp (c : @CallbackState Work RemoteCallback Command Response) :
  cancel_state (cancel_state c) = cancel_state c.
Proof. done. Qed.

Lemma foldr_store_canceled_eq l (e : Executor) :
  foldr store_canceled e l =
  set_callbacks (foldr (alter cancel_state) (callbackStates e) l) e.
Proof.
  induction l as [|x l IH]; [by destruct e|].
  simpl. rewrite IH. done.
Qed.

Lemma foldr_cancel_lookup l
    (m : gmap CallbackId (@CallbackState Work RemoteCallback Command Response))
    cb :
  foldr (alter cancel_state) m l !! cb =
  if decide (cb ∈ l) then cancel_state <$> m !! cb else m !! cb.
Proof.
  induction l as [|x l IH]; [done|].
  simpl. rewrite lookup_alter.
  repeat case_decide; subst; rewrite ?IH; try done;
    try (exfalso; rewrite ?elem_of_cons in *; intuition congruence).
  all: repeat case_decide; try done;
    try (exfalso; rewrite ?elem_of_cons in *; intuition congruence).
  all: by destruct (m !! cb).
Qed.

Lemma clear_waiters_lookup (l : list EventId)
    (m : gmap EventId EventState) event :
  foldr (λ eventState m, alter (λ s, mkEventState (isSignaledFlag s) [])
                           eventState m) m l !! event =
  if decide (event ∈ l)
  then (λ s, mkEventState (isSignaledFlag s) []) <$> m !! event
  else m !! event.
Proof.
  induction l as [|x l IH]; [done|].
  simpl. rewrite lookup_alter.
  repeat case_decide; subst; rewrite ?IH; try done;
    try (exfalso; rewrite ?elem_of_cons in *; intuition congruence).
  all: repeat case_decide; try done;
    try (exfalso; rewrite ?elem_of_cons in *; intuition congruence).
  all: by destruct (m !! event).
Qed.

Lemma schedule_effects_all
    (m : gmap CallbackId (@CallbackState Work RemoteCallback Command Response))
    (todo : list CallbackId) cb :
  cb ∈ todo →
  let evs : list Effect :=
    ((λ cbState,
        match m !! cbState with
        | Some c => if baton c then BatonSchedule cbState
                    else PoolSchedule cbState
        | None => PoolSchedule cbState
        end) <$> todo) ++ [NetSignalWorkAvailable] in
  PoolSchedule cb ∈ evs ∨ BatonSchedule cb ∈ evs.
Proof.
  intros Hcb evs. subst evs.
  match goal with |- context [?f <$> todo] =>
    pose proof (list_elem_of_fmap_2 f todo cb Hcb) as Hf end.
  simpl in Hf.
  destruct (m !! cb) as [c|]; [destruct (baton c)|]; [right|left|left];
    apply elem_of_app; by left.
Qed.

(** The first [shutdown], spelled out. *)
Lemma shutdown_first (e : Executor) :
  _inShutdown_inlock e = false →
  let pending :=
    _networkInProgressQueue e ++ _sleepersQueue e ++
    mbind (λ event, match eventStates e !! event with
                    | Some s => waiters s
                    | None => []
                    end) (_unsignaledEvents e) in
  let callbacks' :=
    foldr (alter cancel_state)
      (foldr (alter cancel_state) (callbackStates e) pending)
      (_poolInProgressQueue e) in
  shutdown e =
  Done ()
    (NotifyStateChange
     :: ((λ cbState,
            match callbacks' !! cbState with
            | Some c => if baton c then BatonSchedule cbState
                        else PoolSchedule cbState
            | None => PoolSchedule cbState
            end) <$> pending) ++ [NetSignalWorkAvailable])
    (mkExecutor joinRequired (_poolInProgressQueue e ++ pending) [] []
       (_unsignaledEvents e) callbacks'
       (foldr (λ eventState m,
                 alter (λ s, mkEventState (isSignaledFlag s) []) eventState m)
          (eventStates e) (_unsignaledEvents e))).
Proof.
  intros Hin pending callbacks'. unfold shutdown. rewrite Hin.
  unfold _setState_inlock.
  assert (Hne : joinRequired ≠ _state e).
  { intros Heq. unfold _inShutdown_inlock in Hin.
    apply bool_decide_eq_false in Hin. rewrite <- Heq in Hin. simpl in Hin.
    lia. }
  rewrite decide_False by done.
  unfold scheduleIntoPool_inlock. rewrite !foldr_store_canceled_eq.
  done.
Qed.

(** What the first [shutdown] does to one callback that is in a queue. *)
Lemma shutdown_first_lookup (e : Executor) cb
    (c : @CallbackState Work RemoteCallback Command Response) :
  _inShutdown_inlock e = false →
  callbackStates e !! cb = Some c →
  cb ∈ _poolInProgressQueue e ++ _networkInProgressQueue e
       ++ _sleepersQueue e →
  ∃ (ev : list Effect) (e' : Executor),
    shutdown e = Done () ev e' ∧
    _inShutdown_inlock e' = true ∧
    callbackStates e' !! cb = Some (cancel_state c) ∧
    (cb ∈ _networkInProgressQueue e ++ _sleepersQueue e →
     (if baton c then BatonSchedule cb else PoolSchedule cb) ∈ ev).
Proof.
  intros Hin Hc Hq. rewrite (shutdown_first e Hin).
  eexists _, _. split; [done|]. split; [done|].
  cbn [callbackStates].
  assert (Hlook : ∀ l1 l2,
            cb ∈ l1 ++ l2 →
            foldr (alter cancel_state)
              (foldr (alter cancel_state) (callbackStates e) l2) l1 !! cb
            = Some (cancel_state c)).
  { intros l1 l2 Hl. rewrite !foldr_cancel_lookup, Hc.
    repeat case_decide; try done.
    exfalso. rewrite elem_of_app in Hl. tauto. }
  split.
  - apply Hlook. rewrite !elem_of_app in *. tauto.
  - intros Hns. apply elem_of_cons. right. apply elem_of_app. left.
    match goal with |- _ ∈ ?f <$> ?l =>
      assert (Hcb : cb ∈ l) by (rewrite !elem_of_app in *; tauto);
      pose proof (list_elem_of_fmap_2 f l cb Hcb) as Hf
    end.
    cbn beta in Hf. rewrite Hlook in Hf; [exact Hf|].
    rewrite !elem_of_app in *. tauto.
Qed.

(** The first [shutdown] moves the executor to [joinRequired], empties the
    network queue, the sleepers queue and the waiters of every unsignaled
    event into the pool queue, in that order, behind what the pool queue
    held; marks every callback then in the pool queue canceled and changes
    no other callback; and hands each callback it moved to its baton or to
    the pool. *)
Theorem shutdown_cancels_everything_pending (e : Executor) :
  _inShutdown_inlock e = false →
  let pending :=
    _networkInProgressQueue e ++ _sleepersQueue e ++
    mbind (λ event, match eventStates e !! event with
                    | Some s => waiters s
                    | None => []
                    end) (_unsignaledEvents e) in
  ∃ (ev : list Effect) (e' : Executor),
    shutdown e = Done () ev e' ∧
    _state e' = joinRequired ∧
    _networkInProgressQueue e' = [] ∧ _sleepersQueue e' = [] ∧
    _poolInProgressQueue e' = _poolInProgressQueue e ++ pending ∧
    _unsignaledEvents e' = _unsignaledEvents e ∧
    (∀ event s, event ∈ _unsignaledEvents e →
                eventStates e' !! event = Some s → waiters s = []) ∧
    (∀ cb, callbackStates e' !! cb =
           if decide (cb ∈ _poolInProgressQueue e')
           then cancel_state <$> callbackStates e !! cb
           else callbackStates e !! cb) ∧
    (∀ cb, cb ∈ pending → PoolSchedule cb ∈ ev ∨ BatonSchedule cb ∈ ev).
Proof.
  intros Hin pending. rewrite (shutdown_first e Hin).
  eexists _, _. split; [done|]. simpl.
  split; [done|]. split; [done|]. split; [done|]. split; [done|].
  split; [done|]. split; [|split].
  - intros event s Hev.
    rewrite clear_waiters_lookup, decide_True by done.
    destruct (eventStates e !! event); simpl; [|done]. by intros [= <-].
  - intros cb. rewrite !foldr_cancel_lookup. fold pending.
    destruct (decide (cb ∈ pending)) as [Hpe|Hpe];
      destruct (decide (cb ∈ _poolInProgressQueue e)) as [Hpo|Hpo];
      destruct (decide (cb ∈ _poolInProgressQueue e ++ pending))
        as [Hboth|Hboth];
      try done;
      try (exfalso; rewrite elem_of_app in Hboth; tauto).
    by destruct (callbackStates e !! cb).
  - intros cb Hcb.
    destruct (schedule_effects_all
                (foldr (alter cancel_state)
                   (foldr (alter cancel_state) (callbackStates e) pending)
                   (_poolInProgressQueue e)) pending cb Hcb) as [Hs|Hs];
      [left|right]; apply elem_of_cons; right; exact Hs.
Qed.

(** *** The assertions of shutdown and join hold *)

Lemma erase_id_subseteq x (l : list nat) y : y ∈ erase_id x l → y ∈ l.
Proof.
  induction l as [|z l IH]; simpl; [done|].
  case_decide; rewrite !elem_of_cons; tauto.
Qed.

Lemma erase_id_NoDup x (l : list nat) :
  NoDup l → NoDup (erase_id x l) ∧ x ∉ erase_id x l.
Proof.
  induction 1 as [|z l Hz Hl IH]; simpl; [split; [constructor|]|].
  { by intros ?%elem_of_nil. }
  case_decide as Heq; [by subst|]. destruct IH as [IH1 IH2]. split.
  - constructor; [|done]. intros Hin. by apply erase_id_subseteq in Hin.
  - rewrite elem_of_cons. tauto.
Qed.

Lemma erase_id_head x (l : list nat) : erase_id x (x :: l) = l.
Proof. simpl. by rewrite decide_True. Qed.

Ltac exec_unfold :=
  unfold startup, makeEvent, signalEvent, signalEvent_inlock, onEvent,
    scheduleWork, scheduleWorkAt, scheduleRemoteCommandOnAny, cancel,
    alarmTask, commandFinishedTask, poolTask, batonTask, batonPoolTask,
    runCallback, enqueueCallbackState_inlock, scheduleIntoPool_inlock,
    _setState_inlock, store_canceled in *.

Lemma new_executor_wf : executor_wf (new_executor : Executor).
Proof.
  split; [constructor|]. split; [by intros ? ?%elem_of_nil|done].
Qed.

Lemma in_shutdown_same_state (e e' : Executor) :
  _state e' = _state e → _inShutdown_inlock e' = _inShutdown_inlock e.
Proof. unfold _inShutdown_inlock. by intros ->. Qed.

(** A step that leaves the state, the unsignaled events and the event
    records alone, and in shutdown the network and sleepers queues empty,
    keeps the executor well formed. *)
Lemma wf_frame (e e' : Executor) :
  executor_wf e →
  _state e' = _state e → _unsignaledEvents e' = _unsignaledEvents e →
  eventStates e' = eventStates e →
  (_inShutdown_inlock e = true →
   _networkInProgressQueue e' = [] ∧ _sleepersQueue e' = []) →
  executor_wf e'.
Proof.
  intros (Hnd & Hev & Hq) Hst Hun Hes Hq'.
  pose proof (in_shutdown_same_state _ _ Hst) as Hin.
  unfold executor_wf. rewrite Hun, Hes, Hin. done.
Qed.

Lemma wf_not_shutdown (e' : Executor) :
  _inShutdown_inlock e' = false → NoDup (_unsignaledEvents e') →
  (∀ event, event ∈ _unsignaledEvents e' →
     ∃ s, eventStates e' !! event = Some s ∧ isSignaledFlag s = false) →
  executor_wf e'.
Proof.
  intros Hin Hnd Hev. split; [done|]. split; [|by rewrite Hin].
  intros event Hin'. destruct (Hev _ Hin') as (s & ? & ?).
  exists s. by rewrite Hin.
Qed.

Lemma runCallback_wf cb (e e' : Executor) a (ev : list Effect) :
  executor_wf e → runCallback cb e = Done a ev e' → executor_wf e'.
Proof.
  intros Hwf Hrun. unfold runCallback in Hrun.
  destruct (callbackStates e !! cb) as [c|]; [|done].
  destruct (isFinished c); [done|].
  match type of Hrun with
    match ?x with _ => _ end = _ => destruct x; [|done]
  end.
  injection Hrun as _ _ <-.
  apply (wf_frame e); try done. apply Hwf.
Qed.

Lemma cancel_wf h (e e' : Executor) a (ev : list Effect) :
  executor_wf e → cancel h e = Done a ev e' → executor_wf e'.
Proof.
  intros Hwf Hc. unfold cancel in Hc.
  destruct h as [cb|]; [|done].
  destruct (callbackStates e !! cb) as [c|]; [|done].
  destruct (_inShutdown_inlock e) eqn:Hin; [by injection Hc as _ _ <-|].
  assert (Hno : ∀ e'' : Executor,
            _state e'' = _state e → _unsignaledEvents e'' = _unsignaledEvents e →
            eventStates e'' = eventStates e → executor_wf e'').
  { intros e'' ???. apply (wf_frame e); try done. by rewrite Hin. }
  exec_unfold.
  repeat case_match; simplify_eq; by apply Hno.
Qed.

Lemma step_wf (s : Step) (e e' : Executor) :
  executor_wf e → step s e = Some e' → executor_wf e'.
Proof.
  intros Hwf.
  assert (Hno : _inShutdown_inlock e = false →
            ∀ e'' : Executor,
            _state e'' = _state e →
            _unsignaledEvents e'' = _unsignaledEvents e →
            eventStates e'' = eventStates e → executor_wf e'').
  { intros Hin e'' ???. apply (wf_frame e); try done. by rewrite Hin. }
  destruct s; simpl.
  - (* startup *)
    unfold startup, _setState_inlock.
    destruct (decide (_state e = preStart)) as [Hpre|]; [|done].
    rewrite decide_False by congruence. intros [= <-].
    destruct Hwf as (Hnd & Hev & Hq). split; [done|]. split; [|done].
    intros event Hin. destruct (Hev event Hin) as (s & ? & ? & ?).
    exists s. by repeat split.
  - (* shutdown *)
    destruct (_inShutdown_inlock e) eqn:Hin.
    + unfold shutdown. rewrite Hin.
      destruct (_networkInProgressQueue e); [|done].
      by destruct (_sleepersQueue e); intros [= <-].
    + rewrite (shutdown_first e Hin). intros [= <-].
      destruct Hwf as (Hnd & Hev & Hq). split; [done|]. split; [|done].
      cbn [_unsignaledEvents eventStates].
      intros event Hev'. destruct (Hev event Hev') as (s & Hs & Hflag & _).
      eexists. rewrite clear_waiters_lookup, decide_True by done.
      rewrite Hs. done.
  - (* join *)
    unfold join, _join.
    destruct (_ && _); [|by intros [= <-]].
    destruct (decide (_state e = shutdownComplete)); [by intros [= <-]|].
    destruct (_setState_inlock joining e) as [e1 ev1].
    match goal with |- executor_after (match ?f with _ => _ end) = _ → _ =>
      destruct f as [a ev e2|ev e2|ev] eqn:Hloop;
        [|by apply join_loop_waiting in Hloop|done]
    end.
    destruct (_poolInProgressQueue e2) eqn:Hp; [|done].
    destruct (_networkInProgressQueue e2) eqn:Hn; [|done].
    destruct (_sleepersQueue e2) eqn:Hs; [|done].
    destruct (_unsignaledEvents e2) eqn:Hu; [|done].
    unfold _setState_inlock. case_decide; intros [= <-];
      (split; [|split]); cbn [_unsignaledEvents set_state]; rewrite ?Hu;
      try constructor; try (by intros ? ?%elem_of_nil); done.
  - (* makeEvent *)
    unfold makeEvent.
    destruct (_inShutdown_inlock e) eqn:Hin; intros [= <-]; [done|].
    destruct Hwf as (Hnd & Hev & Hq).
    assert (Hfresh : eventStates e !! next_event e = None).
    { apply not_elem_of_dom. apply is_fresh. }
    split; [|split].
    + cbn. apply NoDup_app. split; [done|]. split; [|apply NoDup_singleton].
      intros x Hx Heq%list_elem_of_singleton. subst x.
      destruct (Hev _ Hx) as (s & Hs & _). congruence.
    + cbn. intros event [Hin'|Heq%list_elem_of_singleton]%elem_of_app;
        [|subst event].
      * destruct (Hev _ Hin') as (s & Hs & Hflag & Hw). exists s.
        rewrite lookup_insert_ne by congruence. done.
      * rewrite lookup_insert_eq. by eexists.
    + intros Hin'. rewrite (in_shutdown_same_state e _) in Hin' by done.
      congruence.
  - (* signalEvent *)
    unfold signalEvent, signalEvent_inlock, scheduleIntoPool_inlock.
    destruct event as [event|]; [|done].
    destruct (eventStates e !! event) as [s|] eqn:Hs; [|done].
    destruct (isSignaledFlag s) eqn:Hflag; [done|]. intros [= <-].
    destruct Hwf as (Hnd & Hev & Hq).
    destruct (erase_id_NoDup event _ Hnd) as [Hnd' Hnot].
    split; [done|]. split; [|done]. cbn.
    intros event' Hin. assert (event' ≠ event) by congruence.
    apply erase_id_subseteq in Hin.
    destruct (Hev _ Hin) as (s' & ? & ? & ?). exists s'.
    by rewrite lookup_insert_ne.
  - (* onEvent *)
    unfold onEvent, enqueueCallbackState_inlock, scheduleIntoPool_inlock.
    destruct event as [event|]; [|by intros [= <-]].
    destruct (eventStates e !! event) as [s|] eqn:Hs; [|done].
    destruct (_inShutdown_inlock e) eqn:Hin; [by intros [= <-]|].
    destruct Hwf as (Hnd & Hev & Hq).
    destruct (isSignaledFlag s) eqn:Hflag; intros [= <-];
      (apply wf_not_shutdown; [done|done|]); cbn;
      intros event' Hin'; destruct (Hev _ Hin') as (s' & Hs' & Hflag' & Hw).
    + rewrite lookup_insert_ne by congruence. by exists s'.
    + destruct (decide (event = event')) as [<-|Hne].
      * rewrite lookup_insert_eq. by eexists.
      * rewrite lookup_insert_ne by done. by exists s'.
  - (* scheduleWork *)
    unfold scheduleWork, enqueueCallbackState_inlock,
      scheduleIntoPool_inlock.
    destruct (_inShutdown_inlock e) eqn:Hin; intros [= <-]; [done|].
    by apply Hno.
  - (* scheduleWorkAt *)
    unfold scheduleWorkAt. case_bool_decide.
    { unfold scheduleWork, enqueueCallbackState_inlock,
        scheduleIntoPool_inlock.
      destruct (_inShutdown_inlock e) eqn:Hin; simpl; intros [= <-]; [done|].
      by apply Hno. }
    unfold enqueueCallbackState_inlock.
    destruct (_inShutdown_inlock e) eqn:Hin; [by intros [= <-]|].
    destruct (isOK alarmStatus); [intros [= <-]; by apply Hno|].
    destruct (cancel _ _) as [a ev e1|ev e1|ev] eqn:Hc; intros Hs;
      [|by apply cancel_no_wait in Hc|done].
    injection Hs as <-. eapply cancel_wf; [|done]. by apply Hno.
  - (* scheduleRemoteCommandOnAny *)
    unfold scheduleRemoteCommandOnAny, enqueueCallbackState_inlock.
    destruct (_inShutdown_inlock e) eqn:Hin; [by intros [= <-]|].
    destruct (isOK commandStatus); intros [= <-]; by apply Hno.
  - (* cancel *)
    destruct (cancel cbHandle e) as [a ev e1|ev e1|ev] eqn:Hc; intros Hs;
      [|by apply cancel_no_wait in Hc|done].
    injection Hs as <-. by eapply cancel_wf.
  - (* alarm *)
    unfold alarmTask, scheduleIntoPool_inlock.
    destruct (status_is _ _); [by intros [= <-]|].
    destruct (callbackStates e !! cbState) as [c|]; [|done].
    destruct (canceled c); intros [= <-]; [done|].
    apply (wf_frame e); try done. intros Hin. cbn.
    destruct Hwf as (_ & _ & Hq). destruct (Hq Hin) as [-> ->]. done.
  - (* response *)
    unfold commandFinishedTask, scheduleIntoPool_inlock.
    destruct (_inShutdown_inlock e) eqn:Hin; intros [= <-]; [done|].
    by apply Hno.
  - (* pool *)
    unfold poolTask.
    destruct (isCancelationError _); [|destruct (isOK status); [|done]];
      (destruct (runCallback _ _) as [a ev e1|ev e1|ev] eqn:Hr; intros Hs;
       [|by apply runCallback_no_wait in Hr|done];
       injection Hs as <-; eapply runCallback_wf; [|done]); [|done].
    apply (wf_frame e); try done. apply Hwf.
  - (* baton *)
    unfold batonTask. destruct (isOK status).
    + destruct (runCallback _ _) as [a ev e1|ev e1|ev] eqn:Hr; intros Hs;
        [|by apply runCallback_no_wait in Hr|done].
      injection Hs as <-. by eapply runCallback_wf.
    + intros [= <-]. apply (wf_frame e); try done. apply Hwf.
  - (* pool after baton *)
    unfold batonPoolTask. destruct (_ || _); [|done].
    destruct (runCallback _ _) as [a ev e1|ev e1|ev] eqn:Hr; intros Hs;
      [|by apply runCallback_no_wait in Hr|done].
    injection Hs as <-. by eapply runCallback_wf.
Qed.

Lemma run_wf (steps : list Step) (e e' : Executor) :
  executor_wf e → run steps e = Some e' → executor_wf e'.
Proof.
  revert e. induction steps as [|s steps IH]; intros e Hwf; simpl.
  - by intros [= <-].
  - destruct (step s e) as [e1|] eqn:Hstep; [|done].
    apply IH. by eapply step_wf.
Qed.

Lemma join_loop_done (l : list EventId) (e1 : Executor)
    (ev0 : list Effect) :
  NoDup l → _unsignaledEvents e1 = l →
  (∀ event, event ∈ l →
     ∃ s, eventStates e1 !! event = Some s ∧ isSignaledFlag s = false ∧
          waiters s = []) →
  ∃ (ev : list Effect) (e2 : Executor),
    join_loop (Done () ev0 e1) l = Done () (ev0 ++ ev) e2 ∧
    _unsignaledEvents e2 = [] ∧
    _poolInProgressQueue e2 = _poolInProgressQueue e1 ∧
    _networkInProgressQueue e2 = _networkInProgressQueue e1 ∧
    _sleepersQueue e2 = _sleepersQueue e1 ∧
    _state e2 = _state e1.
Proof.
  revert e1 ev0. induction l as [|x l IH]; intros e1 ev0 Hnd Hun Hev.
  - exists [], e1. simpl. by rewrite app_nil_r.
  - apply NoDup_cons in Hnd as [Hx Hnd].
    destruct (Hev x) as (s & Hs & Hflag & Hw); [by left|].
    edestruct (IH (set_pool (_poolInProgressQueue e1 ++ [])
                     (set_unsignaled l
                        (set_events
                           (<[x := mkEventState true []]> (eventStates e1))
                           e1)))
                 (ev0 ++ NotifyEventSignaled x :: [NetSignalWorkAvailable]))
      as (ev & e2 & Hloop & Hrest); [done|done| |].
    { intros event Hin. destruct (Hev event) as (s' & ? & ? & ?);
        [by right|].
      exists s'. cbn. rewrite lookup_insert_ne by congruence. done. }
    eexists _, e2. split.
    + cbn [foldl]. rewrite Hs, Hw. unfold signalEvent_inlock at 2.
      rewrite Hs, Hflag, Hw. unfold scheduleIntoPool_inlock.
      rewrite Hun, erase_id_head.
      rewrite <- app_assoc in Hloop. etrans; [|exact Hloop]. done.
    + cbn in Hrest. by rewrite app_nil_r in Hrest.
Qed.

(** On an executor reached from a fresh one by any steps, the assertions
    of [shutdown] and [join] hold. [join] waits exactly while the pool queue
    is not empty or [shutdown] has not been called, and then it has made no
    call and changed nothing. Otherwise it returns: at once if the executor
    is already [shutdownComplete]; else after shutting down and joining the
    pool and shutting down the network interface, leaving the executor
    [shutdownComplete] with every queue empty. *)
Theorem join_completes_shutdown (steps : list Step) (e : Executor) :
  run steps new_executor = Some e →
  (∀ ev, shutdown e ≠ Aborted ev) ∧
  (join e = Waiting [] e ↔
   _poolInProgressQueue e ≠ [] ∨
   (_state e ≠ joinRequired ∧ _state e ≠ shutdownComplete)) ∧
  (∀ ev e', join e = Waiting ev e' → ev = [] ∧ e' = e) ∧
  (_poolInProgressQueue e = [] → _state e = shutdownComplete →
   join e = Done () [] e) ∧
  (_poolInProgressQueue e = [] → _state e = joinRequired →
   ∃ (ev : list Effect) (e' : Executor),
     join e = Done () ev e' ∧ _state e' = shutdownComplete ∧
     _poolInProgressQueue e' = [] ∧ _networkInProgressQueue e' = [] ∧
     _sleepersQueue e' = [] ∧ _unsignaledEvents e' = [] ∧
     PoolShutdown ∈ ev ∧ PoolJoin ∈ ev ∧ NetShutdown ∈ ev).
Proof.
  intros Hrun.
  pose proof (run_wf _ _ _ new_executor_wf Hrun) as (Hnd & Hev & Hq).
  assert (Hjoin :
    _poolInProgressQueue e = [] → _state e = joinRequired →
    ∃ (ev : list Effect) (e' : Executor),
      join e = Done () ev e' ∧ _state e' = shutdownComplete ∧
      _poolInProgressQueue e' = [] ∧ _networkInProgressQueue e' = [] ∧
      _sleepersQueue e' = [] ∧ _unsignaledEvents e' = [] ∧
      PoolShutdown ∈ ev ∧ PoolJoin ∈ ev ∧ NetShutdown ∈ ev).
  { intros Hp Hj.
    assert (Hin : _inShutdown_inlock e = true).
    { unfold _inShutdown_inlock. by rewrite Hj. }
    destruct (Hq Hin) as [Hn Hs].
    edestruct (join_loop_done (_unsignaledEvents e) (set_state joining e)
                 ([NotifyStateChange] ++ [PoolShutdown; PoolJoin]))
      as (ev & e2 & Hloop & Hu2 & Hp2 & Hn2 & Hs2 & Hst2); [done|done| |].
    { intros event Hin'. destruct (Hev _ Hin') as (s & ? & ? & Hw).
      exists s. cbn. split; [done|]. split; [done|]. by apply Hw. }
    cbn [_poolInProgressQueue _networkInProgressQueue _sleepersQueue _state
         set_state] in Hp2, Hn2, Hs2, Hst2.
    exists (([NotifyStateChange] ++ [PoolShutdown; PoolJoin]) ++ ev
            ++ [NetShutdown] ++ [NotifyStateChange]),
           (set_state shutdownComplete e2).
    split; [|repeat split].
    - unfold join, _join. rewrite Hp, Hj.
      rewrite (bool_decide_eq_true_2 ([] = [])) by done.
      rewrite (bool_decide_eq_true_2 (joinRequired = joinRequired)) by done.
      cbn [andb orb]. rewrite decide_False by done.
      unfold _setState_inlock at 1. rewrite Hj, decide_False by done.
      cbn [_unsignaledEvents set_state] in Hloop |- *.
      rewrite Hloop, Hp2, Hp, Hn2, Hn, Hs2, Hs, Hu2.
      unfold _setState_inlock. rewrite Hst2, decide_False by done.
      by rewrite <- !app_assoc.
    - cbn. by rewrite Hp2.
    - cbn. by rewrite Hn2.
    - cbn. by rewrite Hs2.
    - done.
    - by right; left.
    - by right; right; left.
    - rewrite !elem_of_app. right. right. left. by left. }
  split; [|split; [|split; [|split]]]; [| | | |done].
  - intros ev0. destruct (_inShutdown_inlock e) eqn:Hin.
    + unfold shutdown. rewrite Hin. destruct (Hq eq_refl) as [-> ->]. done.
    + by rewrite (shutdown_first e Hin).
  - destruct (decide (_poolInProgressQueue e = [])) as [Hp|Hp].
    + destruct (decide (_state e = joinRequired)) as [Hj|Hj].
      * destruct (Hjoin Hp Hj) as (ev & e' & -> & _).
        split; [done|]. by intros [?|[? _]].
      * unfold join, _join. rewrite (bool_decide_eq_true_2 _ Hp).
        rewrite (bool_decide_eq_false_2 _ Hj). cbn [andb orb].
        case_bool_decide as Hc.
        -- rewrite decide_True by done. split; [done|]. by intros [?|[_ ?]].
        -- split; [|done]. intros _. by right.
    + unfold join, _join. rewrite (bool_decide_eq_false_2 _ Hp).
      cbn [andb]. split; [|done]. intros _. by left.
  - intros ev0 e0.
    destruct (decide (_poolInProgressQueue e = [])) as [Hp|Hp].
    + destruct (decide (_state e = joinRequired)) as [Hj|Hj].
      * by destruct (Hjoin Hp Hj) as (ev & e' & -> & _).
      * unfold join, _join. rewrite (bool_decide_eq_true_2 _ Hp).
        rewrite (bool_decide_eq_false_2 _ Hj). cbn [andb orb].
        case_bool_decide as Hc; [by rewrite decide_True by done|].
        by intros [= <- <-].
    + unfold join, _join. rewrite (bool_decide_eq_false_2 _ Hp).
      cbn [andb]. by intros [= <- <-].
  - intros Hp Hc. unfold join, _join. rewrite Hp, Hc. done.
Qed.

(** *** What a callback is run with *)

#[local] Abbreviation CallbackState :=
  (@CallbackState Work RemoteCallback Command Response).

Lemma runCallback_finished cb (e : Executor) c :
  callbackStates e !! cb = Some c → isFinished c = true →
  runCallback cb e = Aborted [].
Proof. unfold runCallback. by intros -> ->. Qed.

Lemma runCallback_work cb (e : Executor) c work :
  callbackStates e !! cb = Some c → isFinished c = false →
  callback c = WorkFn work →
  ∃ (ev : list Effect) (e2 : Executor),
    runCallback cb e =
    Done () (InvokeWork work cb
               (if canceled c then CallbackCanceled else Status_OK) :: ev)
      e2 ∧
    callbackStates e2 = <[cb := finished_state c]> (callbackStates e) ∧
    _poolInProgressQueue e2 = erase_id cb (_poolInProgressQueue e) ∧
    _state e2 = _state e.
Proof.
  intros Hc Hfin Hfn. unfold runCallback. rewrite Hc, Hfin, Hfn.
  by eexists _, _.
Qed.

Lemma runCallback_failed_early cb (e : Executor) c ucb request :
  callbackStates e !! cb = Some c → isFinished c = false →
  callback c = RemoteCommandFailedEarlyFn ucb request →
  canceled c = true →
  ∃ (ev : list Effect) (e2 : Executor),
    runCallback cb e =
    Done () (InvokeRemoteCallback ucb cb request
               (StatusResponse CallbackCanceled) :: ev) e2.
Proof.
  intros Hc Hfin Hfn Hcan. unfold runCallback.
  rewrite Hc, Hfin, Hfn, Hcan. by eexists _, _.
Qed.

Lemma runCallback_remote_finished cb (e : Executor) c ucb request response :
  callbackStates e !! cb = Some c → isFinished c = false →
  callback c = RemoteCommandFinishedFn ucb request response →
  ∃ (ev : list Effect) (e2 : Executor),
    runCallback cb e =
    Done () (InvokeRemoteCallback ucb cb request
               (NetworkResponse response) :: ev) e2.
Proof.
  intros Hc Hfin Hfn. unfold runCallback.
  rewrite Hc, Hfin, Hfn. by eexists _, _.
Qed.

Lemma store_canceled_lookup cb (e : Executor) c :
  callbackStates e !! cb = Some c →
  callbackStates (store_canceled cb e) !! cb = Some (cancel_state c).
Proof.
  intros Hc. unfold store_canceled. cbn [callbackStates set_callbacks].
  by rewrite lookup_alter_eq, Hc.
Qed.

Lemma poolTask_ok cb (e : Executor) :
  isCancelationError ErrorCodes.OK = false →
  poolTask isCancelationError cb Status_OK e = runCallback cb e.
Proof. unfold poolTask. simpl. by intros ->. Qed.

Lemma state_not_in_shutdown (e e' : Executor) :
  _state e' = _state e → _inShutdown_inlock e = false →
  _inShutdown_inlock e' = false.
Proof. intros Hst. by rewrite (in_shutdown_same_state e e' Hst). Qed.

(** A piece of work handed to [scheduleWork] goes to the pool at once. Its
    callback is called with an ok status when the pool runs it, and with
    [CallbackCanceled] when the pool reports a cancellation, when [cancel]
    was called on its handle first, or when the executor was shut down
    first. Once it has run, running it again fails an [invariant], and so
    does any other status from the pool, before any call is made. *)
Theorem work_is_run_with_its_fate (e : Executor) work :
  _inShutdown_inlock e = false →
  isCancelationError ErrorCodes.OK = false →
  let cb := next_callback e in
  ∃ e1 : Executor,
    scheduleWork work e =
    Done (SWValue cb) [PoolSchedule cb; NetSignalWorkAvailable] e1 ∧
    _poolInProgressQueue e1 = _poolInProgressQueue e ++ [cb] ∧
    (∃ (ev : list Effect) (e2 : Executor),
       poolTask isCancelationError cb Status_OK e1 =
       Done () (InvokeWork work cb Status_OK :: ev) e2 ∧
       ∀ status, poolTask isCancelationError cb status e2 = Aborted []) ∧
    (∀ status, isCancelationError (code status) = true →
       ∃ (ev : list Effect) (e2 : Executor),
         poolTask isCancelationError cb status e1 =
         Done () (InvokeWork work cb CallbackCanceled :: ev) e2) ∧
    (∀ status, isCancelationError (code status) = false →
       isOK status = false →
       poolTask isCancelationError cb status e1 = Aborted []) ∧
    (∃ e1' : Executor,
       cancel (Some cb) e1 = Done () [] e1' ∧
       ∃ (ev : list Effect) (e2 : Executor),
         poolTask isCancelationError cb Status_OK e1' =
         Done () (InvokeWork work cb CallbackCanceled :: ev) e2) ∧
    (∃ (ev1 : list Effect) (e1' : Executor),
       shutdown e1 = Done () ev1 e1' ∧
       ∃ (ev : list Effect) (e2 : Executor),
         poolTask isCancelationError cb Status_OK e1' =
         Done () (InvokeWork work cb CallbackCanceled :: ev) e2).
Proof.
  intros Hin Hok cb.
  unfold scheduleWork, enqueueCallbackState_inlock. rewrite Hin.
  unfold scheduleIntoPool_inlock. cbn [callbackStates set_callbacks].
  fold cb. eexists. split.
  { cbn [app fmap list_fmap]. rewrite lookup_insert_eq. done. }
  split; [done|].
  set (e1 := set_pool _ _).
  set (c := new_callback (WorkFn work) false 0 : CallbackState).
  assert (Hc : callbackStates e1 !! cb = Some c) by apply lookup_insert_eq.
  assert (Hin1 : _inShutdown_inlock e1 = false)
    by by apply (state_not_in_shutdown e).
  split; [|split; [|split; [|split]]].
  - rewrite poolTask_ok by done.
    destruct (runCallback_work cb e1 c work Hc eq_refl eq_refl)
      as (ev & e2 & Hrun & Hcs & _).
    exists ev, e2. split; [exact Hrun|]. intros status.
    assert (Hc2 : callbackStates e2 !! cb = Some (finished_state c)).
    { rewrite Hcs. apply lookup_insert_eq. }
    unfold poolTask. destruct (isCancelationError (code status)).
    + apply (runCallback_finished _ _ (cancel_state (finished_state c)));
        [|done].
      by apply store_canceled_lookup.
    + destruct (isOK status); [|done].
      by apply (runCallback_finished _ _ (finished_state c)).
  - intros status Hcan. unfold poolTask. rewrite Hcan.
    destruct (runCallback_work cb (store_canceled cb e1) (cancel_state c)
                work) as (ev & e2 & Hrun & _); [|done|done|by exists ev, e2].
    by apply store_canceled_lookup.
  - intros status Hcan Hnok. unfold poolTask. by rewrite Hcan, Hnok.
  - unfold cancel. rewrite Hc, Hin1. cbn [isNetworkOperation c new_callback
      isTimerOperation readyDate].
    rewrite decide_False by (intros Hne; by apply Hne).
    eexists. split; [done|]. rewrite poolTask_ok by done.
    destruct (runCallback_work cb (store_canceled cb e1) (cancel_state c)
                work) as (ev & e2 & Hrun & _); [|done|done|by exists ev, e2].
    by apply store_canceled_lookup.
  - destruct (shutdown_first_lookup e1 cb c Hin1 Hc)
      as (ev1 & e1' & Hsh & _ & Hcb' & _).
    { apply elem_of_app. left. apply elem_of_app. right. by left. }
    exists ev1, e1'. split; [done|]. rewrite poolTask_ok by done.
    destruct (runCallback_work cb e1' (cancel_state c) work)
      as (ev & e2 & Hrun & _); [done|done|done|by exists ev, e2].
Qed.

Lemma next_callback_fresh (e : Executor) :
  callbackStates e !! next_callback e = None.
Proof. apply not_elem_of_dom. apply is_fresh. Qed.

Lemma batonTask_ok cb (e : Executor) :
  batonTask cb Status_OK e = runCallback cb e.
Proof. done. Qed.

(** The response of a command that is not in shutdown: the callback state
    takes the response and goes to its baton or to the pool. *)
Lemma commandFinishedTask_lookup cb (e : Executor) (c : CallbackState) ucb
    scheduled response :
  _inShutdown_inlock e = false →
  callbackStates e !! cb = Some c →
  ∃ e2 : Executor,
    commandFinishedTask cb ucb scheduled response e =
    Done () [if baton c then BatonSchedule cb else PoolSchedule cb;
             NetSignalWorkAvailable] e2 ∧
    _poolInProgressQueue e2 = _poolInProgressQueue e ++ [cb] ∧
    callbackStates e2 !! cb =
    Some (mkCallbackState (RemoteCommandFinishedFn ucb scheduled response)
            (canceled c) (readyDate c) (isNetworkOperation c)
            (isTimerOperation c) (isFinished c) (finishedCondition c)
            (baton c)).
Proof.
  intros Hin Hc. unfold commandFinishedTask, scheduleIntoPool_inlock.
  rewrite Hin. cbn [callbackStates set_callbacks set_network].
  eexists. split.
  { cbn [fmap list_fmap app]. rewrite lookup_alter_eq, Hc. reflexivity. }
  split; [done|]. cbn. by rewrite lookup_alter_eq, Hc.
Qed.

(** *** A remote command *)

(** A remote command scheduled outside shutdown is handed to the network
    interface with its expiration date set: [kNoExpirationDate] without a
    timeout, and otherwise the time read from the network interface's clock
    plus the timeout. It waits in the
    network queue, also when [startCommand] fails and its status is
    returned. When the response arrives, the callback goes to its baton or
    to the pool and is called with that response, even if [cancel] was
    called before, which only tells the network interface. After
    [shutdown] the callback is called with [CallbackCanceled] and no
    request-level response, and a response that arrives later is dropped. *)
Theorem remote_command_lifecycle (e : Executor)
    (request : @RemoteCommandRequestOnAny Command) (ucb : RemoteCallback)
    (hasBaton : bool) (now : Date_t) :
  _inShutdown_inlock e = false →
  isCancelationError ErrorCodes.OK = false →
  let cb := next_callback e in
  let scheduled :=
    mkRequest (command request) (timeout request)
      (if decide (timeout request = kNoTimeout) then kNoExpirationDate
       else (now + timeout request)%Z) in
  let clock : list Effect :=
    if decide (timeout request = kNoTimeout) then [] else [NetNow] in
  let handed : Effect :=
    if hasBaton then BatonSchedule cb else PoolSchedule cb in
  let task (e' : Executor) :=
    if hasBaton then batonTask cb Status_OK e'
    else poolTask isCancelationError cb Status_OK e' in
  ∃ e1 : Executor,
    scheduleRemoteCommandOnAny kNoTimeout kNoExpirationDate request ucb
      hasBaton now Status_OK e
    = Done (SWValue cb) (clock ++ [NetStartCommand cb scheduled]) e1 ∧
    (∀ commandStatus, isOK commandStatus = false →
       scheduleRemoteCommandOnAny kNoTimeout kNoExpirationDate request ucb
         hasBaton now commandStatus e
       = Done (SWError commandStatus)
           (clock ++ [NetStartCommand cb scheduled]) e1) ∧
    _networkInProgressQueue e1 = _networkInProgressQueue e ++ [cb] ∧
    _poolInProgressQueue e1 = _poolInProgressQueue e ∧
    (∀ response,
       ∃ e2 : Executor,
         commandFinishedTask cb ucb scheduled response e1 =
         Done () [handed; NetSignalWorkAvailable] e2 ∧
         _poolInProgressQueue e2 = _poolInProgressQueue e ++ [cb] ∧
         ∃ (ev : list Effect) (e3 : Executor),
           task e2 =
           Done () (InvokeRemoteCallback ucb cb scheduled
                      (NetworkResponse response) :: ev) e3) ∧
    (∃ e1' : Executor,
       cancel (Some cb) e1 = Done () [NetCancelCommand cb] e1' ∧
       _networkInProgressQueue e1' = _networkInProgressQueue e1 ∧
       _poolInProgressQueue e1' = _poolInProgressQueue e ∧
       ∀ response,
         ∃ (e2 : Executor) (ev : list Effect) (e3 : Executor),
           commandFinishedTask cb ucb scheduled response e1' =
           Done () [handed; NetSignalWorkAvailable] e2 ∧
           task e2 =
           Done () (InvokeRemoteCallback ucb cb scheduled
                      (NetworkResponse response) :: ev) e3) ∧
    (∃ (ev1 : list Effect) (e1' : Executor),
       shutdown e1 = Done () ev1 e1' ∧ handed ∈ ev1 ∧
       (∀ response,
          commandFinishedTask cb ucb scheduled response e1' =
          Done () [] e1') ∧
       ∃ (ev : list Effect) (e3 : Executor),
         task e1' =
         Done () (InvokeRemoteCallback ucb cb scheduled
                    (StatusResponse CallbackCanceled) :: ev) e3).
Proof.
  intros Hin Hok cb scheduled clock handed task.
  unfold scheduleRemoteCommandOnAny, enqueueCallbackState_inlock.
  rewrite Hin. fold cb scheduled clock. cbn [isOK code Status_OK].
  eexists. split; [reflexivity|].
  set (c := mkCallbackState (RemoteCommandFailedEarlyFn ucb scheduled)
              false 0 true false false false hasBaton : CallbackState).
  set (e1 := set_network _ _).
  assert (Hc : callbackStates e1 !! cb = Some c) by apply lookup_insert_eq.
  assert (Hin1 : _inShutdown_inlock e1 = false)
    by by apply (state_not_in_shutdown e).
  assert (Htask : ∀ e' : Executor, task e' = runCallback cb e').
  { intros e'. unfold task. destruct hasBaton; [done|].
    by apply poolTask_ok. }
  split; [by intros commandStatus ->|].
  split; [done|]. split; [done|].
  split; [|split].
  - intros response.
    destruct (commandFinishedTask_lookup cb e1 c ucb scheduled response
                Hin1 Hc) as (e2 & Hfin & Hpool & Hc2).
    exists e2. split; [exact Hfin|]. split; [exact Hpool|].
    rewrite Htask.
    by apply (runCallback_remote_finished cb e2 _ ucb scheduled response
                Hc2).
  - unfold cancel. rewrite Hc, Hin1. cbn [isNetworkOperation c].
    eexists. split; [done|]. split; [done|]. split; [done|].
    intros response.
    destruct (commandFinishedTask_lookup cb (store_canceled cb e1)
                (cancel_state c) ucb scheduled response) as
      (e2 & Hfin & Hpool & Hc2); [done|by apply store_canceled_lookup|].
    destruct (runCallback_remote_finished cb e2 _ ucb scheduled response
                Hc2) as (ev & e3 & Hrun); [done..|].
    exists e2, ev, e3. split; [exact Hfin|]. by rewrite Htask.
  - destruct (shutdown_first_lookup e1 cb c Hin1 Hc)
      as (ev1 & e1' & Hsh & Hin' & Hcb' & Hev).
    { apply elem_of_app. right. apply elem_of_app. left.
      apply elem_of_app. right. by left. }
    exists ev1, e1'. split; [done|]. split.
    { apply Hev. apply elem_of_app. left. apply elem_of_app. right.
      by left. }
    split.
    { intros response. unfold commandFinishedTask. by rewrite Hin'. }
    rewrite Htask.
    by apply (runCallback_failed_early cb e1' _ ucb scheduled Hcb').
Qed.

(** *** Work scheduled for later *)

(** Work scheduled for a time after the reading of the network interface's
    clock sleeps until its alarm: it is given to [setAlarm], placed in the
    sleepers queue, and not given to the pool.
    When the alarm fires with any status but [CallbackCanceled] the work
    goes to the pool and is called with an ok status; an alarm that reports
    [CallbackCanceled] does nothing. [cancel] cancels the alarm and sends
    the work to the pool at once, where it is called with
    [CallbackCanceled], and the alarm firing later does nothing. When
    [setAlarm] fails, its status is returned, yet the work is still called,
    with [CallbackCanceled]. *)
Theorem sleeping_work_lifecycle (e : Executor) when work now :
  _inShutdown_inlock e = false →
  isCancelationError ErrorCodes.OK = false →
  (now < when)%Z → when ≠ 0%Z →
  let cb := next_callback e in
  ∃ e1 : Executor,
    scheduleWorkAt when work now Status_OK e =
    Done (SWValue cb) [NetNow; NetSetAlarm cb when] e1 ∧
    _sleepersQueue e1 = _sleepersQueue e ++ [cb] ∧
    _poolInProgressQueue e1 = _poolInProgressQueue e ∧
    (∀ status, status_is status ErrorCodes.CallbackCanceled = false →
       ∃ e2 : Executor,
         alarmTask cb status e1 =
         Done () [PoolSchedule cb; NetSignalWorkAvailable] e2 ∧
         _poolInProgressQueue e2 = _poolInProgressQueue e ++ [cb] ∧
         ∃ (ev : list Effect) (e3 : Executor),
           poolTask isCancelationError cb Status_OK e2 =
           Done () (InvokeWork work cb Status_OK :: ev) e3) ∧
    (∀ status, status_is status ErrorCodes.CallbackCanceled = true →
       alarmTask cb status e1 = Done () [] e1) ∧
    (∃ e1' : Executor,
       cancel (Some cb) e1 =
       Done () [NetCancelAlarm cb; PoolSchedule cb; NetSignalWorkAvailable]
         e1' ∧
       _poolInProgressQueue e1' = _poolInProgressQueue e ++ [cb] ∧
       (∀ status, alarmTask cb status e1' = Done () [] e1') ∧
       ∃ (ev : list Effect) (e3 : Executor),
         poolTask isCancelationError cb Status_OK e1' =
         Done () (InvokeWork work cb CallbackCanceled :: ev) e3) ∧
    (∀ alarmStatus, isOK alarmStatus = false →
       ∃ e1' : Executor,
         scheduleWorkAt when work now alarmStatus e =
         Done (SWError alarmStatus)
           [NetNow; NetSetAlarm cb when; NetCancelAlarm cb; PoolSchedule cb;
            NetSignalWorkAvailable] e1' ∧
         ∃ (ev : list Effect) (e3 : Executor),
           poolTask isCancelationError cb Status_OK e1' =
           Done () (InvokeWork work cb CallbackCanceled :: ev) e3).
Proof.
  intros Hin Hok Hlate Hwhen cb.
  set (c := mkCallbackState (WorkFn work) false when false true false false
              false : CallbackState).
  set (e1 := set_sleepers (_sleepersQueue e ++ [cb])
               (set_callbacks (<[cb := c]> (callbackStates e)) e)
             : Executor).
  assert (Hc : callbackStates e1 !! cb = Some c) by apply lookup_insert_eq.
  assert (Hin1 : _inShutdown_inlock e1 = false)
    by by apply (state_not_in_shutdown e).
  assert (Hsched : ∀ alarmStatus,
            scheduleWorkAt when work now alarmStatus e =
            if isOK alarmStatus
            then Done (SWValue cb) [NetNow; NetSetAlarm cb when] e1
            else match cancel (Some cb) e1 with
                 | Done _ ev e2 =>
                     Done (SWError alarmStatus)
                       ([NetNow; NetSetAlarm cb when] ++ ev) e2
                 | Waiting ev e2 =>
                     Waiting ([NetNow; NetSetAlarm cb when] ++ ev) e2
                 | Aborted ev => Aborted ([NetNow; NetSetAlarm cb when] ++ ev)
                 end).
  { intros alarmStatus. unfold scheduleWorkAt, enqueueCallbackState_inlock.
    rewrite bool_decide_eq_false_2 by lia. by rewrite Hin. }
  assert (Hcancel : ∃ e1' : Executor,
            cancel (Some cb) e1 =
            Done () [NetCancelAlarm cb; PoolSchedule cb;
                     NetSignalWorkAvailable] e1' ∧
            _poolInProgressQueue e1' = _poolInProgressQueue e ++ [cb] ∧
            _state e1' = _state e ∧
            callbackStates e1' !! cb = Some (cancel_state c)).
  { unfold cancel. rewrite Hc, Hin1. cbn [isNetworkOperation isTimerOperation
      readyDate c].
    rewrite decide_True by done.
    rewrite decide_True.
    2:{ cbn. apply elem_of_app. right. by left. }
    unfold scheduleIntoPool_inlock. eexists. split.
    - cbn [fmap list_fmap app callbackStates set_sleepers].
      by rewrite store_canceled_lookup with (c := c).
    - split; [done|]. split; [done|]. cbn [callbackStates set_pool
        set_sleepers]. by apply store_canceled_lookup. }
  exists e1. split; [by rewrite Hsched|]. split; [done|]. split; [done|].
  split; [|split; [|split]].
  - intros status Hst. unfold alarmTask. rewrite Hst, Hc.
    cbn [canceled c]. unfold scheduleIntoPool_inlock.
    eexists. split.
    { cbn [fmap list_fmap app callbackStates set_sleepers]. by rewrite Hc. }
    split; [done|]. rewrite poolTask_ok by done.
    destruct (runCallback_work cb
                (set_pool (_poolInProgressQueue e1 ++ [cb])
                   (set_sleepers (erase_id cb (_sleepersQueue e1)) e1))
                c work Hc eq_refl eq_refl) as (ev & e3 & Hrun & _).
    by exists ev, e3.
  - intros status Hst. unfold alarmTask. by rewrite Hst.
  - destruct Hcancel as (e1' & Hcan & Hpool & Hst' & Hc').
    exists e1'. split; [done|]. split; [done|]. split.
    + intros status. unfold alarmTask.
      destruct (status_is _ _); [done|]. by rewrite Hc'.
    + rewrite poolTask_ok by done.
      destruct (runCallback_work cb e1' (cancel_state c) work Hc' eq_refl
                  eq_refl) as (ev & e3 & Hrun & _).
      by exists ev, e3.
  - intros alarmStatus Hfail.
    destruct Hcancel as (e1' & Hcan & Hpool & Hst' & Hc').
    exists e1'. split; [by rewrite Hsched, Hfail, Hcan|].
    rewrite poolTask_ok by done.
    destruct (runCallback_work cb e1' (cancel_state c) work Hc' eq_refl
                eq_refl) as (ev & e3 & Hrun & _).
    by exists ev, e3.
Qed.

(** *** Events *)

(** Work attached with [onEvent] to a new event is not given to the pool
    until the event is signaled; [signalEvent] then hands it to the pool and
    it is called with an ok status. Work attached after the signal goes to
    the pool at once. Signaling the event a second time fails an
    [invariant]. *)
Theorem event_lifecycle (e : Executor) work work' :
  _inShutdown_inlock e = false →
  isCancelationError ErrorCodes.OK = false →
  let event := next_event e in
  let cb := next_callback e in
  ∃ e1 e2 e3 : Executor,
    makeEvent e = Done (SWValue event) [] e1 ∧
    _unsignaledEvents e1 = _unsignaledEvents e ++ [event] ∧
    onEvent (Some event) work e1 = Done (SWValue cb) [] e2 ∧
    _poolInProgressQueue e2 = _poolInProgressQueue e ∧
    signalEvent (Some event) e2 =
    Done () [NotifyEventSignaled event; PoolSchedule cb;
             NetSignalWorkAvailable] e3 ∧
    _poolInProgressQueue e3 = _poolInProgressQueue e ++ [cb] ∧
    (∃ (ev : list Effect) (e4 : Executor),
       poolTask isCancelationError cb Status_OK e3 =
       Done () (InvokeWork work cb Status_OK :: ev) e4) ∧
    signalEvent (Some event) e3 = Aborted [] ∧
    (∃ e4 : Executor,
       onEvent (Some event) work' e3 =
       Done (SWValue (next_callback e3))
         [PoolSchedule (next_callback e3); NetSignalWorkAvailable] e4 ∧
       _poolInProgressQueue e4 =
       _poolInProgressQueue e ++ [cb; next_callback e3]).
Proof.
  intros Hin Hok event cb.
  unfold makeEvent. rewrite Hin. fold event.
  set (e1 := set_unsignaled _ _).
  assert (He1 : eventStates e1 !! event = Some (mkEventState false []))
    by apply lookup_insert_eq.
  assert (Hin1 : _inShutdown_inlock e1 = false)
    by by apply (state_not_in_shutdown e).
  set (c := new_callback (WorkFn work) false 0 : CallbackState).
  set (e2 := set_events (<[event := mkEventState false [cb]]> (eventStates e1))
               (set_callbacks (<[cb := c]> (callbackStates e1)) e1)
             : Executor).
  assert (Hon : onEvent (Some event) work e1 = Done (SWValue cb) [] e2).
  { unfold onEvent, enqueueCallbackState_inlock. by rewrite He1, Hin1. }
  assert (He2 : eventStates e2 !! event = Some (mkEventState false [cb]))
    by apply lookup_insert_eq.
  assert (Hc2 : callbackStates e2 !! cb = Some c) by apply lookup_insert_eq.
  set (e3 := set_pool (_poolInProgressQueue e ++ [cb])
               (set_unsignaled (erase_id event (_unsignaledEvents e2))
                  (set_events (<[event := mkEventState true []]>
                                 (eventStates e2)) e2))
             : Executor).
  assert (Hsig : signalEvent (Some event) e2 =
                 Done () [NotifyEventSignaled event; PoolSchedule cb;
                          NetSignalWorkAvailable] e3).
  { unfold signalEvent, signalEvent_inlock, scheduleIntoPool_inlock.
    rewrite He2. cbn [isSignaledFlag waiters fmap list_fmap app
      callbackStates set_unsignaled set_events].
    by rewrite Hc2. }
  assert (He3 : eventStates e3 !! event = Some (mkEventState true []))
    by apply lookup_insert_eq.
  assert (Hc3 : callbackStates e3 !! cb = Some c) by exact Hc2.
  assert (Hin3 : _inShutdown_inlock e3 = false)
    by by apply (state_not_in_shutdown e).
  exists e1, e2, e3.
  split; [done|]. split; [done|]. split; [done|]. split; [done|].
  split; [done|]. split; [done|]. split; [|split].
  - rewrite poolTask_ok by done.
    destruct (runCallback_work cb e3 c work Hc3 eq_refl eq_refl)
      as (ev & e4 & Hrun & _).
    by exists ev, e4.
  - unfold signalEvent, signalEvent_inlock. by rewrite He3.
  - unfold onEvent, enqueueCallbackState_inlock, scheduleIntoPool_inlock.
    rewrite He3, Hin3. cbn [isSignaledFlag waiters].
    eexists. split.
    { cbn [fmap list_fmap app callbackStates set_events set_callbacks].
      rewrite lookup_insert_eq. reflexivity. }
    cbn. by rewrite <- app_assoc.
Qed.

(** *** The state only moves forward, over a whole run *)

(** No sequence of steps takes the executor's state backwards in the order
    [preStart], [running], [joinRequired], [joining], [shutdownComplete];
    in particular [startup] cannot be called a second time, nor after
    [shutdown]: it starts the network interface and then fails an
    [invariant]. *)
Theorem state_never_goes_back (steps : list Step) (e e' : Executor) :
  run steps e = Some e' →
  state_rank (_state e) ≤ state_rank (_state e') ∧
  (_state e ≠ preStart → startup e' = Aborted [NetStartup]).
Proof.
  intros Hrun. apply run_state_monotone in Hrun. split; [done|].
  intros Hne. unfold startup. rewrite decide_False; [done|].
  intros Heq. rewrite Heq in Hrun. destruct (_state e); simpl in *;
    done || lia.
Qed.

End theory.

Example busy_executor_reached :
  run Examples.no_timeout Examples.no_expiration_date Examples.is_cancelation
    Examples.busy_steps new_executor
  = Some Examples.busy_executor.
Proof. vm_compute. reflexivity. Qed.

Lemma nothing_scheduled_after_shutdown_witness :
  shutdown Examples.started =
  Done () [NotifyStateChange; NetSignalWorkAvailable]
    Examples.shut_down_executor ∧
  run Examples.no_timeout Examples.no_expiration_date
    Examples.is_cancelation [StepScheduleWork "w"; StepMakeEvent]
    Examples.shut_down_executor = Some Examples.shut_down_executor ∧
  scheduleWork "w" Examples.shut_down_executor =
  Done (SWError ShutdownInProgress) [] Examples.shut_down_executor ∧
  scheduleWorkAt 500 "later" 100 Status_OK Examples.shut_down_executor =
  Done (SWError ShutdownInProgress) [NetNow] Examples.shut_down_executor ∧
  makeEvent Examples.shut_down_executor =
  Done (SWError ShutdownInProgress) [] Examples.shut_down_executor.
Proof.
  assert (Hsh : shutdown Examples.started =
                Done () [NotifyStateChange; NetSignalWorkAvailable]
                  Examples.shut_down_executor) by reflexivity.
  assert (Hrun :
    run Examples.no_timeout Examples.no_expiration_date
      Examples.is_cancelation [StepScheduleWork "w"; StepMakeEvent]
      Examples.shut_down_executor = Some Examples.shut_down_executor)
    by reflexivity.
  destruct (nothing_scheduled_after_shutdown Examples.no_timeout
              Examples.no_expiration_date Examples.is_cancelation
              Examples.started Examples.shut_down_executor
              Examples.shut_down_executor () _ _ Hsh Hrun)
    as (_ & Hwork & Hlater & _ & Hevent & _).
  split; [exact Hsh|]. split; [exact Hrun|].
  split; [apply Hwork|]. split; [apply Hlater | exact Hevent].
Defined.

Lemma shutdown_cancels_everything_pending_witness :
  ∃ (ev : list (@Effect string string string string)) e',
    shutdown Examples.busy_executor = Done () ev e' ∧
    _state e' = joinRequired ∧
    _poolInProgressQueue e' = [0%nat; 1%nat; 2%nat] ∧
    (PoolSchedule 1%nat ∈ ev ∨ BatonSchedule 1%nat ∈ ev).
Proof.
  destruct (shutdown_cancels_everything_pending Examples.busy_executor
              eq_refl)
    as (ev & e' & Hsh & Hst & _ & _ & Hpool & _ & _ & _ & Hev).
  exists ev, e'. split; [exact Hsh|]. split; [exact Hst|].
  split; [exact Hpool|]. apply Hev.
  apply list_elem_of_further, list_elem_of_here.
Defined.

Lemma join_completes_shutdown_witness :
  ∃ (ev : list (@Effect string string string string)) e',
    join Examples.shut_down_executor = Done () ev e' ∧
    _state e' = shutdownComplete.
Proof.
  destruct (join_completes_shutdown Examples.no_timeout
              Examples.no_expiration_date Examples.is_cancelation
              [StepStartup; StepShutdown] Examples.shut_down_executor
              eq_refl) as (_ & _ & _ & _ & Hjoin).
  destruct (Hjoin eq_refl eq_refl) as (ev & e' & Hj & Hst & _).
  exists ev, e'. split; [exact Hj | exact Hst].
Defined.

Lemma work_is_run_with_its_fate_witness :
  ∃ (e1 : @Executor string string string string) ev e2,
    scheduleWork "w" Examples.started =
    Done (SWValue 0%nat) [PoolSchedule 0%nat; NetSignalWorkAvailable] e1 ∧
    poolTask Examples.is_cancelation 0%nat Status_OK e1 =
    Done () (InvokeWork "w" 0%nat Status_OK :: ev) e2.
Proof.
  destruct (work_is_run_with_its_fate Examples.is_cancelation
              Examples.started "w" eq_refl eq_refl)
    as (e1 & Hsched & _ & (ev & e2 & Hrun & _) & _).
  exists e1, ev, e2. split; [exact Hsched | exact Hrun].
Defined.

Lemma remote_command_lifecycle_witness :
  ∃ e1 e1' : @Executor string string string string,
    scheduleRemoteCommandOnAny Examples.no_timeout
      Examples.no_expiration_date Examples.ping "onPing" false 100
      Status_OK Examples.started =
    Done (SWValue 0%nat)
      [NetNow; NetStartCommand 0%nat (mkRequest "ping" 30 130)] e1 ∧
    _networkInProgressQueue e1 = [0%nat] ∧
    cancel (Some 0%nat) e1 = Done () [NetCancelCommand 0%nat] e1'.
Proof.
  destruct (remote_command_lifecycle Examples.no_timeout
              Examples.no_expiration_date Examples.is_cancelation
              Examples.started Examples.ping "onPing" false 100 eq_refl
              eq_refl)
    as (e1 & Hsched & _ & Hnet & _ & _ & (e1' & Hcancel & _) & _).
  exists e1, e1'. split; [exact Hsched|]. split; [exact Hnet|].
  exact Hcancel.
Defined.

Lemma sleeping_work_lifecycle_witness :
  ∃ e1 : @Executor string string string string,
    scheduleWorkAt 500 "later" 100 Status_OK Examples.started =
    Done (SWValue 0%nat) [NetNow; NetSetAlarm 0%nat 500] e1 ∧
    _sleepersQueue e1 = [0%nat] ∧
    alarmTask 0%nat Examples.canceled e1 = Done () [] e1.
Proof.
  assert (Hlate : (100 < 500)%Z) by reflexivity.
  assert (Hwhen : (500 ≠ 0)%Z) by discriminate.
  destruct (sleeping_work_lifecycle Examples.is_cancelation
              Examples.started 500 "later" 100 eq_refl eq_refl Hlate Hwhen)
    as (e1 & Hsched & Hsleep & _ & _ & Halarm & _).
  exists e1. split; [exact Hsched|]. split; [exact Hsleep|].
  apply Halarm. reflexivity.
Defined.

Lemma event_lifecycle_witness :
  ∃ e1 e2 e3 : @Executor string string string string,
    makeEvent Examples.started = Done (SWValue 0%nat) [] e1 ∧
    onEvent (Some 0%nat) "w" e1 = Done (SWValue 0%nat) [] e2 ∧
    signalEvent (Some 0%nat) e2 =
    Done () [NotifyEventSignaled 0%nat; PoolSchedule 0%nat;
             NetSignalWorkAvailable] e3 ∧
    signalEvent (Some 0%nat) e3 = Aborted [].
Proof.
  destruct (event_lifecycle Examples.is_cancelation Examples.started "w"
              "v" eq_refl eq_refl)
    as (e1 & e2 & e3 & Hmake & _ & Hon & _ & Hsig & _ & _ & Hagain & _).
  exists e1, e2, e3.
  split; [exact Hmake|]. split; [exact Hon|]. split; [exact Hsig|].
  exact Hagain.
Defined.

Lemma state_never_goes_back_witness :
  ∃ e' : @Executor string string string string,
    run Examples.no_timeout Examples.no_expiration_date
      Examples.is_cancelation [StepShutdown] Examples.started = Some e' ∧
    state_rank (_state Examples.started) ≤ state_rank (_state e') ∧
    startup e' = Aborted [NetStartup].
Proof.
  eexists. split; [reflexivity|].
  destruct (state_never_goes_back Examples.no_timeout
              Examples.no_expiration_date Examples.is_cancelation
              [StepShutdown] Examples.started _ eq_refl) as [Hle Hstart].
  split; [exact Hle|]. apply Hstart. discriminate.
Defined.

End ExecutorTheory.
